(** * Kyren group buying: the group-formation and discount-settlement workflow

    A shallow embedding of [app/services/group_manager.py], of the queries of
    [app/db/crud.py] it uses and of [crud.update_order_status], and, of
    [app/services/bale.py], of the [join_group] branch, of the buttons
    [send_product_info] puts under a product and of the reading of their
    callback data, together with the properties of the workflow.

    Modelling choices.
    - A table is the list of its rows in storage order; a query without
      [order_by] returns the matching rows in that order and [.first()] the
      first of them.
    - Integer columns are [Z].  Float columns (prices, percentages) are exact
      rationals [Q]: rounding and NaN are outside the model.
    - DateTime values are [Z] (microseconds).  One operation reads the clock
      once: the [now] it is given stands for every [datetime.utcnow()] of its
      run.
    - An ORM object is its row; assigning to an attribute rewrites the row of
      that primary key in the table.
    - The messaging gateway is the list of the messages sent so far.  The
      recipient is recorded by the order's [buyer_id]; the buyer row and its
      numeric [bale_id] are taken to exist, and what
      [int(order.buyer.bale_id)] raises otherwise is outside the model.
    - A Python exception is a value of [Exn]; an operation returns
      [Exn + (result * state)]. *)

From Stdlib Require Import String.
From Stdlib Require Import List ZArith QArith Lia Bool Permutation Sorted.
From Stdlib Require Import Lqa Ascii.
From Stdlib Require DecimalString DecimalZ.
Import ListNotations.
Local Open Scope Z_scope.

(** ** Data model ([app/db/models.py]) *)

Inductive OrderStatus : Set :=
| PENDING | CONFIRMED | PAID | SHIPPED | DELIVERED | CANCELLED.

Definition OrderStatus_eqb (a b : OrderStatus) : bool :=
  match a, b with
  | PENDING, PENDING | CONFIRMED, CONFIRMED | PAID, PAID
  | SHIPPED, SHIPPED | DELIVERED, DELIVERED | CANCELLED, CANCELLED => true
  | _, _ => false
  end.

Module DiscountTier.
Record t : Set := mk { group_size : Z; discount_percentage : Q }.
End DiscountTier.

Module Product.
Record t : Set := mk {
  id : Z;
  price : Q;
  min_group_size : Z;
  discount_percentage : Q;
  discount_tiers : list DiscountTier.t
}.
End Product.

Module GroupBuy.
Record t : Set := mk {
  id : Z;
  product_id : Z;
  current_count : Z;
  target_count : Z;
  is_active : bool;
  updated_at : Z
}.

(** [group.current_count = c], flushed at time [now] ([onupdate]). *)
Definition set_current_count (now c : Z) (g : t) : t :=
  mk (id g) (product_id g) c (target_count g) (is_active g) now.

(** [group.is_active = b], flushed at time [now]. *)
Definition set_is_active (now : Z) (b : bool) (g : t) : t :=
  mk (id g) (product_id g) (current_count g) (target_count g) b now.
End GroupBuy.

Module Order.
Record t : Set := mk {
  id : Z;
  buyer_id : Z;
  group_buy_id : Z;
  quantity : Z;
  unit_price : Q;
  discount_price : option Q;
  deposit_amount : Q;
  status : OrderStatus;
  created_at : Z
}.

Definition set_group_buy_id (gid : Z) (o : t) : t :=
  mk (id o) (buyer_id o) gid (quantity o) (unit_price o) (discount_price o)
     (deposit_amount o) (status o) (created_at o).

Definition set_status (s : OrderStatus) (o : t) : t :=
  mk (id o) (buyer_id o) (group_buy_id o) (quantity o) (unit_price o)
     (discount_price o) (deposit_amount o) s (created_at o).

Definition set_discount_price (p : Q) (o : t) : t :=
  mk (id o) (buyer_id o) (group_buy_id o) (quantity o) (unit_price o)
     (Some p) (deposit_amount o) (status o) (created_at o).
End Order.

(** The texts handed to [bale_client.send_message], by kind and by the values
    interpolated in them. *)
Inductive Message : Set :=
| MsgGroupComplete (total_buyers : Z) (discount : Q) (discount_price : Q)
| MsgJoined (current_count target_count : Z)
| MsgRearrangedComplete (discount : Q) (discount_price : Q)
| MsgRearrangedActive (remaining_count min_group_size : Z)
| MsgExpired
| MsgDeposit (deposit_amount : Q) (position target_count : Z).

Record DB : Set := mkDB {
  products : list Product.t;
  group_buys : list GroupBuy.t;
  orders : list Order.t;
  group_buy_seq : Z;      (* next primary key of [group_buys] *)
  order_seq : Z;          (* next primary key of [orders] *)
  outbox : list (Z * Message)
}.

Inductive Exn : Set := AttributeError | ZeroDivisionError.

(** ** Sorting

    [list.sort(key=..., reverse=...)] is stable in both directions: rows of
    equal key keep their order.  [before y x] says that [y] sorts strictly
    before [x]. *)

Fixpoint insert_by {A} (before : A -> A -> bool) (x : A) (l : list A) : list A :=
  match l with
  | [] => [x]
  | y :: l' => if before y x then y :: insert_by before x l' else x :: y :: l'
  end.

Definition sort_by {A} (before : A -> A -> bool) (l : list A) : list A :=
  fold_right (insert_by before) [] l.

(** [l[start:stop]] for [0 <= start]. *)
Definition slice {A} (start stop : Z) (l : list A) : list A :=
  firstn (Z.to_nat (stop - start)) (skipn (Z.to_nat start) l).

(** ** Discount Resolver ([group_manager.get_discount_percentage]) *)

Definition higher_discount (y x : DiscountTier.t) : bool :=
  negb (Qle_bool (DiscountTier.discount_percentage y) (DiscountTier.discount_percentage x)).

Definition default_discount (product : Product.t) (group_size : Z) : Q :=
  if Product.min_group_size product <=? group_size
  then Product.discount_percentage product
  else 0%Q.

Definition get_discount_percentage (product : Product.t) (group_size : Z) : Q :=
  match Product.discount_tiers product with
  | [] => default_discount product group_size
  | _ :: _ =>
      let applicable_tiers :=
        filter (fun tier => DiscountTier.group_size tier <=? group_size)
               (Product.discount_tiers product) in
      match sort_by higher_discount applicable_tiers with
      | [] => default_discount product group_size
      | best :: _ => DiscountTier.discount_percentage best
      end
  end.

(** ** Store operations ([app/db/crud.py]) *)

Definition with_group_buys (gs : list GroupBuy.t) (db : DB) : DB :=
  mkDB (products db) gs (orders db) (group_buy_seq db) (order_seq db) (outbox db).

Definition with_orders (os : list Order.t) (db : DB) : DB :=
  mkDB (products db) (group_buys db) os (group_buy_seq db) (order_seq db) (outbox db).

(** Assigning attributes of the ORM object of primary key [gid]. *)
Definition update_group_buy (gid : Z) (f : GroupBuy.t -> GroupBuy.t) (db : DB) : DB :=
  with_group_buys
    (map (fun g => if GroupBuy.id g =? gid then f g else g) (group_buys db)) db.

Definition update_order (oid : Z) (f : Order.t -> Order.t) (db : DB) : DB :=
  with_orders (map (fun o => if Order.id o =? oid then f o else o) (orders db)) db.

(** [bale_client.send_message]: never raises; the delivery result is ignored. *)
Definition send_message (chat : Z) (m : Message) (db : DB) : DB :=
  mkDB (products db) (group_buys db) (orders db) (group_buy_seq db) (order_seq db)
       (outbox db ++ [(chat, m)]).

Definition get_product (db : DB) (product_id : Z) : option Product.t :=
  find (fun p => Product.id p =? product_id) (products db).

Definition get_group_buy (db : DB) (group_id : Z) : option GroupBuy.t :=
  find (fun g => GroupBuy.id g =? group_id) (group_buys db).

Definition get_active_group_buy (db : DB) (product_id : Z) : option GroupBuy.t :=
  find (fun g => (GroupBuy.product_id g =? product_id) && GroupBuy.is_active g)
       (group_buys db).

(** [db.add(GroupBuy(...)); db.commit(); db.refresh(...)]: the row gets the
    next primary key and [updated_at = now]. *)
Definition create_group_buy (now product_id target_count current_count : Z)
    (is_active : bool) (db : DB) : GroupBuy.t * DB :=
  let g := GroupBuy.mk (group_buy_seq db) product_id current_count target_count
                       is_active now in
  (g, mkDB (products db) (group_buys db ++ [g]) (orders db)
           (group_buy_seq db + 1) (order_seq db) (outbox db)).

Definition get_or_create_active_group_buy (now : Z) (db : DB) (product_id : Z)
    : Exn + (GroupBuy.t * DB) :=
  match get_active_group_buy db product_id with
  | Some group_buy => inr (group_buy, db)
  | None =>
      match get_product db product_id with
      | None => inl AttributeError          (* product.min_group_size on None *)
      | Some product =>
          inr (create_group_buy now product_id (Product.min_group_size product)
                                0 true db)
      end
  end.

Definition incomplete (g : GroupBuy.t) : bool :=
  GroupBuy.is_active g && (GroupBuy.current_count g <? GroupBuy.target_count g).

Definition get_incomplete_groups (db : DB) : list GroupBuy.t :=
  filter incomplete (group_buys db).

Definition expired (threshold_date : Z) (g : GroupBuy.t) : bool :=
  GroupBuy.is_active g && (GroupBuy.updated_at g <? threshold_date)
  && (GroupBuy.current_count g <? GroupBuy.target_count g).

Definition get_expired_groups (db : DB) (threshold_date : Z) : list GroupBuy.t :=
  filter (expired threshold_date) (group_buys db).

Definition get_order (db : DB) (order_id : Z) : option Order.t :=
  find (fun o => Order.id o =? order_id) (orders db).

Definition get_orders_by_group (db : DB) (group_id : Z) : list Order.t :=
  filter (fun o => Order.group_buy_id o =? group_id) (orders db).

(** [crud.create_order] with the keys [bale.py] passes; the other columns take
    their defaults ([status = PENDING], [discount_price = NULL]). *)
Definition create_order (now buyer_id group_buy_id quantity : Z)
    (unit_price deposit_amount : Q) (db : DB) : Order.t * DB :=
  let o := Order.mk (order_seq db) buyer_id group_buy_id quantity unit_price None
                    deposit_amount PENDING now in
  (o, mkDB (products db) (group_buys db) (orders db ++ [o])
           (group_buy_seq db) (order_seq db + 1) (outbox db)).

(** ** Joining ([bale.process_bale_update], callback [join_group:<product_id>]) *)

Record JoinGroup : Set := mkJoinGroup { join_group_buy_id : Z; join_order_id : Z }.

Definition process_bale_update_join_group (now : Z) (db : DB) (product_id buyer_id : Z)
    : Exn + (JoinGroup * DB) :=
  match get_or_create_active_group_buy now db product_id with
  | inl e => inl e
  | inr (group_buy, db1) =>
      match get_product db1 product_id with
      | None => inl AttributeError          (* product.price on None *)
      | Some product =>
          let deposit_amount := (Product.price product * (1 # 10))%Q in
          let (order, db2) :=
            create_order now buyer_id (GroupBuy.id group_buy) 1
                         (Product.price product) deposit_amount db1 in
          inr (mkJoinGroup (GroupBuy.id group_buy) (Order.id order),
               send_message buyer_id
                 (MsgDeposit deposit_amount (GroupBuy.current_count group_buy + 1)
                             (GroupBuy.target_count group_buy)) db2)
      end
  end.

(** ** Order Lifecycle Manager ([group_manager.process_new_order]) *)

Inductive OrderReply : Set :=
| OrderNotFound
| GroupBuyCompleted (group_buy_id : Z) (discount_percentage : Q)
| AddedToGroupBuy (group_buy_id current_count target_count : Z).

Definition reply_status (r : OrderReply) : string :=
  match r with
  | OrderNotFound => "error"
  | _ => "success"
  end.

Definition reply_message (r : OrderReply) : string :=
  match r with
  | OrderNotFound => "Order not found"
  | GroupBuyCompleted _ _ => "Group buy completed"
  | AddedToGroupBuy _ _ _ => "Added to group buy"
  end.

(** [unit_price * (1 - (discount_percentage / 100))] *)
Definition discounted (unit_price discount_percentage : Q) : Q :=
  (unit_price * (1 - discount_percentage / 100))%Q.

(** Body of [for order in orders] of a completing group. *)
Definition confirm_order (total_buyers : Z) (discount_percentage : Q)
    (db : DB) (order : Order.t) : DB :=
  let p := discounted (Order.unit_price order) discount_percentage in
  send_message (Order.buyer_id order)
    (MsgGroupComplete total_buyers discount_percentage p)
    (update_order (Order.id order)
       (fun o => Order.set_status CONFIRMED (Order.set_discount_price p o)) db).

Definition process_new_order (now : Z) (db : DB) (order_id : Z)
    : Exn + (OrderReply * DB) :=
  match get_order db order_id with
  | None => inr (OrderNotFound, db)
  | Some order =>
      match get_group_buy db (Order.group_buy_id order) with
      | None => inl AttributeError          (* group_buy.product on None *)
      | Some group_buy =>
          let current_count := GroupBuy.current_count group_buy + 1 in
          let target_count := GroupBuy.target_count group_buy in
          let db1 := update_group_buy (GroupBuy.id group_buy)
                       (GroupBuy.set_current_count now current_count) db in
          match get_product db (GroupBuy.product_id group_buy) with
          | None => inl AttributeError      (* product.discount_tiers / product.name *)
          | Some product =>
              if target_count <=? current_count then
                let db2 := update_group_buy (GroupBuy.id group_buy)
                             (GroupBuy.set_is_active now false) db1 in
                let discount_percentage :=
                  get_discount_percentage product current_count in
                let orders := get_orders_by_group db2 (GroupBuy.id group_buy) in
                inr (GroupBuyCompleted (GroupBuy.id group_buy) discount_percentage,
                     fold_left (confirm_order current_count discount_percentage)
                               orders db2)
              else
                inr (AddedToGroupBuy (GroupBuy.id group_buy) current_count target_count,
                     send_message (Order.buyer_id order)
                       (MsgJoined current_count target_count) db1)
          end
      end
  end.

(** ** Rearrangement Engine ([group_manager.rearrange_incomplete_groups]) *)

Inductive Rearrangement : Set :=
| NewCompleteGroup (product_id new_group_id order_count : Z) (discount_percentage : Q)
| NewActiveGroup (product_id new_active_group_id current_count target_count : Z).

Inductive RearrangeReply : Set :=
| NoIncompleteGroups
| Rearrangements (results : list Rearrangement).

(** [product_groups[group.product_id].append(group)], the dictionary kept in
    insertion order of its keys. *)
Fixpoint add_to_product_groups (group : GroupBuy.t)
    (product_groups : list (Z * list GroupBuy.t)) : list (Z * list GroupBuy.t) :=
  match product_groups with
  | [] => [(GroupBuy.product_id group, [group])]
  | (k, groups) :: rest =>
      if k =? GroupBuy.product_id group
      then (k, groups ++ [group]) :: rest
      else (k, groups) :: add_to_product_groups group rest
  end.

Definition group_by_product (incomplete_groups : list GroupBuy.t)
    : list (Z * list GroupBuy.t) :=
  fold_left (fun product_groups group => add_to_product_groups group product_groups)
            incomplete_groups [].

Definition created_before (y x : Order.t) : bool :=
  Order.created_at y <? Order.created_at x.

(** [range(n)] *)
Definition range (n : Z) : list Z := map Z.of_nat (seq 0 (Z.to_nat n)).

(** Body of [for order in group_orders] of a new complete group. *)
Definition finalize_order (new_group_id : Z) (discount_percentage : Q)
    (db : DB) (order : Order.t) : DB :=
  let p := discounted (Order.unit_price order) discount_percentage in
  send_message (Order.buyer_id order)
    (MsgRearrangedComplete discount_percentage p)
    (update_order (Order.id order)
       (fun o => Order.set_discount_price p
                   (Order.set_status CONFIRMED
                      (Order.set_group_buy_id new_group_id o))) db).

(** Body of [for i in range(complete_groups_possible)]. *)
Definition form_complete_group (now product_id : Z) (product : Product.t)
    (all_orders : list Order.t) (st : DB * list Rearrangement) (i : Z)
    : DB * list Rearrangement :=
  let (db, results) := st in
  let n := Product.min_group_size product in
  let (new_group, db1) := create_group_buy now product_id n n false db in
  let start_idx := i * n in
  let group_orders := slice start_idx (start_idx + n) all_orders in
  let discount_percentage := get_discount_percentage product n in
  (fold_left (finalize_order (GroupBuy.id new_group) discount_percentage)
             group_orders db1,
   results ++ [NewCompleteGroup product_id (GroupBuy.id new_group)
                 (Z.of_nat (length group_orders)) discount_percentage]).

(** Body of [for order in remaining_orders]. *)
Definition move_order (new_group_id remaining_count min_group_size : Z)
    (db : DB) (order : Order.t) : DB :=
  send_message (Order.buyer_id order)
    (MsgRearrangedActive remaining_count min_group_size)
    (update_order (Order.id order) (Order.set_group_buy_id new_group_id) db).

Definition close_group (now : Z) (db : DB) (group : GroupBuy.t) : DB :=
  update_group_buy (GroupBuy.id group) (GroupBuy.set_is_active now false) db.

(** Body of [for product_id, groups in product_groups.items()]. *)
Definition rearrange_product (now : Z) (st : DB * list Rearrangement)
    (entry : Z * list GroupBuy.t) : Exn + (DB * list Rearrangement) :=
  let (db, results) := st in
  let (product_id, groups) := entry in
  match get_product db product_id with
  | None => inl AttributeError              (* product.min_group_size on None *)
  | Some product =>
      let all_orders :=
        sort_by created_before
          (flat_map (fun group => get_orders_by_group db (GroupBuy.id group)) groups) in
      let total_buyers := Z.of_nat (length all_orders) in
      let n := Product.min_group_size product in
      if n =? 0 then inl ZeroDivisionError else
      let complete_groups_possible := total_buyers / n in
      if 0 <? complete_groups_possible then
        let (db1, results1) :=
          fold_left (form_complete_group now product_id product all_orders)
                    (range complete_groups_possible) (db, results) in
        let remaining_count := total_buyers mod n in
        let (db2, results2) :=
          if 0 <? remaining_count then
            let (new_active_group, db') :=
              create_group_buy now product_id n remaining_count true db1 in
            let remaining_orders :=
              skipn (Z.to_nat (complete_groups_possible * n)) all_orders in
            (fold_left (move_order (GroupBuy.id new_active_group) remaining_count n)
                       remaining_orders db',
             results1 ++ [NewActiveGroup product_id (GroupBuy.id new_active_group)
                            remaining_count n])
          else (db1, results1) in
        inr (fold_left (close_group now) groups db2, results2)
      else inr (db, results)
  end.

Fixpoint rearrange_products (now : Z) (product_groups : list (Z * list GroupBuy.t))
    (st : DB * list Rearrangement) : Exn + (DB * list Rearrangement) :=
  match product_groups with
  | [] => inr st
  | entry :: rest =>
      match rearrange_product now st entry with
      | inl e => inl e
      | inr st' => rearrange_products now rest st'
      end
  end.

Definition rearrange_incomplete_groups (now : Z) (db : DB)
    : Exn + (RearrangeReply * DB) :=
  match get_incomplete_groups db with
  | [] => inr (NoIncompleteGroups, db)
  | _ :: _ =>
      match rearrange_products now (group_by_product (get_incomplete_groups db))
                               (db, []) with
      | inl e => inl e
      | inr (db', results) => inr (Rearrangements results, db')
      end
  end.

(** ** Expiration Sweeper ([group_manager.check_expired_groups]) *)

Inductive SweepReply : Set :=
| NoExpiredGroups
| ExpiredGroups (expired_groups_count : Z) (rearrangement_result : RearrangeReply).

(** [timedelta(days=d)] in microseconds. *)
Definition timedelta_days (d : Z) : Z := d * 86400 * 1000000.

(** Body of [for order in orders] of an expired group. *)
Definition cancel_order (db : DB) (order : Order.t) : DB :=
  update_order (Order.id order) (Order.set_status CANCELLED)
    (send_message (Order.buyer_id order) MsgExpired db).

(** Body of [for group in expired_groups]; [group.product.name] is read once
    per order. *)
Definition expire_group (now : Z) (db : DB) (group : GroupBuy.t) : Exn + DB :=
  let orders := get_orders_by_group db (GroupBuy.id group) in
  match orders, get_product db (GroupBuy.product_id group) with
  | _ :: _, None => inl AttributeError
  | _, _ =>
      inr (update_group_buy (GroupBuy.id group) (GroupBuy.set_is_active now false)
             (fold_left cancel_order orders db))
  end.

Fixpoint expire_groups (now : Z) (expired_groups : list GroupBuy.t) (db : DB)
    : Exn + DB :=
  match expired_groups with
  | [] => inr db
  | group :: rest =>
      match expire_group now db group with
      | inl e => inl e
      | inr db' => expire_groups now rest db'
      end
  end.

Definition check_expired_groups (now : Z) (db : DB) : Exn + (SweepReply * DB) :=
  let expiration_threshold := now - timedelta_days 7 in
  let expired_groups := get_expired_groups db expiration_threshold in
  match expired_groups with
  | [] => inr (NoExpiredGroups, db)
  | _ :: _ =>
      match expire_groups now expired_groups db with
      | inl e => inl e
      | inr db1 =>
          match rearrange_incomplete_groups now db1 with
          | inl e => inl e
          | inr (rearrangement_result, db2) =>
              inr (ExpiredGroups (Z.of_nat (length expired_groups))
                                 rearrangement_result, db2)
          end
      end
  end.

(** ** Order status ([crud.update_order_status]) *)

(** Returns the refreshed row, or [None] for an unknown key. *)
Definition update_order_status (db : DB) (order_id : Z) (new_status : OrderStatus)
    : option Order.t * DB :=
  match get_order db order_id with
  | Some db_order =>
      (Some (Order.set_status new_status db_order),
       update_order (Order.id db_order) (Order.set_status new_status) db)
  | None => (None, db)
  end.

(** ** Buttons ([bale.BaleAPI.send_product_info], [bale.process_bale_update])

    A string is a [str] whose characters have code points below 256.  The
    interpreter's limit on the number of digits of a numeral is not part of
    the model. *)

(** [str(n)] of an integer: its decimal numeral, ["-"] first when negative. *)
Definition py_str (n : Z) : string :=
  DecimalString.NilZero.string_of_int (Z.to_int n).

Record InlineButton : Set := mkInlineButton {
  button_text : string;
  callback_data : string
}.

(** The [inline_keyboard] of [send_product_info] for [product_data['id']]. *)
Definition inline_keyboard (product_id : Z) : list (list InlineButton) :=
  [[mkInlineButton "Join Group Buy" ("join_group:" ++ py_str product_id);
    mkInlineButton "View Details" ("view_product:" ++ py_str product_id)]].

(** [s.split(sep)] for a separator of one character. *)
Fixpoint split (sep : ascii) (s : string) : list string :=
  match s with
  | EmptyString => [EmptyString]
  | String c s' =>
      if Ascii.eqb c sep then EmptyString :: split sep s'
      else match split sep s' with
           | piece :: pieces => String c piece :: pieces
           | [] => [String c EmptyString]
           end
  end.

(** The white space [int] skips: tab, line feed, vertical tab, form feed,
    carriage return, space, next line, no-break space. *)
Definition is_space (c : ascii) : bool :=
  match c with
  | "009" | "010" | "011" | "012" | "013" | " " | "133" | "160" => true
  | _ => false
  end%char.

(** The value of a decimal digit, by its code point. *)
Definition digit_value (c : ascii) : option Z :=
  let code := Z.of_N (N_of_ascii c) in
  if (48 <=? code) && (code <=? 57) then Some (code - 48) else None.

Fixpoint skip_spaces (s : string) : string :=
  match s with
  | String c s' => if is_space c then skip_spaces s' else s
  | EmptyString => s
  end.

(** The digits after a digit, [acc] being the value read so far: an
    underscore is accepted between two digits only.  Returns the value and
    what follows the numeral. *)
Fixpoint scan_digits (acc : Z) (s : string) : option (Z * string) :=
  match s with
  | String c s' =>
      match digit_value c with
      | Some d => scan_digits (10 * acc + d) s'
      | None =>
          if Ascii.eqb c "_" then
            match s' with
            | String c' s'' =>
                match digit_value c' with
                | Some d => scan_digits (10 * acc + d) s''
                | None => None
                end
            | EmptyString => None
            end
          else Some (acc, s)
      end
  | EmptyString => Some (acc, s)
  end.

Inductive CallbackError : Set := IndexError | ValueError.

(** [int(s)] in base 10: white space, an optional sign, digits, white space. *)
Definition py_int (s : string) : CallbackError + Z :=
  let s1 := skip_spaces s in
  let (negative, s2) :=
    match s1 with
    | String "+" rest => (false, rest)
    | String "-" rest => (true, rest)
    | _ => (false, s1)
    end in
  match s2 with
  | String c rest =>
      match digit_value c with
      | Some d =>
          match scan_digits d rest with
          | Some (value, after) =>
              match skip_spaces after with
              | EmptyString => inr (if negative then - value else value)
              | String _ _ => inl ValueError
              end
          | None => inl ValueError
          end
      | None => inl ValueError
      end
  | EmptyString => inl ValueError
  end.

(** [int(callback_data.split(":")[1])] *)
Definition callback_product_id (callback_data : string) : CallbackError + Z :=
  match nth_error (split ":" callback_data) 1 with
  | Some piece => py_int piece
  | None => inl IndexError
  end.

Inductive CallbackAction : Set :=
| JoinGroupAction (product_id : Z)
| ViewProductAction (product_id : Z)
| UnhandledUpdate.

(** The branch [process_bale_update] takes for the data of a callback query,
    with the product it reads from it. *)
Definition callback_action (callback_data : string) : CallbackError + CallbackAction :=
  if prefix "join_group:" callback_data then
    match callback_product_id callback_data with
    | inl e => inl e
    | inr product_id => inr (JoinGroupAction product_id)
    end
  else if prefix "view_product:" callback_data then
    match callback_product_id callback_data with
    | inl e => inl e
    | inr product_id => inr (ViewProductAction product_id)
    end
  else inr UnhandledUpdate.

(** * Vocabulary of the properties

    Closed forms of the loops, invariants of the store, sequences of
    operations and the concrete stores the properties are stated with. *)

(** ** Discount tiers *)

Definition qualifies (group_size : Z) (tier : DiscountTier.t) : Prop :=
  DiscountTier.group_size tier <= group_size.

(** ** Order loops as rewritings of rows *)

Definition rewrite_row (F : Order.t -> Order.t -> Order.t) (o r : Order.t) : Order.t :=
  if Order.id r =? Order.id o then F o r else r.

Definition apply_updates (F : Order.t -> Order.t -> Order.t) (l : list Order.t)
    (r : Order.t) : Order.t :=
  fold_left (fun r o => rewrite_row F o r) l r.

(** [step] touches the orders table only (and the outbox), by [F]. *)
Definition order_step (F : Order.t -> Order.t -> Order.t) (step : DB -> Order.t -> DB)
    : Prop :=
  forall db o,
    orders (step db o) = map (rewrite_row F o) (orders db)
    /\ group_buys (step db o) = group_buys db
    /\ products (step db o) = products db
    /\ group_buy_seq (step db o) = group_buy_seq db
    /\ order_seq (step db o) = order_seq db.

Definition confirmed (discount_percentage : Q) (o r : Order.t) : Order.t :=
  Order.set_status CONFIRMED
    (Order.set_discount_price (discounted (Order.unit_price o) discount_percentage) r).

Definition finalized (new_group_id : Z) (discount_percentage : Q) (o r : Order.t)
    : Order.t :=
  Order.set_discount_price (discounted (Order.unit_price o) discount_percentage)
    (Order.set_status CONFIRMED (Order.set_group_buy_id new_group_id r)).

Definition moved (new_group_id : Z) (o r : Order.t) : Order.t :=
  Order.set_group_buy_id new_group_id r.

Definition cancelled (o r : Order.t) : Order.t := Order.set_status CANCELLED r.

(** ** Joins and concrete stores *)

Definition store_7 : DB :=
  mkDB [Product.mk 7 50 4 10 []]
       [GroupBuy.mk 1 7 1 4 true 0]
       [Order.mk 1 101 1 1 50 None 5 PENDING 0] 2 2 [].

(** A join as the workflow runs it: the webhook creates the order in the
    product's active group, then [process_new_order] counts it in. *)
Definition join (now : Z) (db : DB) (product_id buyer_id : Z)
    : Exn + ((JoinGroup * OrderReply) * DB) :=
  match process_bale_update_join_group now db product_id buyer_id with
  | inl e => inl e
  | inr (joined, db1) =>
      match process_new_order now db1 (join_order_id joined) with
      | inl e => inl e
      | inr (reply, db2) => inr ((joined, reply), db2)
      end
  end.

Definition store_two_of_two : DB :=
  mkDB [Product.mk 7 50 2 10 []]
       [GroupBuy.mk 1 7 1 2 true 0]
       [Order.mk 1 101 1 1 50 None 5 PENDING 0;
        Order.mk 2 102 1 1 50 None 5 PENDING 1] 2 3 [].

(** ** The loops of the sweep *)

Definition id_in (ids : list Z) (i : Z) : bool := existsb (Z.eqb i) ids.

(** The rows after the loop over the expired groups. *)
Definition cancel_in (group_ids : list Z) (o : Order.t) : Order.t :=
  if id_in group_ids (Order.group_buy_id o) then Order.set_status CANCELLED o else o.

Definition close_in (now : Z) (group_ids : list Z) (g : GroupBuy.t) : GroupBuy.t :=
  if id_in group_ids (GroupBuy.id g) then GroupBuy.set_is_active now false g else g.

Definition store_stale : DB :=
  mkDB [Product.mk 7 50 3 10 []]
       [GroupBuy.mk 1 7 1 3 true 0]
       [Order.mk 1 101 1 1 50 None 5 PENDING 0] 2 2 [].

Definition product_tiered : Product.t :=
  Product.mk 1 100 2 0 [DiscountTier.mk 2 10; DiscountTier.mk 3 20].

(** The state after: buyer 11 joins and is counted in; buyers 12 and 13 join
    (their orders land in the same group, still active at 1 of 2) and are not
    counted in yet. *)
Definition store_two_pending : DB :=
  mkDB [product_tiered]
       [GroupBuy.mk 1 1 1 2 true 1]
       [Order.mk 1 11 1 1 100 None (100 * (1 # 10)) PENDING 1;
        Order.mk 2 12 1 1 100 None (100 * (1 # 10)) PENDING 2;
        Order.mk 3 13 1 1 100 None (100 * (1 # 10)) PENDING 3]
       2 4
       [(11, MsgDeposit (100 * (1 # 10)) 1 2); (11, MsgJoined 1 2);
        (12, MsgDeposit (100 * (1 # 10)) 2 2); (13, MsgDeposit (100 * (1 # 10)) 2 2)].

(** ** The order loops of one product as a list of jobs

    A job is an order of the sorted list with the rewriting its loop applies
    to the row of its primary key. *)

Definition Job : Type := Order.t * (Order.t -> Order.t -> Order.t).

Definition apply_jobs (jobs : list Job) (r : Order.t) : Order.t :=
  fold_left (fun r (j : Job) => rewrite_row (snd j) (fst j) r) jobs r.

Definition job_id (j : Job) : Z := Order.id (fst j).

(** Every rewriting of the workflow keeps the primary key. *)
Definition keeps_id (j : Job) : Prop :=
  forall o r, Order.id (snd j o r) = Order.id r.

(** The rows of the groups the loop has created after [m] rounds, and the
    jobs it has run. *)
Definition complete_groups (now product_id n seq0 : Z) (m : nat) : list GroupBuy.t :=
  map (fun i => GroupBuy.mk (seq0 + i) product_id n n false now) (range (Z.of_nat m)).

Definition complete_jobs (seq0 n : Z) (d : Q) (all_orders : list Order.t) (m : nat)
    : list Job :=
  flat_map (fun i => map (fun o => (o, finalized (seq0 + i) d))
                         (slice (i * n) (i * n + n) all_orders))
           (range (Z.of_nat m)).

Definition complete_results (product_id seq0 n : Z) (d : Q)
    (all_orders : list Order.t) (m : nat) : list Rearrangement :=
  map (fun i => NewCompleteGroup product_id (seq0 + i)
                  (Z.of_nat (length (slice (i * n) (i * n + n) all_orders))) d)
      (range (Z.of_nat m)).

Definition sorted_orders (db : DB) (groups : list GroupBuy.t) : list Order.t :=
  sort_by created_before
    (flat_map (fun group => get_orders_by_group db (GroupBuy.id group)) groups).

Definition remainder_groups (now product_id n seq0 full rem : Z) : list GroupBuy.t :=
  if 0 <? rem then [GroupBuy.mk (seq0 + full) product_id rem n true now] else [].

Definition remainder_jobs (seq0 n full rem : Z) (all_orders : list Order.t) : list Job :=
  if 0 <? rem
  then map (fun o => (o, moved (seq0 + full)))
           (skipn (Z.to_nat (full * n)) all_orders)
  else [].

Definition remainder_results (product_id n seq0 full rem : Z) : list Rearrangement :=
  if 0 <? rem then [NewActiveGroup product_id (seq0 + full) rem n] else [].

Definition new_groups (now product_id n seq0 full rem : Z) : list GroupBuy.t :=
  complete_groups now product_id n seq0 (Z.to_nat full)
  ++ remainder_groups now product_id n seq0 full rem.

Definition all_jobs (seq0 n : Z) (d : Q) (all_orders : list Order.t) (full rem : Z)
    : list Job :=
  complete_jobs seq0 n d all_orders (Z.to_nat full)
  ++ remainder_jobs seq0 n full rem all_orders.

(** ** Grouping by product *)

Definition of_product (product_id : Z) (g : GroupBuy.t) : bool :=
  GroupBuy.product_id g =? product_id.

(** [product_groups] is the dictionary built from the groups [seen]: one key
    per product of [seen], each with the groups of that product in the order
    seen. *)
Definition grouped (seen : list GroupBuy.t) (product_groups : list (Z * list GroupBuy.t))
    : Prop :=
  NoDup (map fst product_groups)
  /\ (forall k groups, In (k, groups) product_groups ->
        groups = filter (of_product k) seen /\ groups <> [])
  /\ (forall g, In g seen -> In (GroupBuy.product_id g) (map fst product_groups))
  /\ Permutation (concat (map snd product_groups)) seen.

(** ** Invariants of the store and sequences of operations *)

Definition active_of (product_id : Z) (g : GroupBuy.t) : bool :=
  of_product product_id g && GroupBuy.is_active g.

Definition at_most_one_active (db : DB) : Prop :=
  forall product_id,
    (length (filter (active_of product_id) (group_buys db)) <= 1)%nat.

(** A rewriting of the groups table that keeps [product_id] and activates
    nothing. *)
Definition deactivating (h : GroupBuy.t -> GroupBuy.t) : Prop :=
  forall g, GroupBuy.product_id (h g) = GroupBuy.product_id g
            /\ (GroupBuy.is_active (h g) = true -> GroupBuy.is_active g = true).

(** The entry points of the workflow, run one after another; each reads the
    clock when it starts. *)
Inductive Operation : Set :=
| GetOrCreateActiveGroupBuy (product_id : Z)
| JoinGroupCallback (product_id buyer_id : Z)
| ProcessNewOrder (order_id : Z)
| RearrangeIncompleteGroups
| CheckExpiredGroups.

Definition state_after {A} (r : Exn + (A * DB)) : Exn + DB :=
  match r with
  | inl e => inl e
  | inr (_, db) => inr db
  end.

Definition run_operation (now : Z) (op : Operation) (db : DB) : Exn + DB :=
  match op with
  | GetOrCreateActiveGroupBuy product_id =>
      state_after (get_or_create_active_group_buy now db product_id)
  | JoinGroupCallback product_id buyer_id =>
      state_after (process_bale_update_join_group now db product_id buyer_id)
  | ProcessNewOrder order_id => state_after (process_new_order now db order_id)
  | RearrangeIncompleteGroups => state_after (rearrange_incomplete_groups now db)
  | CheckExpiredGroups => state_after (check_expired_groups now db)
  end.

Fixpoint run_operations (ops : list (Z * Operation)) (db : DB) : Exn + DB :=
  match ops with
  | [] => inr db
  | (now, op) :: rest =>
      match run_operation now op db with
      | inl e => inl e
      | inr db' => run_operations rest db'
      end
  end.

(** What the schema guarantees: primary keys are unique and below their
    sequence, and an order refers to a group key that was handed out (as its
    foreign key to an existing group implies). *)
Record well_formed (db : DB) : Prop := {
  wf_group_ids : NoDup (map GroupBuy.id (group_buys db));
  wf_group_seq : forall g, In g (group_buys db) -> GroupBuy.id g < group_buy_seq db;
  wf_order_ids : NoDup (map Order.id (orders db));
  wf_order_seq : forall o, In o (orders db) -> Order.id o < order_seq db;
  wf_order_group : forall o, In o (orders db) -> Order.group_buy_id o < group_buy_seq db
}.

Definition products_of_incomplete_groups_exist (db : DB) : Prop :=
  forall g, In g (get_incomplete_groups db) ->
    exists product, get_product db (GroupBuy.product_id g) = Some product
                    /\ Product.min_group_size product <> 0.

Definition not_after (a b : Order.t) : Prop := Order.created_at a <= Order.created_at b.

(** Ten pending orders of a product of [min_group_size = 4], spread over four
    stale groups. *)
Definition pending_order (id group_buy_id created_at : Z) : Order.t :=
  Order.mk id (100 + id) group_buy_id 1 50 None 5 PENDING created_at.

Definition store_ten_pending : DB :=
  mkDB [Product.mk 7 50 4 10 []]
       [GroupBuy.mk 1 7 3 4 true 0; GroupBuy.mk 2 7 3 4 true 0;
        GroupBuy.mk 3 7 3 4 true 0; GroupBuy.mk 4 7 1 4 true 0]
       [pending_order 1 1 10; pending_order 2 1 9; pending_order 3 1 8;
        pending_order 4 2 7; pending_order 5 2 6; pending_order 6 2 5;
        pending_order 7 3 4; pending_order 8 3 3; pending_order 9 3 2;
        pending_order 10 4 1]
       5 11 [].

Definition not_cancelled (o : Order.t) : bool :=
  negb (OrderStatus_eqb (Order.status o) CANCELLED).

(** Every active group counts the orders linked to it, none of which is
    cancelled. *)
Definition counted (db : DB) : Prop :=
  forall g, In g (group_buys db) -> GroupBuy.is_active g = true ->
    GroupBuy.current_count g
    = Z.of_nat (length (get_orders_by_group db (GroupBuy.id g)))
    /\ forall o, In o (get_orders_by_group db (GroupBuy.id g)) ->
                 not_cancelled o = true.

(** A group the rearrangement reads is alive when the store holds an active
    row of its key. *)
Definition alive (db : DB) (g : GroupBuy.t) : Prop :=
  exists row, In row (group_buys db)
              /\ GroupBuy.id row = GroupBuy.id g
              /\ GroupBuy.is_active row = true.

Inductive Step : Set :=
| Join (product_id buyer_id : Z)
| Rearrange
| Sweep.

Definition run_step (now : Z) (step : Step) (db : DB) : Exn + DB :=
  match step with
  | Join product_id buyer_id => state_after (join now db product_id buyer_id)
  | Rearrange => state_after (rearrange_incomplete_groups now db)
  | Sweep => state_after (check_expired_groups now db)
  end.

Fixpoint run_steps (steps : list (Z * Step)) (db : DB) : Exn + DB :=
  match steps with
  | [] => inr db
  | (now, step) :: rest =>
      match run_step now step db with
      | inl e => inl e
      | inr db' => run_steps rest db'
      end
  end.

(** The order and group rows a state shows for the count of a group. *)
Definition non_cancelled_orders (db : DB) (group_id : Z) : list Order.t :=
  filter not_cancelled (get_orders_by_group db group_id).

(** An order with a [discount_price] belongs to no active group. *)
Definition settled (db : DB) : Prop :=
  forall o g, In o (orders db) -> In g (group_buys db) ->
    GroupBuy.id g = Order.group_buy_id o -> GroupBuy.is_active g = true ->
    Order.discount_price o = None.

(** Every [discount_price] of [db] is the [discount_price] of the same order
    in [db']. *)
Definition prices_kept (db db' : DB) : Prop :=
  forall o p, In o (orders db) -> Order.discount_price o = Some p ->
    exists o', In o' (orders db')
               /\ Order.id o' = Order.id o
               /\ Order.discount_price o' = Some p.

(** ** What no operation does

    The columns of a row that no operation of the workflow assigns, and the
    relation between a state and a later one: the products are the same, and
    the groups, the orders and the messages sent are the earlier ones, with
    those columns as they were, followed by new ones. *)

Definition order_columns (o : Order.t) : Z * Z * Z * Q * Q * Z :=
  (Order.id o, Order.buyer_id o, Order.quantity o, Order.unit_price o,
   Order.deposit_amount o, Order.created_at o).

Definition group_columns (g : GroupBuy.t) : Z * Z * Z :=
  (GroupBuy.id g, GroupBuy.product_id g, GroupBuy.target_count g).

Definition grows (db db' : DB) : Prop :=
  products db' = products db
  /\ (exists added,
        map group_columns (group_buys db')
        = map group_columns (group_buys db) ++ added)
  /\ (exists added,
        map order_columns (orders db') = map order_columns (orders db) ++ added)
  /\ (exists sent, outbox db' = outbox db ++ sent).

(** What a relation between a state and a later one has to admit for every
    entry point to respect it: each assignment the workflow makes. *)
Record evolution (R : DB -> DB -> Prop) : Prop := {
  ev_refl : forall db, R db db;
  ev_trans : forall db1 db2 db3, R db1 db2 -> R db2 db3 -> R db1 db3;
  ev_send_message : forall chat m db, R db (send_message chat m db);
  ev_set_current_count :
    forall gid now c db,
      R db (update_group_buy gid (GroupBuy.set_current_count now c) db);
  ev_set_is_active :
    forall gid now b db,
      R db (update_group_buy gid (GroupBuy.set_is_active now b) db);
  ev_create_group_buy :
    forall now product_id target_count current_count is_active db,
      R db (snd (create_group_buy now product_id target_count current_count
                                  is_active db));
  ev_create_order :
    forall now buyer_id group_buy_id quantity unit_price deposit_amount db,
      R db (snd (create_order now buyer_id group_buy_id quantity unit_price
                              deposit_amount db));
  ev_confirm :
    forall oid p db,
      R db (update_order oid
              (fun o => Order.set_status CONFIRMED (Order.set_discount_price p o)) db);
  ev_finalize :
    forall oid gid p db,
      R db (update_order oid
              (fun o => Order.set_discount_price p
                          (Order.set_status CONFIRMED
                             (Order.set_group_buy_id gid o))) db);
  ev_move :
    forall oid gid db, R db (update_order oid (Order.set_group_buy_id gid) db);
  ev_cancel :
    forall oid db, R db (update_order oid (Order.set_status CANCELLED) db)
}.

(** ** Messages

    The completion message of an order and the expiry message of an order. *)

Definition completion_message (total_buyers : Z) (discount_percentage : Q)
    (o : Order.t) : Z * Message :=
  (Order.buyer_id o,
   MsgGroupComplete total_buyers discount_percentage
     (discounted (Order.unit_price o) discount_percentage)).

Definition expiry_message (o : Order.t) : Z * Message := (Order.buyer_id o, MsgExpired).

(** A product whose discounts are percentages. *)
Definition percentages (product : Product.t) : Prop :=
  (0 <= Product.discount_percentage product <= 100)%Q
  /\ forall tier, In tier (Product.discount_tiers product) ->
       (0 <= DiscountTier.discount_percentage tier <= 100)%Q.

(** ** References that resolve

    Every order refers to a group that exists, every group to a product that
    exists, and no product has a [min_group_size] of 0. *)

Definition intact (db : DB) : Prop :=
  (forall o, In o (orders db) ->
     exists g, In g (group_buys db) /\ GroupBuy.id g = Order.group_buy_id o)
  /\ (forall g, In g (group_buys db) ->
        get_product db (GroupBuy.product_id g) <> None)
  /\ (forall p, In p (products db) -> Product.min_group_size p <> 0).

(** The product an entry point is called with, if any. *)
Definition product_named (op : Operation) : option Z :=
  match op with
  | GetOrCreateActiveGroupBuy product_id => Some product_id
  | JoinGroupCallback product_id _ => Some product_id
  | _ => None
  end.

(** ** A product the rearrangement leaves alone

    The orders of the product's incomplete groups do not fill one group. *)

Definition quiet (db : DB) (k : Z) : Prop :=
  forall product, get_product db k = Some product ->
    Z.of_nat (length (sorted_orders db
                        (filter (of_product k) (get_incomplete_groups db))))
    / Product.min_group_size product <= 0.

(** ** Status and price

    An order is PENDING without a [discount_price] and CONFIRMED with one. *)

Definition priced_as_status (o : Order.t) : Prop :=
  match Order.status o with
  | PENDING => Order.discount_price o = None
  | CONFIRMED => Order.discount_price o <> None
  | _ => True
  end.

Definition keeps_priced_as_status (db db' : DB) : Prop :=
  (forall o, In o (orders db) -> priced_as_status o) ->
  forall o, In o (orders db') -> priced_as_status o.

(** The messages of a round of the rearrangement. *)
Definition regrouped_message (discount_percentage : Q) (o : Order.t) : Z * Message :=
  (Order.buyer_id o,
   MsgRearrangedComplete discount_percentage
     (discounted (Order.unit_price o) discount_percentage)).

Definition moved_message (remaining_count min_group_size : Z) (o : Order.t)
    : Z * Message :=
  (Order.buyer_id o, MsgRearrangedActive remaining_count min_group_size).

(** * Properties *)

(** ** Sorting *)

Section Sorting.
Context {A : Type} (before : A -> A -> bool).

Lemma insert_by_perm (x : A) (l : list A) :
  Permutation (insert_by before x l) (x :: l).
Proof.
  induction l as [|y l IH]; simpl; [reflexivity|].
  destruct (before y x); [|reflexivity].
  rewrite IH. apply perm_swap.
Qed.

Lemma sort_by_perm (l : list A) : Permutation (sort_by before l) l.
Proof.
  induction l as [|x l IH]; simpl; [constructor|].
  rewrite insert_by_perm. now constructor.
Qed.

Lemma sort_by_length (l : list A) : length (sort_by before l) = length l.
Proof. apply Permutation_length, sort_by_perm. Qed.

Lemma sort_by_In (l : list A) (x : A) : In x (sort_by before l) <-> In x l.
Proof.
  split; apply Permutation_in; [|symmetry]; apply sort_by_perm.
Qed.

(** The head of an insertion is [x] or the old head, whichever does not
    have the other strictly before it. *)
Lemma insert_by_head (x : A) (l : list A) :
  exists t, insert_by before x l = match l with
                                   | [] => x
                                   | y :: _ => if before y x then y else x
                                   end :: t.
Proof.
  destruct l as [|y l]; simpl; [now exists []|].
  destruct (before y x); eauto.
Qed.
End Sorting.

(** ** Discount Resolver *)

Lemma higher_discount_false (y x : DiscountTier.t) :
  higher_discount y x = false ->
  (DiscountTier.discount_percentage y <= DiscountTier.discount_percentage x)%Q.
Proof.
  unfold higher_discount. intros H. apply negb_false_iff in H.
  now apply Qle_bool_iff.
Qed.

Lemma higher_discount_true (y x : DiscountTier.t) :
  higher_discount y x = true ->
  (DiscountTier.discount_percentage x <= DiscountTier.discount_percentage y)%Q.
Proof.
  unfold higher_discount. intros H. apply negb_true_iff in H.
  destruct (Qlt_le_dec (DiscountTier.discount_percentage x)
                       (DiscountTier.discount_percentage y)) as [Hlt|Hle].
  - now apply Qlt_le_weak.
  - apply Qle_bool_iff in Hle. congruence.
Qed.

(** The first row of the tiers sorted by percentage, highest first, is a
    tier of the list that no tier of the list exceeds. *)
Lemma sort_by_higher_discount_head (l : list DiscountTier.t) :
  match sort_by higher_discount l with
  | [] => l = []
  | best :: _ =>
      In best l /\
      forall tier, In tier l ->
        (DiscountTier.discount_percentage tier <= DiscountTier.discount_percentage best)%Q
  end.
Proof.
  induction l as [|x l IH]; simpl; [reflexivity|].
  destruct (insert_by_head higher_discount x (sort_by higher_discount l)) as [t Ht].
  rewrite Ht. clear Ht.
  destruct (sort_by higher_discount l) as [|h s].
  - subst l. split; [now left|].
    intros tier [<-|[]]. apply Qle_refl.
  - destruct IH as [Hin Hmax].
    destruct (higher_discount h x) eqn:Hhx.
    + split; [now right|].
      intros tier [<-|Ht]; [now apply higher_discount_true|now apply Hmax].
    + split; [now left|].
      intros tier [<-|Ht]; [apply Qle_refl|].
      eapply Qle_trans; [now apply Hmax|now apply higher_discount_false].
Qed.

(** C1.  The Discount Resolver is a total pure function ([get_discount_percentage]
    is a Rocq function into [Q]).  When some tier has its threshold at or
    below [group_size], the result is the percentage of such a tier and no
    such tier has a higher percentage; when none has, the result is the
    product's default percentage if [group_size >= min_group_size] and 0
    otherwise.  For the tiers (2,5), (5,15), (10,10) and a group of 10 the
    result is 15. *)
Theorem get_discount_percentage_spec (product : Product.t) (group_size : Z) :
  let tiers := Product.discount_tiers product in
  let result := get_discount_percentage product group_size in
  ((exists tier, In tier tiers /\ qualifies group_size tier) ->
     (exists best, In best tiers /\ qualifies group_size best /\
                   result = DiscountTier.discount_percentage best) /\
     (forall tier, In tier tiers -> qualifies group_size tier ->
                   (DiscountTier.discount_percentage tier <= result)%Q))
  /\ (~ (exists tier, In tier tiers /\ qualifies group_size tier) ->
      Product.min_group_size product <= group_size ->
      result = Product.discount_percentage product)
  /\ (~ (exists tier, In tier tiers /\ qualifies group_size tier) ->
      group_size < Product.min_group_size product ->
      result = 0%Q)
  /\ (forall id price min_group_size discount_percentage,
        get_discount_percentage
          (Product.mk id price min_group_size discount_percentage
             [DiscountTier.mk 2 5; DiscountTier.mk 5 15; DiscountTier.mk 10 10])
          10 = 15%Q).
Proof.
  intros tiers result.
  assert (Hfilter : forall tier,
             In tier (filter (fun tier => DiscountTier.group_size tier <=? group_size) tiers)
             <-> In tier tiers /\ qualifies group_size tier).
  { intros tier. rewrite filter_In. unfold qualifies. now rewrite Z.leb_le. }
  assert (Hdefault : ~ (exists tier, In tier tiers /\ qualifies group_size tier) ->
                     result = default_discount product group_size).
  { intros Hnone. subst result. unfold get_discount_percentage. fold tiers.
    destruct tiers as [|t0 ts] eqn:Htiers; [reflexivity|]. rewrite <- Htiers in *.
    pose proof (sort_by_higher_discount_head
                  (filter (fun tier => DiscountTier.group_size tier <=? group_size) tiers)) as Hs.
    destruct (sort_by higher_discount _) as [|best s]; [reflexivity|].
    destruct Hs as [Hin _]. apply Hfilter in Hin. exfalso. apply Hnone. eauto. }
  repeat split.
  - destruct H as [tier [Hin Hq]].
    subst result. unfold get_discount_percentage. fold tiers.
    destruct tiers as [|t0 ts] eqn:Htiers; [destruct Hin|]. rewrite <- Htiers in *.
    pose proof (sort_by_higher_discount_head
                  (filter (fun tier => DiscountTier.group_size tier <=? group_size) tiers)) as Hs.
    destruct (sort_by higher_discount _) as [|best s].
    + assert (Hx : In tier []) by (rewrite <- Hs; apply Hfilter; auto). destruct Hx.
    + destruct Hs as [Hbest _]. apply Hfilter in Hbest. exists best. tauto.
  - intros tier' Hin' Hq'. destruct H as [tier [Hin Hq]].
    subst result. unfold get_discount_percentage. fold tiers.
    destruct tiers as [|t0 ts] eqn:Htiers; [destruct Hin|]. rewrite <- Htiers in *.
    pose proof (sort_by_higher_discount_head
                  (filter (fun tier => DiscountTier.group_size tier <=? group_size) tiers)) as Hs.
    destruct (sort_by higher_discount _) as [|best s].
    + assert (Hx : In tier []) by (rewrite <- Hs; apply Hfilter; auto). destruct Hx.
    + destruct Hs as [_ Hmax]. apply Hmax, Hfilter. auto.
  - intros Hnone Hge. rewrite (Hdefault Hnone). unfold default_discount.
    apply Z.leb_le in Hge. now rewrite Hge.
  - intros Hnone Hlt. rewrite (Hdefault Hnone). unfold default_discount.
    apply Z.leb_gt in Hlt. now rewrite Hlt.
Qed.

(** ** Loops over orders

    Every loop over orders of the workflow rewrites, for each order of the
    list, the row of that order's primary key, and sends a message. *)

Lemma order_step_fold F step (Hstep : order_step F step) (l : list Order.t) (db : DB) :
  orders (fold_left step l db) = map (apply_updates F l) (orders db)
  /\ group_buys (fold_left step l db) = group_buys db
  /\ products (fold_left step l db) = products db
  /\ group_buy_seq (fold_left step l db) = group_buy_seq db
  /\ order_seq (fold_left step l db) = order_seq db.
Proof.
  revert db. induction l as [|o l IH]; intros db; simpl.
  - repeat split. symmetry. apply map_id.
  - destruct (IH (step db o)) as (Ho & Hg & Hp & Hgs & Hos).
    destruct (Hstep db o) as (Ho' & Hg' & Hp' & Hgs' & Hos').
    repeat split; try congruence.
    rewrite Ho, Ho', map_map. reflexivity.
Qed.

Lemma apply_updates_miss F (l : list Order.t) (r : Order.t) :
  (forall o, In o l -> Order.id o <> Order.id r) -> apply_updates F l r = r.
Proof.
  unfold apply_updates. induction l as [|o l IH]; intros H; simpl; [reflexivity|].
  unfold rewrite_row at 2.
  destruct (Z.eqb_spec (Order.id r) (Order.id o)) as [E|_].
  - exfalso. apply (H o); [now left|auto].
  - apply IH. intros o' Ho'. apply H. now right.
Qed.

Lemma apply_updates_hit F (l : list Order.t) (o r : Order.t) :
  (forall o r, Order.id (F o r) = Order.id r) ->
  NoDup (map Order.id l) -> In o l -> Order.id r = Order.id o ->
  apply_updates F l r = F o r.
Proof.
  intros Hid. unfold apply_updates. revert r.
  induction l as [|o' l IH]; intros r Hnd Hin Hr; [destruct Hin|].
  simpl in *. inversion Hnd as [|? ? Hnotin Hnd']; subst.
  unfold rewrite_row at 2.
  destruct Hin as [->|Hin].
  - rewrite Hr, Z.eqb_refl.
    apply (apply_updates_miss F). intros o' Ho'. rewrite Hid, Hr.
    intros E. apply Hnotin. rewrite <- E. now apply in_map.
  - destruct (Z.eqb_spec (Order.id r) (Order.id o')) as [E|_].
    + exfalso. apply Hnotin. rewrite <- E, Hr. now apply in_map.
    + now apply IH.
Qed.

(** Primary keys stay unique in the result of a query, and a key names one
    row. *)
Lemma unique_keys_filter {Row Key} (key : Row -> Key) (keep : Row -> bool)
    (rows : list Row) :
  NoDup (map key rows) -> NoDup (map key (filter keep rows)).
Proof.
  induction rows as [|row rows IH]; simpl; intros Hrows; [constructor|].
  inversion Hrows as [|? ? Hnew Hrest]; subst.
  destruct (keep row); simpl; [constructor|]; auto.
  intros Hin. apply Hnew. apply in_map_iff in Hin as (row' & <- & Hin).
  apply filter_In in Hin as [Hin _]. now apply in_map.
Qed.

Lemma unique_keys_same_row {Row Key} (key : Row -> Key) (rows : list Row)
    (r1 r2 : Row) :
  NoDup (map key rows) -> In r1 rows -> In r2 rows -> key r1 = key r2 -> r1 = r2.
Proof.
  induction rows as [|row rows IH]; simpl; intros Hrows H1 H2 E; [destruct H1|].
  inversion Hrows as [|? ? Hnew Hrest]; subst.
  destruct H1 as [->|H1], H2 as [->|H2]; auto.
  - exfalso. apply Hnew. rewrite E. now apply in_map.
  - exfalso. apply Hnew. rewrite <- E. now apply in_map.
Qed.

(** Rewriting the rows of the orders [filter p table] by a function of the
    row itself, one primary key at a time, rewrites exactly the rows of the
    table that satisfy [p]. *)
Lemma apply_updates_filter (F : Order.t -> Order.t -> Order.t) (p : Order.t -> bool)
    (table : list Order.t) :
  (forall o r, Order.id (F o r) = Order.id r) ->
  NoDup (map Order.id table) ->
  map (apply_updates F (filter p table)) table
  = map (fun r => if p r then F r r else r) table.
Proof.
  intros Hid Hnd. apply map_ext_in. intros r Hr.
  destruct (p r) eqn:Hp.
  - apply apply_updates_hit; auto.
    + now apply unique_keys_filter.
    + apply filter_In. auto.
  - apply apply_updates_miss. intros o Ho E.
    apply filter_In in Ho as [Ho Hpo].
    assert (o = r) by (eapply unique_keys_same_row; eauto). congruence.
Qed.

Lemma confirm_order_step total d : order_step (confirmed d) (confirm_order total d).
Proof. intros db o. repeat split. Qed.

Lemma finalize_order_step gid d : order_step (finalized gid d) (finalize_order gid d).
Proof. intros db o. repeat split. Qed.

Lemma move_order_step gid rem n : order_step (moved gid) (move_order gid rem n).
Proof. intros db o. repeat split. Qed.

Lemma cancel_order_step : order_step cancelled cancel_order.
Proof. intros db o. repeat split. Qed.

(** ** Order Lifecycle Manager *)

(** A query whose filter no row passes has no first row. *)
Lemma first_of_none {T} (test : T -> bool) (rows : list T) :
  (forall row, In row rows -> test row = false) -> find test rows = None.
Proof.
  induction rows as [|row rows IH]; intros Hall; simpl; [reflexivity|].
  rewrite (Hall row (or_introl eq_refl)).
  apply IH. intros row' Hin. apply Hall. now right.
Qed.

(** C10.  For an [order_id] that is the primary key of no order,
    [process_new_order] raises nothing: it returns the reply of status
    "error" and message "Order not found", and the whole state (groups,
    orders, products, sequences and the outbox of notifications) is the one
    it was given. *)
Theorem process_new_order_unknown_order (now : Z) (db : DB) (order_id : Z) :
  (forall o, In o (orders db) -> Order.id o <> order_id) ->
  exists reply,
    process_new_order now db order_id = inr (reply, db)
    /\ reply_status reply = "error"%string
    /\ reply_message reply = "Order not found"%string.
Proof.
  intros Hnone. exists OrderNotFound. repeat split.
  unfold process_new_order, get_order.
  replace (find _ (orders db)) with (@None Order.t); [reflexivity|].
  symmetry. apply first_of_none. intros o Ho. apply Z.eqb_neq. auto.
Qed.

Lemma process_new_order_unknown_order_witness :
  exists reply,
    process_new_order 10 store_7 5 = inr (reply, store_7)
    /\ reply_status reply = "error"%string
    /\ reply_message reply = "Order not found"%string.
Proof.
  apply (process_new_order_unknown_order 10 store_7 5).
  simpl. intros o [<-|[]]. simpl. lia.
Defined.

(** The state a completing [process_new_order] leaves, in closed form. *)
Lemma process_new_order_completes_eq (now : Z) (db : DB) (order_id : Z)
    (order : Order.t) (group_buy : GroupBuy.t) (product : Product.t) :
  NoDup (map Order.id (orders db)) ->
  get_order db order_id = Some order ->
  get_group_buy db (Order.group_buy_id order) = Some group_buy ->
  get_product db (GroupBuy.product_id group_buy) = Some product ->
  GroupBuy.target_count group_buy <= GroupBuy.current_count group_buy + 1 ->
  let final_count := GroupBuy.current_count group_buy + 1 in
  let discount := get_discount_percentage product final_count in
  exists db',
    process_new_order now db order_id
    = inr (GroupBuyCompleted (GroupBuy.id group_buy) discount, db')
    /\ group_buys db'
       = map (fun g => if GroupBuy.id g =? GroupBuy.id group_buy
                       then GroupBuy.set_is_active now false
                              (GroupBuy.set_current_count now final_count g)
                       else g) (group_buys db)
    /\ orders db'
       = map (fun o => if Order.group_buy_id o =? GroupBuy.id group_buy
                       then confirmed discount o o else o) (orders db)
    /\ products db' = products db
    /\ group_buy_seq db' = group_buy_seq db
    /\ order_seq db' = order_seq db.
Proof.
  intros Hnd Horder Hgroup Hproduct Hfull final_count discount.
  apply Z.leb_le in Hfull.
  unfold process_new_order. rewrite Horder, Hgroup, Hproduct. cbv zeta.
  rewrite Hfull. fold final_count. fold discount.
  eexists. split; [reflexivity|].
  destruct (order_step_fold _ _ (confirm_order_step final_count discount)
              (get_orders_by_group
                 (update_group_buy (GroupBuy.id group_buy)
                    (GroupBuy.set_is_active now false)
                    (update_group_buy (GroupBuy.id group_buy)
                       (GroupBuy.set_current_count now final_count) db))
                 (GroupBuy.id group_buy))
              (update_group_buy (GroupBuy.id group_buy)
                 (GroupBuy.set_is_active now false)
                 (update_group_buy (GroupBuy.id group_buy)
                    (GroupBuy.set_current_count now final_count) db)))
    as (Ho & Hg & Hp & Hgs & Hos).
  rewrite Ho, Hg, Hp, Hgs, Hos. simpl. repeat split.
  - rewrite map_map. apply map_ext. intros g.
    destruct (Z.eqb_spec (GroupBuy.id g) (GroupBuy.id group_buy)) as [E|E]; simpl.
    + now rewrite E, Z.eqb_refl.
    + now apply Z.eqb_neq in E as ->.
  - unfold get_orders_by_group. simpl.
    now apply (apply_updates_filter (confirmed discount)
                 (fun o => Order.group_buy_id o =? GroupBuy.id group_buy)).
Qed.

Ltac run_store :=
  repeat (progress (simpl; rewrite ?Z.eqb_refl)).

(** C3.  When the incremented [current_count] reaches [target_count],
    [process_new_order] returns "Group buy completed" with the discount
    resolved at the final count, every row of the group is inactive with that
    count, and every order linked to the group is CONFIRMED with
    [discount_price = unit_price * (1 - discount / 100)], its other columns
    as they were.  In a fresh store holding a product of
    [min_group_size = 2], the first join is answered "Added to group buy" and
    the second "Group buy completed" with the discount resolved for a group
    of 2; both orders are then CONFIRMED with
    [discount_price = price * (1 - discount / 100)] and the group is
    inactive. *)
Theorem process_new_order_completes :
  (forall (now : Z) (db : DB) (order_id : Z) (order : Order.t)
          (group_buy : GroupBuy.t) (product : Product.t),
     NoDup (map Order.id (orders db)) ->
     get_order db order_id = Some order ->
     get_group_buy db (Order.group_buy_id order) = Some group_buy ->
     get_product db (GroupBuy.product_id group_buy) = Some product ->
     GroupBuy.target_count group_buy <= GroupBuy.current_count group_buy + 1 ->
     let group_id := GroupBuy.id group_buy in
     let final_count := GroupBuy.current_count group_buy + 1 in
     let discount := get_discount_percentage product final_count in
     exists db',
       process_new_order now db order_id
       = inr (GroupBuyCompleted group_id discount, db')
       /\ reply_status (GroupBuyCompleted group_id discount) = "success"%string
       /\ reply_message (GroupBuyCompleted group_id discount)
          = "Group buy completed"%string
       /\ (exists g, In g (group_buys db') /\ GroupBuy.id g = group_id)
       /\ (forall g, In g (group_buys db') -> GroupBuy.id g = group_id ->
             GroupBuy.is_active g = false /\ GroupBuy.current_count g = final_count)
       /\ (forall o, In o (orders db) -> Order.group_buy_id o = group_id ->
             In (Order.mk (Order.id o) (Order.buyer_id o) (Order.group_buy_id o)
                          (Order.quantity o) (Order.unit_price o)
                          (Some (Order.unit_price o * (1 - discount / 100))%Q)
                          (Order.deposit_amount o) CONFIRMED (Order.created_at o))
                (orders db'))
       /\ (forall o', In o' (orders db') -> Order.group_buy_id o' = group_id ->
             Order.status o' = CONFIRMED
             /\ Order.discount_price o'
                = Some (Order.unit_price o' * (1 - discount / 100))%Q))
  /\ (forall (product : Product.t) (buyer1 buyer2 t1 t2 : Z),
        Product.min_group_size product = 2 ->
        let discount := get_discount_percentage product 2 in
        exists joined1 db1 joined2 db2 o1 o2 group,
          join t1 (mkDB [product] [] [] 1 1 []) (Product.id product) buyer1
          = inr ((joined1, AddedToGroupBuy 1 1 2), db1)
          /\ join t2 db1 (Product.id product) buyer2
             = inr ((joined2, GroupBuyCompleted 1 discount), db2)
          /\ get_order db2 (join_order_id joined1) = Some o1
          /\ get_order db2 (join_order_id joined2) = Some o2
          /\ Order.buyer_id o1 = buyer1 /\ Order.buyer_id o2 = buyer2
          /\ Order.status o1 = CONFIRMED /\ Order.status o2 = CONFIRMED
          /\ Order.discount_price o1
             = Some (Product.price product * (1 - discount / 100))%Q
          /\ Order.discount_price o2 = Order.discount_price o1
          /\ get_group_buy db2 1 = Some group
          /\ GroupBuy.is_active group = false).
Proof.
  split.
  - intros now db order_id order group_buy product Hnd Horder Hgroup Hproduct Hfull
           group_id final_count discount.
    destruct (process_new_order_completes_eq now db order_id order group_buy product
                Hnd Horder Hgroup Hproduct Hfull) as (db' & Hrun & Hg & Ho & _).
    exists db'. split; [exact Hrun|]. do 2 (split; [reflexivity|]).
    rewrite Hg, Ho. fold group_id final_count discount. repeat split.
    + apply find_some in Hgroup as [Hin _].
      exists (GroupBuy.set_is_active now false
                (GroupBuy.set_current_count now final_count group_buy)).
      split; [|reflexivity].
      apply in_map_iff. exists group_buy. fold group_id.
      now rewrite Z.eqb_refl.
    + apply in_map_iff in H as (g0 & <- & _).
      destruct (Z.eqb_spec (GroupBuy.id g0) group_id); [reflexivity|].
      contradiction.
    + apply in_map_iff in H as (g0 & <- & _).
      destruct (Z.eqb_spec (GroupBuy.id g0) group_id); [reflexivity|].
      contradiction.
    + intros o Hin Hlinked. apply in_map_iff. exists o.
      split; [|exact Hin].
      destruct (Z.eqb_spec (Order.group_buy_id o) group_id); [reflexivity|].
      contradiction.
    + apply in_map_iff in H as (o & <- & _).
      destruct (Z.eqb_spec (Order.group_buy_id o) group_id); [reflexivity|].
      contradiction.
    + apply in_map_iff in H as (o & <- & _).
      destruct (Z.eqb_spec (Order.group_buy_id o) group_id); [reflexivity|].
      contradiction.
  - intros [pid price n dp tiers] b1 b2 t1 t2 Hn discount. simpl in Hn. subst n.
    unfold join, process_bale_update_join_group, get_or_create_active_group_buy,
      get_active_group_buy, get_product, process_new_order, get_order,
      get_group_buy, get_product.
    run_store.
    do 7 eexists. split; [reflexivity|].
    unfold join, process_bale_update_join_group, get_or_create_active_group_buy,
      get_active_group_buy, get_product, process_new_order, get_order,
      get_group_buy, get_product.
    run_store.
    split; [reflexivity|]. run_store. repeat split.
Qed.

Lemma process_new_order_completes_witness :
  exists db',
    process_new_order 5 store_two_of_two 2 = inr (GroupBuyCompleted 1 10, db')
    /\ (forall o', In o' (orders db') -> Order.group_buy_id o' = 1 ->
          Order.status o' = CONFIRMED
          /\ Order.discount_price o'
             = Some (Order.unit_price o' * (1 - 10 / 100))%Q)
    /\ map (fun o => (Order.id o, Order.unit_price o, Order.status o,
                      option_map Qred (Order.discount_price o))) (orders db')
       = [(1, 50%Q, CONFIRMED, Some 45%Q); (2, 50%Q, CONFIRMED, Some 45%Q)].
Proof.
  destruct (proj1 process_new_order_completes 5 store_two_of_two 2
              (Order.mk 2 102 1 1 50 None 5 PENDING 1)
              (GroupBuy.mk 1 7 1 2 true 0)
              (Product.mk 7 50 2 10 []))
    as (db' & Hrun & _ & _ & _ & _ & _ & Hconfirmed).
  - simpl. repeat constructor; simpl; intuition lia.
  - reflexivity.
  - reflexivity.
  - reflexivity.
  - simpl. lia.
  - exists db'. split; [exact Hrun|]. split; [exact Hconfirmed|].
    vm_compute in Hrun. inversion Hrun. reflexivity.
Defined.

(** ** Expiration Sweeper *)

Lemma map_order_id_map (f : Order.t -> Order.t) (l : list Order.t) :
  (forall o, Order.id (f o) = Order.id o) ->
  map Order.id (map f l) = map Order.id l.
Proof. intros H. rewrite map_map. apply map_ext. exact H. Qed.

Lemma expire_group_eq (now : Z) (db : DB) (group : GroupBuy.t) :
  NoDup (map Order.id (orders db)) ->
  get_product db (GroupBuy.product_id group) <> None ->
  exists db1,
    expire_group now db group = inr db1
    /\ orders db1 = map (cancel_in [GroupBuy.id group]) (orders db)
    /\ group_buys db1 = map (close_in now [GroupBuy.id group]) (group_buys db)
    /\ products db1 = products db.
Proof.
  intros Hnd Hproduct. unfold expire_group.
  set (linked := get_orders_by_group db (GroupBuy.id group)).
  exists (update_group_buy (GroupBuy.id group) (GroupBuy.set_is_active now false)
            (fold_left cancel_order linked db)).
  split.
  { destruct linked; [reflexivity|].
    destruct (get_product db (GroupBuy.product_id group)); [reflexivity|congruence]. }
  destruct (order_step_fold _ _ cancel_order_step linked db) as (Ho & Hg & Hp & _).
  simpl. rewrite Ho, Hg, Hp. repeat split.
  - unfold linked, get_orders_by_group.
    rewrite (apply_updates_filter cancelled
               (fun o => Order.group_buy_id o =? GroupBuy.id group)); auto.
    apply map_ext. intros o. unfold cancel_in, id_in. simpl.
    now rewrite orb_false_r.
  - apply map_ext. intros g. unfold close_in, id_in. simpl.
    now rewrite orb_false_r.
Qed.

Lemma expire_groups_eq (now : Z) (expired_groups : list GroupBuy.t) (db : DB) :
  NoDup (map Order.id (orders db)) ->
  (forall g, In g expired_groups -> get_product db (GroupBuy.product_id g) <> None) ->
  exists db1,
    expire_groups now expired_groups db = inr db1
    /\ orders db1 = map (cancel_in (map GroupBuy.id expired_groups)) (orders db)
    /\ group_buys db1
       = map (close_in now (map GroupBuy.id expired_groups)) (group_buys db)
    /\ products db1 = products db.
Proof.
  revert db. induction expired_groups as [|group rest IH]; intros db Hnd Hproducts.
  - exists db. simpl. repeat split; symmetry.
    + erewrite map_ext; [apply map_id|]. reflexivity.
    + erewrite map_ext; [apply map_id|]. reflexivity.
  - destruct (expire_group_eq now db group Hnd) as (dba & Hrun & Ho & Hg & Hp).
    { apply Hproducts. now left. }
    destruct (IH dba) as (db1 & Hrun1 & Ho1 & Hg1 & Hp1).
    { rewrite Ho, map_order_id_map; auto. intros o. unfold cancel_in.
      now destruct (id_in _ _). }
    { intros g Hin. unfold get_product. rewrite Hp. apply Hproducts. now right. }
    exists db1. simpl. rewrite Hrun. split; [exact Hrun1|].
    rewrite Ho1, Hg1, Hp1, Ho, Hg, Hp, !map_map. repeat split.
    + apply map_ext. intros o. unfold cancel_in, id_in. simpl.
      destruct (Order.group_buy_id o =? GroupBuy.id group); simpl.
      * now destruct (existsb _ _).
      * reflexivity.
    + apply map_ext. intros g. unfold close_in, id_in. simpl.
      destruct (GroupBuy.id g =? GroupBuy.id group); simpl.
      * now destruct (existsb _ _).
      * reflexivity.
Qed.

(** C8, as stated, fails where no group is expired: the sweep returns at once
    and the Rearrangement Engine does not run, although running it would
    regroup orders.  Here the only group is fresh (updated at time 0, swept at
    time 10) and holds two orders for a target of 2. *)
Lemma check_expired_groups_without_expired_counterexample :
  get_expired_groups store_two_of_two (10 - timedelta_days 7) = []
  /\ check_expired_groups 10 store_two_of_two = inr (NoExpiredGroups, store_two_of_two)
  /\ exists result db',
       rearrange_incomplete_groups 10 store_two_of_two = inr (result, db')
       /\ result = Rearrangements [NewCompleteGroup 7 2 2 10]
       /\ db' <> store_two_of_two.
Proof.
  split; [reflexivity|]. split; [reflexivity|].
  eexists. eexists. split; [vm_compute; reflexivity|].
  split; [reflexivity|]. intros H. discriminate H.
Qed.

(** C8, amended.  The sweep selects exactly the groups that are active, were
    last updated before [now - 7 days] and have [current_count < target_count].
    When it selects none, it returns "No expired groups" and leaves the state
    as it is, without running the Rearrangement Engine.  When it selects some
    (order keys being unique and each selected group's product existing), it
    sets the status of every order linked to a selected group to CANCELLED,
    marks every selected group inactive, touches no other order or group, and
    then runs the Rearrangement Engine once, on that state, returning its
    result with the number of expired groups. *)
Theorem check_expired_groups_spec (now : Z) (db : DB) :
  let expired_groups := get_expired_groups db (now - timedelta_days 7) in
  (forall g, In g expired_groups <->
     In g (group_buys db)
     /\ GroupBuy.is_active g = true
     /\ GroupBuy.updated_at g < now - timedelta_days 7
     /\ GroupBuy.current_count g < GroupBuy.target_count g)
  /\ (expired_groups = [] ->
      check_expired_groups now db = inr (NoExpiredGroups, db))
  /\ (expired_groups <> [] ->
      NoDup (map Order.id (orders db)) ->
      (forall g, In g expired_groups ->
                 get_product db (GroupBuy.product_id g) <> None) ->
      exists db1,
        expire_groups now expired_groups db = inr db1
        /\ orders db1
           = map (fun o => if id_in (map GroupBuy.id expired_groups)
                                    (Order.group_buy_id o)
                           then Order.set_status CANCELLED o else o) (orders db)
        /\ group_buys db1
           = map (fun g => if id_in (map GroupBuy.id expired_groups) (GroupBuy.id g)
                           then GroupBuy.set_is_active now false g else g)
                 (group_buys db)
        /\ products db1 = products db
        /\ check_expired_groups now db
           = match rearrange_incomplete_groups now db1 with
             | inl e => inl e
             | inr (rearrangement_result, db2) =>
                 inr (ExpiredGroups (Z.of_nat (length expired_groups))
                                    rearrangement_result, db2)
             end).
Proof.
  intros expired_groups. repeat split.
  - apply filter_In in H. tauto.
  - apply filter_In in H as [_ H]. unfold expired in H.
    now apply andb_prop in H as [H _]; apply andb_prop in H as [H _].
  - apply filter_In in H as [_ H]. unfold expired in H.
    apply andb_prop in H as [H _]; apply andb_prop in H as [_ H]. lia.
  - apply filter_In in H as [_ H]. unfold expired in H.
    apply andb_prop in H as [_ H]. lia.
  - intros (Hin & Hactive & Hstale & Hcount). apply filter_In. split; [exact Hin|].
    unfold expired. rewrite Hactive.
    apply Z.ltb_lt in Hstale, Hcount. now rewrite Hstale, Hcount.
  - intros Hnone. unfold check_expired_groups. fold expired_groups.
    now rewrite Hnone.
  - intros Hsome Hnd Hproducts.
    destruct (expire_groups_eq now expired_groups db Hnd Hproducts)
      as (db1 & Hrun & Ho & Hg & Hp).
    exists db1. repeat split; auto.
    unfold check_expired_groups. fold expired_groups.
    destruct expired_groups; [congruence|]. now rewrite Hrun.
Qed.

Lemma check_expired_groups_spec_witness :
  exists db1,
    expire_groups (timedelta_days 8) [GroupBuy.mk 1 7 1 3 true 0] store_stale = inr db1
    /\ orders db1 = [Order.mk 1 101 1 1 50 None 5 CANCELLED 0]
    /\ group_buys db1 = [GroupBuy.mk 1 7 1 3 false (timedelta_days 8)]
    /\ check_expired_groups (timedelta_days 8) store_stale
       = inr (ExpiredGroups 1 NoIncompleteGroups, db1).
Proof.
  destruct (proj2 (proj2 (check_expired_groups_spec (timedelta_days 8) store_stale)))
    as (db1 & Hrun & Ho & Hg & Hp & Hsweep).
  - discriminate.
  - simpl. repeat constructor. intros [].
  - simpl. intros g [<-|[]]. discriminate.
  - exists db1. split; [exact Hrun|]. split; [exact Ho|]. split; [exact Hg|].
    rewrite Hsweep. unfold rearrange_incomplete_groups, get_incomplete_groups.
    rewrite Hg. reflexivity.
Defined.

(** ** Joining a product that does not exist *)

(** C9.  A join whose [product_id] names no product fails, but not with a
    not-found result: whether or not an active group carries that
    [product_id], the webhook branch reads an attribute of [None] and the
    join ends in [AttributeError]. *)
Theorem join_unknown_product_raises_attribute_error
    (now : Z) (db : DB) (product_id buyer_id : Z) :
  get_product db product_id = None ->
  process_bale_update_join_group now db product_id buyer_id = inl AttributeError
  /\ join now db product_id buyer_id = inl AttributeError.
Proof.
  intros Hnone.
  assert (H : process_bale_update_join_group now db product_id buyer_id
              = inl AttributeError).
  { unfold process_bale_update_join_group, get_or_create_active_group_buy.
    destruct (get_active_group_buy db product_id); now rewrite Hnone. }
  split; [exact H|]. unfold join. now rewrite H.
Qed.

Lemma join_unknown_product_raises_attribute_error_witness :
  process_bale_update_join_group 10 store_7 99 101 = inl AttributeError
  /\ join 10 store_7 99 101 = inl AttributeError.
Proof.
  apply (join_unknown_product_raises_attribute_error 10 store_7 99 101).
  reflexivity.
Defined.

(** ** Finalizing twice *)

(** C7, as stated, fails.  [process_new_order] does not look at [is_active]
    or at [discount_price]: when three orders are created in group 1 before
    the second is counted in, counting order 2 in completes group 1 and prices
    all three orders at 10% off; counting order 3 in completes the same group
    again and reprices all three at 20% off. *)
Lemma discount_price_overwritten_on_second_completion :
  (exists db1 db2,
     join 1 (mkDB [product_tiered] [] [] 1 1 []) 1 11
     = inr ((mkJoinGroup 1 1, AddedToGroupBuy 1 1 2), db1)
     /\ process_bale_update_join_group 2 db1 1 12 = inr (mkJoinGroup 1 2, db2)
     /\ process_bale_update_join_group 3 db2 1 13
        = inr (mkJoinGroup 1 3, store_two_pending))
  /\ exists db3 db4 first second,
       process_new_order 4 store_two_pending 2 = inr (GroupBuyCompleted 1 10, db3)
       /\ process_new_order 5 db3 3 = inr (GroupBuyCompleted 1 20, db4)
       /\ get_order db3 1 = Some first
       /\ get_order db4 1 = Some second
       /\ Order.discount_price first = Some (discounted 100 10)
       /\ Order.discount_price second = Some (discounted 100 20)
       /\ ~ (discounted 100 10 == discounted 100 20)%Q.
Proof.
  split.
  - do 2 eexists. split; [reflexivity|]. split; reflexivity.
  - do 4 eexists. split; [reflexivity|]. split; [reflexivity|].
    split; [reflexivity|]. split; [reflexivity|].
    split; [reflexivity|]. split; [reflexivity|].
    intros H. vm_compute in H. discriminate H.
Qed.

(** ** Rearrangement Engine *)

(** C5, as stated, fails: with one order for a [min_group_size] of 4 nothing
    is rearranged.  No group is created and the original incomplete group is
    still the active, incomplete group of the product. *)
Lemma rearrange_below_min_group_size_counterexample :
  get_incomplete_groups store_7 = [GroupBuy.mk 1 7 1 4 true 0]
  /\ get_orders_by_group store_7 1 = [Order.mk 1 101 1 1 50 None 5 PENDING 0]
  /\ rearrange_incomplete_groups 10 store_7 = inr (Rearrangements [], store_7).
Proof. repeat split. Qed.

(** *** The order loops of one product, job by job *)

Lemma apply_updates_jobs F (l : list Order.t) (r : Order.t) :
  apply_updates F l r = apply_jobs (map (fun o => (o, F)) l) r.
Proof.
  unfold apply_updates, apply_jobs. revert r.
  induction l as [|o l IH]; intros r; simpl; [reflexivity|]. apply IH.
Qed.

Lemma apply_jobs_app (jobs1 jobs2 : list Job) (r : Order.t) :
  apply_jobs (jobs1 ++ jobs2) r = apply_jobs jobs2 (apply_jobs jobs1 r).
Proof. unfold apply_jobs. apply fold_left_app. Qed.

Lemma apply_jobs_miss (jobs : list Job) (r : Order.t) :
  ~ In (Order.id r) (map job_id jobs) -> apply_jobs jobs r = r.
Proof.
  unfold apply_jobs. induction jobs as [|j jobs IH]; intros H; simpl; [reflexivity|].
  unfold rewrite_row at 2.
  destruct (Z.eqb_spec (Order.id r) (Order.id (fst j))) as [E|_].
  - exfalso. apply H. left. unfold job_id. congruence.
  - apply IH. intros Hin. apply H. now right.
Qed.

Lemma apply_jobs_hit (jobs : list Job) (o r : Order.t) F :
  Forall keeps_id jobs -> NoDup (map job_id jobs) ->
  In (o, F) jobs -> Order.id r = Order.id o ->
  apply_jobs jobs r = F o r.
Proof.
  unfold apply_jobs. revert r.
  induction jobs as [|j jobs IH]; intros r Hkeep Hnd Hin Hr; [destruct Hin|].
  simpl in *. inversion Hnd as [|? ? Hnew Hnd']; subst.
  inversion Hkeep as [|? ? Hj Hkeep']; subst.
  unfold rewrite_row at 2.
  destruct Hin as [->|Hin]; simpl.
  - rewrite Hr, Z.eqb_refl.
    apply apply_jobs_miss. specialize (Hj o r). simpl in Hj.
    rewrite Hj, Hr. exact Hnew.
  - destruct (Z.eqb_spec (Order.id r) (Order.id (fst j))) as [E|_].
    + exfalso. apply Hnew. unfold job_id at 1. rewrite <- E, Hr.
      apply in_map_iff. now exists (o, F).
    + now apply IH.
Qed.

Lemma apply_jobs_id (jobs : list Job) (r : Order.t) :
  Forall keeps_id jobs -> Order.id (apply_jobs jobs r) = Order.id r.
Proof.
  unfold apply_jobs. revert r.
  induction jobs as [|j jobs IH]; intros r Hkeep; simpl; [reflexivity|].
  inversion Hkeep as [|? ? Hj Hkeep']; subst.
  rewrite IH by assumption. unfold rewrite_row.
  destruct (Order.id r =? Order.id (fst j)); [apply Hj|reflexivity].
Qed.

(** *** The loop over the complete groups *)

Lemma range_succ (m : nat) :
  range (Z.of_nat (S m)) = range (Z.of_nat m) ++ [Z.of_nat m].
Proof.
  unfold range. rewrite !Nat2Z.id, seq_S, map_app. reflexivity.
Qed.

Lemma in_range (n i : Z) : In i (range n) <-> 0 <= i < n.
Proof.
  unfold range. rewrite in_map_iff. split.
  - intros (k & <- & Hk). apply in_seq in Hk. lia.
  - intros Hi. exists (Z.to_nat i). split; [lia|]. apply in_seq. lia.
Qed.

Lemma form_complete_groups_eq (now product_id : Z) (product : Product.t)
    (all_orders : list Order.t) (m : nat) (db : DB) (results : list Rearrangement) :
  let n := Product.min_group_size product in
  let d := get_discount_percentage product n in
  let st := fold_left (form_complete_group now product_id product all_orders)
                      (range (Z.of_nat m)) (db, results) in
  orders (fst st)
  = map (apply_jobs (complete_jobs (group_buy_seq db) n d all_orders m)) (orders db)
  /\ group_buys (fst st)
     = group_buys db ++ complete_groups now product_id n (group_buy_seq db) m
  /\ products (fst st) = products db
  /\ group_buy_seq (fst st) = group_buy_seq db + Z.of_nat m
  /\ order_seq (fst st) = order_seq db
  /\ snd st
     = results ++ complete_results product_id (group_buy_seq db) n d all_orders m.
Proof.
  intros n d. induction m as [|m IH].
  - simpl. rewrite app_nil_r, app_nil_r, Z.add_0_r. repeat split.
    symmetry. apply map_id.
  - rewrite range_succ, fold_left_app.
    destruct (fold_left _ (range (Z.of_nat m)) (db, results)) as [dbm resm].
    simpl in IH. destruct IH as (Ho & Hg & Hp & Hgs & Hos & Hres).
    unfold complete_jobs, complete_groups, complete_results.
    rewrite range_succ, flat_map_app, !map_app. simpl fold_left.
    fold n. fold d.
    match goal with
    | |- context [fold_left (finalize_order ?gid d) ?chunk ?db1] =>
        destruct (order_step_fold _ _ (finalize_order_step gid d) chunk db1)
          as (Ho' & Hg' & Hp' & Hgs' & Hos')
    end.
    simpl fst. simpl snd. simpl in Ho', Hg', Hp', Hgs', Hos'.
    rewrite Ho', Hg', Hp', Hgs', Hos', Ho, Hg, Hp, Hgs, Hos, Hres.
    rewrite map_map, <- !app_assoc. simpl. rewrite app_nil_r.
    repeat split; try lia.
    apply map_ext. intros r.
    now rewrite apply_jobs_app, apply_updates_jobs.
Qed.

(** *** One product *)

Lemma close_groups_eq (now : Z) (groups : list GroupBuy.t) (db : DB) :
  group_buys (fold_left (close_group now) groups db)
  = map (close_in now (map GroupBuy.id groups)) (group_buys db)
  /\ orders (fold_left (close_group now) groups db) = orders db
  /\ products (fold_left (close_group now) groups db) = products db
  /\ group_buy_seq (fold_left (close_group now) groups db) = group_buy_seq db
  /\ order_seq (fold_left (close_group now) groups db) = order_seq db.
Proof.
  revert db. induction groups as [|group groups IH]; intros db; simpl.
  - repeat split. symmetry. erewrite map_ext; [apply map_id|]. reflexivity.
  - destruct (IH (close_group now db group)) as (Hg & Ho & Hp & Hgs & Hos).
    rewrite Hg, Ho, Hp, Hgs, Hos. simpl. repeat split.
    rewrite map_map. apply map_ext. intros g. unfold close_in, id_in. simpl.
    destruct (GroupBuy.id g =? GroupBuy.id group); simpl; [|reflexivity].
    now destruct (existsb _ _).
Qed.

(** What one round of the loop over the products does.  When no complete
    group can be formed the round changes nothing. *)
Lemma rearrange_product_eq (now : Z) (db : DB) (results : list Rearrangement)
    (product_id : Z) (groups : list GroupBuy.t) (product : Product.t) :
  get_product db product_id = Some product ->
  Product.min_group_size product <> 0 ->
  let n := Product.min_group_size product in
  let d := get_discount_percentage product n in
  let all_orders := sorted_orders db groups in
  let total := Z.of_nat (length all_orders) in
  let full := total / n in
  let rem := total mod n in
  let seq0 := group_buy_seq db in
  if 0 <? full then
    exists db',
      rearrange_product now (db, results) (product_id, groups)
      = inr (db', results
                  ++ complete_results product_id seq0 n d all_orders (Z.to_nat full)
                  ++ remainder_results product_id n seq0 full rem)
      /\ orders db' = map (apply_jobs (all_jobs seq0 n d all_orders full rem)) (orders db)
      /\ group_buys db'
         = map (close_in now (map GroupBuy.id groups))
               (group_buys db ++ new_groups now product_id n seq0 full rem)
      /\ products db' = products db
      /\ group_buy_seq db' = seq0 + full + (if 0 <? rem then 1 else 0)
      /\ order_seq db' = order_seq db
  else rearrange_product now (db, results) (product_id, groups) = inr (db, results).
Proof.
  intros Hproduct Hn n d all_orders total full rem seq0.
  unfold rearrange_product. rewrite Hproduct.
  fold (sorted_orders db groups). fold all_orders. fold n.
  apply Z.eqb_neq in Hn. fold n in Hn. rewrite Hn.
  fold total. fold full. fold rem. fold d.
  destruct (0 <? full) eqn:Hfull; [|reflexivity].
  apply Z.ltb_lt in Hfull.
  replace (range full) with (range (Z.of_nat (Z.to_nat full)))
    by (now rewrite Z2Nat.id by lia).
  pose proof (form_complete_groups_eq now product_id product all_orders
                (Z.to_nat full) db results) as Hloop.
  fold n d in Hloop. cbv zeta in Hloop.
  destruct (fold_left _ (range (Z.of_nat (Z.to_nat full))) (db, results))
    as [db1 results1].
  simpl in Hloop. destruct Hloop as (Ho & Hg & Hp & Hgs & Hos & Hres).
  rewrite Z2Nat.id in Hgs by lia.
  unfold all_jobs, new_groups, remainder_jobs, remainder_groups, remainder_results.
  destruct (0 <? rem) eqn:Hrem.
  - unfold create_group_buy.
    match goal with
    | |- context [fold_left (move_order ?gid rem n) ?rest ?dbr] =>
        destruct (order_step_fold _ _ (move_order_step gid rem n) rest dbr)
          as (Ho' & Hg' & Hp' & Hgs' & Hos');
        destruct (close_groups_eq now groups (fold_left (move_order gid rem n) rest dbr))
          as (Hg'' & Ho'' & Hp'' & Hgs'' & Hos'')
    end.
    eexists. split.
    { apply f_equal. apply f_equal2; [reflexivity|].
      simpl. rewrite Hres, Hgs, <- app_assoc. reflexivity. }
    rewrite Hg'', Ho'', Hp'', Hgs'', Hos'', Ho', Hg', Hp', Hgs', Hos'. simpl.
    rewrite Ho, Hg, Hp, Hgs, Hos, map_map, <- !app_assoc.
    fold seq0. repeat split; try lia.
    apply map_ext. intros r. now rewrite apply_jobs_app, apply_updates_jobs.
  - destruct (close_groups_eq now groups db1) as (Hg'' & Ho'' & Hp'' & Hgs'' & Hos'').
    eexists. split.
    { apply f_equal. apply f_equal2; [reflexivity|].
      rewrite Hres, app_nil_r. reflexivity. }
    rewrite Hg'', Ho'', Hp'', Hgs'', Hos'', Ho, Hg, Hp, Hgs, Hos, !app_nil_r.
    fold seq0. repeat split; lia.
Qed.

(** *** The dictionary of groups by product *)

Lemma query_of_none {Row} (keep : Row -> bool) (rows : list Row) :
  (forall row, In row rows -> keep row = false) -> filter keep rows = [].
Proof.
  induction rows as [|row rows IH]; intros Hall; simpl; [reflexivity|].
  rewrite (Hall row (or_introl eq_refl)). apply IH.
  intros row' Hin. apply Hall. now right.
Qed.

Lemma add_to_product_groups_keys (group : GroupBuy.t) product_groups :
  forall k, In k (map fst (add_to_product_groups group product_groups)) <->
            k = GroupBuy.product_id group \/ In k (map fst product_groups).
Proof.
  induction product_groups as [|[k' groups] rest IH]; intros k; simpl.
  - intuition.
  - destruct (Z.eqb_spec k' (GroupBuy.product_id group)) as [E|E]; simpl.
    + subst k'. intuition.
    + rewrite IH. intuition.
Qed.

Lemma add_to_product_groups_entries (group : GroupBuy.t) product_groups k groups :
  NoDup (map fst product_groups) ->
  In (k, groups) (add_to_product_groups group product_groups) ->
  (k <> GroupBuy.product_id group /\ In (k, groups) product_groups)
  \/ (k = GroupBuy.product_id group
      /\ ((exists old, In (k, old) product_groups /\ groups = old ++ [group])
          \/ (~ In k (map fst product_groups) /\ groups = [group]))).
Proof.
  induction product_groups as [|[k' groups'] rest IH]; simpl; intros Hnd Hin.
  - destruct Hin as [Hin|[]]. inversion Hin; subst. right. split; auto.
  - inversion Hnd as [|? ? Hnew Hnd']; subst.
    destruct (Z.eqb_spec k' (GroupBuy.product_id group)) as [E|E].
    + subst k'. destruct Hin as [Hin|Hin].
      * inversion Hin; subst. right. split; [reflexivity|]. left. eauto.
      * left. split; [|now right]. intros ->. apply Hnew.
        apply in_map_iff. now exists (GroupBuy.product_id group, groups).
    + destruct Hin as [Hin|Hin].
      * inversion Hin; subst. left. auto.
      * destruct (IH Hnd' Hin) as [[Hk Hold]|[Hk [[old [Hold Hg]]|[Hfresh Hg]]]].
        -- left. auto.
        -- right. split; [exact Hk|]. left. exists old. auto.
        -- right. split; [exact Hk|]. right. split; [|exact Hg].
           intros [Hk'|Hin']; [congruence|auto].
Qed.

Lemma add_to_product_groups_perm (group : GroupBuy.t) product_groups :
  Permutation (concat (map snd (add_to_product_groups group product_groups)))
              (concat (map snd product_groups) ++ [group]).
Proof.
  induction product_groups as [|[k groups] rest IH]; simpl; [reflexivity|].
  destruct (k =? GroupBuy.product_id group); simpl.
  - rewrite <- !app_assoc. apply Permutation_app_head, Permutation_app_comm.
  - rewrite IH, app_assoc. reflexivity.
Qed.

Lemma add_to_product_groups_grouped (seen : list GroupBuy.t) (group : GroupBuy.t)
    product_groups :
  grouped seen product_groups ->
  grouped (seen ++ [group]) (add_to_product_groups group product_groups).
Proof.
  intros (Hnd & Hentries & Hkeys & Hperm). repeat split.
  - clear Hentries Hkeys Hperm.
    induction product_groups as [|[k groups] rest IH]; simpl.
    + repeat constructor. intros [].
    + inversion Hnd as [|? ? Hnew Hnd']; subst.
      destruct (Z.eqb_spec k (GroupBuy.product_id group)) as [E|E]; simpl.
      * now constructor.
      * constructor; [|auto]. rewrite add_to_product_groups_keys.
        intros [Hk|Hin]; [congruence|auto].
  - apply add_to_product_groups_entries in H; [|exact Hnd].
    rewrite filter_app. simpl. unfold of_product at 2.
    destruct H as [[Hk Hold]|[Hk [[old [Hold Hg]]|[Hfresh Hg]]]].
    + apply Z.neq_sym, Z.eqb_neq in Hk. rewrite Hk, app_nil_r.
      now apply Hentries.
    + subst k. rewrite Z.eqb_refl. apply Hentries in Hold as [-> _]. exact Hg.
    + subst k. rewrite Z.eqb_refl. subst groups.
      rewrite query_of_none; [reflexivity|].
      intros g Hg. unfold of_product. apply Z.eqb_neq. intros E.
      apply Hfresh. rewrite <- E. now apply Hkeys.
  - apply add_to_product_groups_entries in H; [|exact Hnd].
    destruct H as [[Hk Hold]|[Hk [[old [Hold Hg]]|[Hfresh Hg]]]].
    + now apply Hentries in Hold.
    + subst groups. now destruct old.
    + now subst groups.
  - intros g Hg. rewrite add_to_product_groups_keys.
    apply in_app_or in Hg as [Hg|[<-|[]]]; auto.
  - rewrite add_to_product_groups_perm. now apply Permutation_app_tail.
Qed.

Lemma group_by_product_grouped (incomplete_groups : list GroupBuy.t) :
  grouped incomplete_groups (group_by_product incomplete_groups).
Proof.
  unfold group_by_product.
  assert (Hgen : forall rest seen product_groups,
             grouped seen product_groups ->
             grouped (seen ++ rest)
                     (fold_left (fun product_groups group =>
                                   add_to_product_groups group product_groups)
                                rest product_groups)).
  { induction rest as [|group rest IH]; intros seen product_groups H; simpl.
    - now rewrite app_nil_r.
    - replace (seen ++ group :: rest) with ((seen ++ [group]) ++ rest)
        by (now rewrite <- app_assoc).
      apply IH. now apply add_to_product_groups_grouped. }
  apply (Hgen incomplete_groups [] []).
  repeat split; simpl; try constructor; intros; contradiction.
Qed.

(** ** At most one active group per product *)

Lemma deactivating_filter h product_id (l : list GroupBuy.t) :
  deactivating h ->
  (length (filter (active_of product_id) (map h l))
   <= length (filter (active_of product_id) l))%nat.
Proof.
  intros Hh. induction l as [|g l IH]; simpl; [lia|].
  destruct (Hh g) as [Hp Ha].
  destruct (active_of product_id (h g)) eqn:E1,
           (active_of product_id g) eqn:E2; simpl; try lia.
  exfalso. unfold active_of, of_product in E1, E2. rewrite Hp in E1.
  apply andb_prop in E1 as [Ek Eh]. rewrite Ek, (Ha Eh) in E2. discriminate.
Qed.

Lemma close_in_deactivating now ids : deactivating (close_in now ids).
Proof.
  intros g. unfold close_in. destruct (id_in ids (GroupBuy.id g)); simpl; auto.
  split; [reflexivity|discriminate].
Qed.

Lemma close_in_active now ids g :
  GroupBuy.is_active (close_in now ids g) = true ->
  close_in now ids g = g /\ id_in ids (GroupBuy.id g) = false.
Proof.
  unfold close_in. destruct (id_in ids (GroupBuy.id g)); simpl; [discriminate|auto].
Qed.

Lemma id_in_iff (ids : list Z) (i : Z) : id_in ids i = true <-> In i ids.
Proof.
  unfold id_in. rewrite existsb_exists. split.
  - intros (x & Hx & E). apply Z.eqb_eq in E. now subst.
  - intros H. exists i. split; [exact H|apply Z.eqb_refl].
Qed.

Lemma new_groups_of_product now product_id n seq0 full rem g :
  In g (new_groups now product_id n seq0 full rem) ->
  GroupBuy.product_id g = product_id.
Proof.
  unfold new_groups, complete_groups, remainder_groups. intros H.
  apply in_app_or in H as [H|H].
  - apply in_map_iff in H as (i & <- & _). reflexivity.
  - destruct (0 <? rem); [|destruct H]. destruct H as [<-|[]]. reflexivity.
Qed.

Lemma new_groups_active now product_id n seq0 full rem k :
  (length (filter (active_of k) (new_groups now product_id n seq0 full rem)) <= 1)%nat.
Proof.
  unfold new_groups. rewrite filter_app, length_app.
  rewrite (query_of_none _ (complete_groups _ _ _ _ _)).
  - unfold remainder_groups. destruct (0 <? rem); simpl; [|lia].
    destruct (active_of k _); simpl; lia.
  - intros g Hg. apply in_map_iff in Hg as (i & <- & _).
    unfold active_of. simpl. apply andb_false_r.
Qed.

(** A round that returns found its product, with a non-zero
    [min_group_size]. *)
Lemma rearrange_product_returns now db results product_id groups st :
  rearrange_product now (db, results) (product_id, groups) = inr st ->
  exists product,
    get_product db product_id = Some product
    /\ Product.min_group_size product <> 0.
Proof.
  unfold rearrange_product.
  destruct (get_product db product_id) as [product|]; [|discriminate].
  destruct (Z.eqb_spec (Product.min_group_size product) 0); [discriminate|].
  eauto.
Qed.

(** The groups table after a round that returns. *)
Lemma rearrange_product_groups now db results product_id groups db1 results1 :
  rearrange_product now (db, results) (product_id, groups) = inr (db1, results1) ->
  db1 = db
  \/ exists n seq0 full rem,
       group_buys db1
       = map (close_in now (map GroupBuy.id groups))
             (group_buys db ++ new_groups now product_id n seq0 full rem).
Proof.
  intros Hrun.
  destruct (rearrange_product_returns _ _ _ _ _ _ Hrun) as (product & Hp & Hn).
  pose proof (rearrange_product_eq now db results product_id groups product Hp Hn)
    as Heq.
  cbv zeta in Heq. destruct (0 <? _).
  - destruct Heq as (db' & Hrun' & _ & Hg & _).
    rewrite Hrun in Hrun'. inversion Hrun'; subst. right. eauto.
  - rewrite Hrun in Heq. inversion Heq. now left.
Qed.

Lemma rearrange_products_at_most_one_active now product_groups :
  forall db results db' results',
    NoDup (map fst product_groups) ->
    at_most_one_active db ->
    (forall k groups g,
        In (k, groups) product_groups -> In g (group_buys db) ->
        active_of k g = true -> In (GroupBuy.id g) (map GroupBuy.id groups)) ->
    rearrange_products now product_groups (db, results) = inr (db', results') ->
    at_most_one_active db'.
Proof.
  induction product_groups as [|[k groups] rest IH];
    intros db results db' results' Hnd Hamo Hcover Hrun;
    cbn [rearrange_products] in Hrun.
  - inversion Hrun; subst. exact Hamo.
  - destruct (rearrange_product now (db, results) (k, groups))
      as [e|[db1 results1]] eqn:Hround; [discriminate|].
    inversion Hnd as [|? ? Hnew Hnd']; subst.
    apply (IH db1 results1 db' results' Hnd'); [| |exact Hrun].
    + destruct (rearrange_product_groups _ _ _ _ _ _ _ Hround)
        as [->|(n & seq0 & full & rem & Hg)]; [exact Hamo|].
      intros q. rewrite Hg, map_app, filter_app, length_app.
      destruct (Z.eqb_spec q k) as [->|Hq].
      * rewrite (query_of_none _ (map _ (group_buys db))).
        -- etransitivity; [apply deactivating_filter, close_in_deactivating|].
           apply new_groups_active.
        -- intros g' Hg'. apply in_map_iff in Hg' as (g & <- & Hin).
           destruct (active_of k (close_in now (map GroupBuy.id groups) g)) eqn:E;
             [|reflexivity].
           exfalso. unfold active_of in E. apply andb_prop in E as [Ek Ea].
           destruct (close_in_active _ _ _ Ea) as [Esame Eout].
           rewrite Esame in Ek, Ea.
           assert (Hin' : In (GroupBuy.id g) (map GroupBuy.id groups)).
           { apply (Hcover k groups g); [now left|exact Hin|].
             unfold active_of. now rewrite Ek, Ea. }
           apply id_in_iff in Hin'. congruence.
      * rewrite (query_of_none _ (map _ (new_groups _ _ _ _ _ _))).
        -- rewrite Nat.add_0_r.
           etransitivity; [apply deactivating_filter, close_in_deactivating|].
           apply Hamo.
        -- intros g' Hg'. apply in_map_iff in Hg' as (g & <- & Hin).
           apply new_groups_of_product in Hin.
           unfold active_of, of_product.
           destruct (close_in_deactivating now (map GroupBuy.id groups) g) as [-> _].
           rewrite Hin. apply Z.neq_sym, Z.eqb_neq in Hq. now rewrite Hq.
    + intros q groups' g' Hentry Hin' Hactive.
      destruct (rearrange_product_groups _ _ _ _ _ _ _ Hround)
        as [->|(n & seq0 & full & rem & Hg)].
      { apply (Hcover q groups' g'); auto. now right. }
      rewrite Hg in Hin'. apply in_map_iff in Hin' as (g & <- & Hin).
      unfold active_of in Hactive. apply andb_prop in Hactive as [Hk Ha].
      destruct (close_in_active _ _ _ Ha) as [Esame Eout].
      rewrite Esame in *.
      apply in_app_or in Hin as [Hin|Hin].
      * apply (Hcover q groups' g); [now right|exact Hin|].
        unfold active_of. now rewrite Hk, Ha.
      * exfalso. apply new_groups_of_product in Hin.
        unfold of_product in Hk. apply Z.eqb_eq in Hk.
        apply Hnew. apply in_map_iff. exists (q, groups'). split; [|exact Hentry].
        simpl. congruence.
Qed.

Lemma at_most_one_active_map h (db db' : DB) :
  deactivating h -> group_buys db' = map h (group_buys db) ->
  at_most_one_active db -> at_most_one_active db'.
Proof.
  intros Hh Hg Hamo k. rewrite Hg.
  etransitivity; [apply deactivating_filter, Hh|apply Hamo].
Qed.

Lemma short_list_same {A} (l : list A) (x y : A) :
  (length l <= 1)%nat -> In x l -> In y l -> x = y.
Proof.
  destruct l as [|a [|b l]]; simpl; intros Hlen Hx Hy; try lia; intuition congruence.
Qed.

Lemma rearrange_incomplete_groups_at_most_one_active now db reply db' :
  at_most_one_active db ->
  rearrange_incomplete_groups now db = inr (reply, db') ->
  at_most_one_active db'.
Proof.
  intros Hamo Hrun. unfold rearrange_incomplete_groups in Hrun.
  destruct (get_incomplete_groups db) as [|g0 rest] eqn:Hinc.
  { inversion Hrun; subst. exact Hamo. }
  rewrite <- Hinc in Hrun.
  destruct (rearrange_products now _ (db, [])) as [e|[db1 results]] eqn:Hloop;
    [discriminate|].
  inversion Hrun; subst. clear Hrun.
  destruct (group_by_product_grouped (get_incomplete_groups db))
    as (Hnd & Hentries & _ & _).
  apply (rearrange_products_at_most_one_active _ _ _ _ _ _ Hnd Hamo) in Hloop;
    [exact Hloop|].
  intros k groups g Hentry Hin Hactive.
  destruct (Hentries k groups Hentry) as [Hgroups Hsome].
  destruct groups as [|g1 groups']; [congruence|].
  assert (Hg1 : In g1 (filter (of_product k) (get_incomplete_groups db)))
    by (rewrite <- Hgroups; now left).
  apply filter_In in Hg1 as [Hg1 Hk1].
  apply filter_In in Hg1 as [Hg1 Hinc1].
  assert (g = g1).
  { apply (short_list_same (filter (active_of k) (group_buys db))).
    - apply Hamo.
    - apply filter_In. auto.
    - apply filter_In. split; [exact Hg1|].
      unfold active_of. rewrite Hk1. unfold incomplete in Hinc1.
      now apply andb_prop in Hinc1 as [-> _]. }
  subst g. now left.
Qed.

(** What an expiry loop that returns did to the groups table. *)
Lemma expire_groups_groups (now : Z) (expired_groups : list GroupBuy.t) :
  forall db db1,
    expire_groups now expired_groups db = inr db1 ->
    group_buys db1
    = map (close_in now (map GroupBuy.id expired_groups)) (group_buys db).
Proof.
  induction expired_groups as [|group rest IH]; intros db db1 Hrun; simpl in Hrun.
  - inversion Hrun; subst. symmetry. erewrite map_ext; [apply map_id|]. reflexivity.
  - destruct (expire_group now db group) as [e|dba] eqn:Hone; [discriminate|].
    rewrite (IH _ _ Hrun).
    assert (Hg : group_buys dba
                 = map (close_in now [GroupBuy.id group]) (group_buys db)).
    { unfold expire_group in Hone.
      destruct (order_step_fold _ _ cancel_order_step
                  (get_orders_by_group db (GroupBuy.id group)) db)
        as (_ & Hg & _).
      assert (dba = update_group_buy (GroupBuy.id group)
                      (GroupBuy.set_is_active now false)
                      (fold_left cancel_order
                         (get_orders_by_group db (GroupBuy.id group)) db)).
      { destruct (get_orders_by_group db (GroupBuy.id group));
          [now inversion Hone|].
        destruct (get_product db (GroupBuy.product_id group));
          [now inversion Hone|discriminate]. }
      subst dba. simpl. rewrite Hg. apply map_ext. intros g.
      unfold close_in, id_in. simpl. now rewrite orb_false_r. }
    rewrite Hg, map_map. apply map_ext. intros g. unfold close_in, id_in. simpl.
    destruct (GroupBuy.id g =? GroupBuy.id group); simpl; [|reflexivity].
    now destruct (existsb _ _).
Qed.

(** What a [process_new_order] that returns did to the groups table. *)
Lemma process_new_order_groups now db order_id reply db' :
  process_new_order now db order_id = inr (reply, db') ->
  exists h, deactivating h /\ group_buys db' = map h (group_buys db).
Proof.
  unfold process_new_order. intros Hrun.
  destruct (get_order db order_id) as [order|].
  2:{ inversion Hrun; subst. exists (fun g => g). split; [now split|].
      symmetry. apply map_id. }
  destruct (get_group_buy db (Order.group_buy_id order)) as [group_buy|];
    [|discriminate].
  destruct (get_product db (GroupBuy.product_id group_buy)) as [product|];
    [|discriminate].
  cbv zeta in Hrun.
  destruct (GroupBuy.target_count group_buy <=? GroupBuy.current_count group_buy + 1).
  - inversion Hrun; subst. clear Hrun.
    match goal with
    | |- context [fold_left (confirm_order ?c ?d) ?l ?db2] =>
        destruct (order_step_fold _ _ (confirm_order_step c d) l db2) as (_ & Hg & _)
    end.
    rewrite Hg. simpl. rewrite map_map. eexists. split; [|reflexivity].
    intros g. simpl.
    destruct (GroupBuy.id g =? GroupBuy.id group_buy) eqn:E; simpl;
      rewrite ?E; simpl; split; try reflexivity; try discriminate; auto.
  - inversion Hrun; subst. simpl. eexists. split; [|reflexivity].
    intros g. simpl. destruct (GroupBuy.id g =? GroupBuy.id group_buy); simpl; auto.
Qed.

Lemma get_or_create_active_group_buy_at_most_one_active now db product_id g db' :
  at_most_one_active db ->
  get_or_create_active_group_buy now db product_id = inr (g, db') ->
  at_most_one_active db'.
Proof.
  intros Hamo. unfold get_or_create_active_group_buy.
  destruct (get_active_group_buy db product_id) as [found|] eqn:Hfind.
  { intros H. inversion H; subst. exact Hamo. }
  destruct (get_product db product_id) as [product|]; [|discriminate].
  intros H. inversion H; subst. clear H. intros k. simpl.
  rewrite filter_app, length_app. simpl.
  destruct (active_of k _) eqn:E; simpl; [|specialize (Hamo k); lia].
  unfold active_of, of_product in E. simpl in E. rewrite andb_true_r in E.
  apply Z.eqb_eq in E. subst k.
  rewrite query_of_none; [simpl; lia|].
  intros row Hrow. unfold get_active_group_buy in Hfind.
  apply (find_none _ _ Hfind row Hrow).
Qed.

Lemma run_operation_at_most_one_active now op db db' :
  at_most_one_active db -> run_operation now op db = inr db' ->
  at_most_one_active db'.
Proof.
  intros Hamo. destruct op as [k|k buyer|order_id| |]; simpl; unfold state_after.
  - destruct (get_or_create_active_group_buy now db k) as [e|[g db1]] eqn:Hrun;
      [discriminate|].
    intros H. inversion H; subst.
    eapply get_or_create_active_group_buy_at_most_one_active; eauto.
  - unfold process_bale_update_join_group.
    destruct (get_or_create_active_group_buy now db k) as [e|[g db1]] eqn:Hrun;
      [discriminate|].
    destruct (get_product db1 k) as [product|]; [|discriminate].
    simpl. intros H. inversion H; subst.
    pose proof (get_or_create_active_group_buy_at_most_one_active _ _ _ _ _ Hamo Hrun)
      as Hamo1.
    exact Hamo1.
  - destruct (process_new_order now db order_id) as [e|[reply db1]] eqn:Hrun;
      [discriminate|].
    intros H. inversion H; subst.
    destruct (process_new_order_groups _ _ _ _ _ Hrun) as (h & Hh & Hg).
    eapply at_most_one_active_map; eauto.
  - destruct (rearrange_incomplete_groups now db) as [e|[reply db1]] eqn:Hrun;
      [discriminate|].
    intros H. inversion H; subst.
    eapply rearrange_incomplete_groups_at_most_one_active; eauto.
  - unfold check_expired_groups.
    destruct (get_expired_groups db (now - timedelta_days 7)) as [|g0 rest] eqn:Hexp.
    { intros H. inversion H; subst. exact Hamo. }
    rewrite <- Hexp.
    destruct (expire_groups now _ db) as [e|db1] eqn:Hloop; [discriminate|].
    destruct (rearrange_incomplete_groups now db1) as [e|[reply db2]] eqn:Hrun;
      [discriminate|].
    intros H. inversion H; subst.
    eapply rearrange_incomplete_groups_at_most_one_active; [|exact Hrun].
    eapply at_most_one_active_map;
      [apply close_in_deactivating|apply (expire_groups_groups _ _ _ _ Hloop)|exact Hamo].
Qed.

(** C6.  Starting from a state with at most one active group per product
    (a store without groups is one), every sequence of operations each of
    which returns (get-or-create, the join callback, counting an order in,
    rearrangement, sweep) ends in such a state; so does every prefix of it.
    [get_or_create_active_group_buy] returns the product's active group and
    leaves the state as it is when there is one; when there is none it adds
    one group, active, with [current_count = 0] and
    [target_count = min_group_size]. *)
Theorem at_most_one_active_group_per_product :
  (forall ops db db',
     at_most_one_active db -> run_operations ops db = inr db' ->
     at_most_one_active db')
  /\ (forall ops1 ops2 db db',
        run_operations (ops1 ++ ops2) db = inr db' ->
        exists db1, run_operations ops1 db = inr db1
                    /\ run_operations ops2 db1 = inr db')
  /\ (forall products orders seq1 seq2 outbox,
        at_most_one_active (mkDB products [] orders seq1 seq2 outbox))
  /\ (forall now db product_id group_buy,
        get_active_group_buy db product_id = Some group_buy ->
        get_or_create_active_group_buy now db product_id = inr (group_buy, db))
  /\ (forall now db product_id product,
        get_active_group_buy db product_id = None ->
        get_product db product_id = Some product ->
        let created :=
          GroupBuy.mk (group_buy_seq db) product_id 0
                      (Product.min_group_size product) true now in
        get_or_create_active_group_buy now db product_id
        = inr (created,
               mkDB (products db) (group_buys db ++ [created]) (orders db)
                    (group_buy_seq db + 1) (order_seq db) (outbox db))).
Proof.
  split; [|split; [|split; [|split]]].
  - induction ops as [|[now op] ops IH]; intros db db' Hamo Hrun; simpl in Hrun.
    + inversion Hrun; subst. exact Hamo.
    + destruct (run_operation now op db) as [e|db1] eqn:Hop; [discriminate|].
      apply (IH db1 db'); [|exact Hrun].
      eapply run_operation_at_most_one_active; eauto.
  - induction ops1 as [|[now op] ops1 IH]; intros ops2 db db' Hrun; simpl in *.
    + eauto.
    + destruct (run_operation now op db) as [e|db1]; [discriminate|].
      now apply IH.
  - intros products orders seq1 seq2 outbox k. simpl. lia.
  - intros now db product_id group_buy Hfind.
    unfold get_or_create_active_group_buy. now rewrite Hfind.
  - intros now db product_id product Hnone Hproduct created.
    unfold get_or_create_active_group_buy. now rewrite Hnone, Hproduct.
Qed.

Lemma at_most_one_active_group_per_product_witness :
  exists db',
    run_operations
      [(1, JoinGroupCallback 1 11); (2, ProcessNewOrder 1);
       (3, JoinGroupCallback 1 12); (4, JoinGroupCallback 1 13);
       (5, RearrangeIncompleteGroups); (6, GetOrCreateActiveGroupBuy 1);
       (timedelta_days 9, CheckExpiredGroups)]
      (mkDB [product_tiered] [] [] 1 1 []) = inr db'
    /\ at_most_one_active db'.
Proof.
  eexists. split; [vm_compute; reflexivity|].
  apply (proj1 at_most_one_active_group_per_product
           [(1, JoinGroupCallback 1 11); (2, ProcessNewOrder 1);
            (3, JoinGroupCallback 1 12); (4, JoinGroupCallback 1 13);
            (5, RearrangeIncompleteGroups); (6, GetOrCreateActiveGroupBuy 1);
            (timedelta_days 9, CheckExpiredGroups)]
           (mkDB [product_tiered] [] [] 1 1 [])).
  - intros k. simpl. lia.
  - vm_compute. reflexivity.
Defined.

(** ** Rows touched by one round of the rearrangement *)

Lemma firstn_plus {A} (a b : nat) (l : list A) :
  firstn (a + b) l = firstn a l ++ firstn b (skipn a l).
Proof.
  revert l. induction a as [|a IH]; intros l; simpl; [reflexivity|].
  destruct l as [|x l]; simpl.
  - now rewrite firstn_nil.
  - now rewrite IH.
Qed.

Lemma in_firstn {A} (k : nat) (l : list A) (x : A) : In x (firstn k l) -> In x l.
Proof.
  intros H. rewrite <- (firstn_skipn k l). apply in_or_app. now left.
Qed.

Lemma in_skipn {A} (k : nat) (l : list A) (x : A) : In x (skipn k l) -> In x l.
Proof.
  intros H. rewrite <- (firstn_skipn k l). apply in_or_app. now right.
Qed.

Lemma in_slice {A} (start stop : Z) (l : list A) (x : A) :
  In x (slice start stop l) -> In x l.
Proof. unfold slice. intros H. eapply in_skipn, in_firstn, H. Qed.

(** The complete groups take the sorted orders [n] at a time, from the front. *)
Lemma slices_concat {A} (n : Z) (l : list A) (m : nat) :
  0 <= n ->
  flat_map (fun i => slice (i * n) (i * n + n) l) (range (Z.of_nat m))
  = firstn (m * Z.to_nat n) l.
Proof.
  intros Hn. induction m as [|m IH]; [reflexivity|].
  rewrite range_succ, flat_map_app, IH. simpl. rewrite app_nil_r.
  unfold slice.
  replace (Z.to_nat (Z.of_nat m * n + n - Z.of_nat m * n)) with (Z.to_nat n)
    by (f_equal; lia).
  replace (Z.to_nat (Z.of_nat m * n)) with (m * Z.to_nat n)%nat by nia.
  rewrite (Nat.add_comm (Z.to_nat n)). symmetry. apply firstn_plus.
Qed.

Lemma slice_length {A} (n i : Z) (l : list A) :
  0 <= n -> 0 <= i -> i * n + n <= Z.of_nat (length l) ->
  Z.of_nat (length (slice (i * n) (i * n + n) l)) = n.
Proof.
  intros Hn Hi Hlen. unfold slice. rewrite length_firstn, length_skipn. nia.
Qed.

Lemma complete_jobs_orders seq0 n d (l : list Order.t) (m : nat) :
  map fst (complete_jobs seq0 n d l m)
  = flat_map (fun i => slice (i * n) (i * n + n) l) (range (Z.of_nat m)).
Proof.
  unfold complete_jobs. induction (range (Z.of_nat m)) as [|i rest IH]; simpl;
    [reflexivity|].
  rewrite map_app, IH, map_map. simpl. now rewrite map_id.
Qed.

(** Every sorted order has exactly one job. *)
Lemma all_jobs_orders seq0 n d (l : list Order.t) :
  0 < n -> 0 < Z.of_nat (length l) / n ->
  map fst (all_jobs seq0 n d l (Z.of_nat (length l) / n) (Z.of_nat (length l) mod n))
  = l.
Proof.
  intros Hn Hfull. unfold all_jobs, remainder_jobs.
  set (total := Z.of_nat (length l)) in *.
  rewrite map_app, complete_jobs_orders, Z2Nat.id by lia.
  rewrite <- (Z2Nat.id (total / n)) at 1 by lia.
  rewrite slices_concat by lia.
  replace (Z.to_nat (total / n) * Z.to_nat n)%nat with (Z.to_nat (total / n * n))
    by nia.
  pose proof (Z.div_mod total n ltac:(lia)) as Hdm.
  pose proof (Z.mod_pos_bound total n Hn) as Hmod.
  destruct (0 <? total mod n) eqn:Hrem.
  - rewrite map_map. simpl. rewrite map_id. apply firstn_skipn.
  - apply Z.ltb_ge in Hrem. simpl. rewrite app_nil_r.
    apply firstn_all2. unfold total in *. nia.
Qed.

Lemma all_jobs_keep_id seq0 n d l full rem : Forall keeps_id (all_jobs seq0 n d l full rem).
Proof.
  apply Forall_forall. intros [o F] Hin. unfold all_jobs in Hin.
  apply in_app_or in Hin as [Hin|Hin].
  - unfold complete_jobs in Hin. apply in_flat_map in Hin as (i & _ & Hin).
    apply in_map_iff in Hin as (o' & E & _). inversion E; subst.
    intros o1 r. reflexivity.
  - unfold remainder_jobs in Hin. destruct (0 <? rem); [|destruct Hin].
    apply in_map_iff in Hin as (o' & E & _). inversion E; subst.
    intros o1 r. reflexivity.
Qed.

Lemma in_complete_jobs seq0 n d l full i o :
  0 <= i < full -> In o (slice (i * n) (i * n + n) l) ->
  forall rem, In (o, finalized (seq0 + i) d) (all_jobs seq0 n d l full rem).
Proof.
  intros Hi Ho rem. unfold all_jobs. apply in_or_app. left.
  unfold complete_jobs. apply in_flat_map. exists i. split.
  - apply in_range. lia.
  - apply in_map_iff. now exists o.
Qed.

Lemma in_remainder_jobs seq0 n d l full rem o :
  0 < rem -> In o (skipn (Z.to_nat (full * n)) l) ->
  In (o, moved (seq0 + full)) (all_jobs seq0 n d l full rem).
Proof.
  intros Hrem Ho. unfold all_jobs. apply in_or_app. right.
  unfold remainder_jobs. apply Z.ltb_lt in Hrem. rewrite Hrem.
  apply in_map_iff. now exists o.
Qed.

(** Each job sends its row to a group created by this round. *)
Lemma all_jobs_targets seq0 n d l full rem o F :
  In (o, F) (all_jobs seq0 n d l full rem) ->
  (exists i, 0 <= i < full /\ F = finalized (seq0 + i) d)
  \/ (0 < rem /\ F = moved (seq0 + full)).
Proof.
  unfold all_jobs. intros Hin. apply in_app_or in Hin as [Hin|Hin].
  - left. unfold complete_jobs in Hin. apply in_flat_map in Hin as (i & Hi & Hin).
    apply in_range in Hi. apply in_map_iff in Hin as (o' & E & _).
    inversion E; subst. exists i. split; [lia|reflexivity].
  - right. unfold remainder_jobs in Hin.
    destruct (0 <? rem) eqn:Hrem; [|destruct Hin].
    apply in_map_iff in Hin as (o' & E & _). inversion E; subst.
    split; [now apply Z.ltb_lt|reflexivity].
Qed.

Lemma get_order_of_row (db : DB) (o : Order.t) :
  NoDup (map Order.id (orders db)) -> In o (orders db) ->
  get_order db (Order.id o) = Some o.
Proof.
  intros Hnd Hin. unfold get_order.
  destruct (find _ (orders db)) as [o'|] eqn:Hfind.
  - apply find_some in Hfind as [Hin' E]. apply Z.eqb_eq in E.
    f_equal. eapply unique_keys_same_row; eauto.
  - exfalso. apply (find_none _ _ Hfind) in Hin. rewrite Z.eqb_refl in Hin.
    discriminate.
Qed.

Lemma sorted_orders_in (db : DB) (groups : list GroupBuy.t) (o : Order.t) :
  In o (sorted_orders db groups)
  <-> In o (orders db) /\ In (Order.group_buy_id o) (map GroupBuy.id groups).
Proof.
  unfold sorted_orders. rewrite sort_by_In, in_flat_map. split.
  - intros (g & Hg & Ho). apply filter_In in Ho as [Ho E]. apply Z.eqb_eq in E.
    split; [exact Ho|]. rewrite E. now apply in_map.
  - intros [Ho Hg]. apply in_map_iff in Hg as (g & E & Hg).
    exists g. split; [exact Hg|]. apply filter_In. split; [exact Ho|].
    now apply Z.eqb_eq.
Qed.

Lemma linked_orders_unique_keys (db : DB) (groups : list GroupBuy.t) :
  NoDup (map Order.id (orders db)) -> NoDup (map GroupBuy.id groups) ->
  NoDup (map Order.id
           (flat_map (fun group => get_orders_by_group db (GroupBuy.id group)) groups)).
Proof.
  intros Ho. induction groups as [|g groups IH]; simpl; intros Hg; [constructor|].
  inversion Hg as [|? ? Hnew Hg']; subst.
  rewrite map_app. apply NoDup_app.
  - now apply unique_keys_filter.
  - now apply IH.
  - intros key H1 H2.
    apply in_map_iff in H1 as (o1 & <- & H1).
    apply in_map_iff in H2 as (o2 & E & H2).
    apply filter_In in H1 as [H1 E1]. apply Z.eqb_eq in E1.
    apply in_flat_map in H2 as (g' & Hg2 & H2).
    apply filter_In in H2 as [H2 E2]. apply Z.eqb_eq in E2.
    assert (o2 = o1) by (eapply unique_keys_same_row; eauto). subst o2.
    apply Hnew. rewrite <- E1, E2. now apply in_map.
Qed.

Lemma sorted_orders_unique_keys (db : DB) (groups : list GroupBuy.t) :
  NoDup (map Order.id (orders db)) -> NoDup (map GroupBuy.id groups) ->
  NoDup (map Order.id (sorted_orders db groups)).
Proof.
  intros Ho Hg. unfold sorted_orders.
  eapply Permutation_NoDup.
  - apply Permutation_map. symmetry. apply sort_by_perm.
  - now apply linked_orders_unique_keys.
Qed.

Lemma apply_jobs_invariant (Inv : Order.t -> Prop) (jobs : list Job) (r : Order.t) :
  Inv r -> Forall (fun j => forall o r, Inv r -> Inv (snd j o r)) jobs ->
  Inv (apply_jobs jobs r).
Proof.
  unfold apply_jobs. revert r.
  induction jobs as [|j jobs IH]; intros r Hr Hjobs; simpl; [exact Hr|].
  inversion Hjobs as [|? ? Hj Hjobs']; subst.
  apply IH; [|exact Hjobs']. unfold rewrite_row.
  destruct (Order.id r =? Order.id (fst j)); auto.
Qed.

Section Round.
Variables (now : Z) (db : DB) (product_id : Z) (groups : list GroupBuy.t)
          (product : Product.t).
Hypothesis Hwf : well_formed db.

Let n := Product.min_group_size product.
Let d := get_discount_percentage product n.
Let all_orders := sorted_orders db groups.
Let total := Z.of_nat (length all_orders).
Let full := total / n.
Let rem := total mod n.
Let seq0 := group_buy_seq db.
Let G := apply_jobs (all_jobs seq0 n d all_orders full rem).

Hypothesis Hfull : 0 < full.

Lemma round_positive : 0 < n.
Proof.
  assert (Htotal : 0 <= total) by (subst total; lia).
  destruct (Z.lt_trichotomy n 0) as [Hneg|[Hz|Hpos]]; [| |exact Hpos].
  - exfalso. pose proof (Z.div_mod total n ltac:(lia)) as Hdm.
    pose proof (Z.mod_neg_bound total n Hneg) as Hmod.
    fold full in Hdm. nia.
  - exfalso. subst full. rewrite Hz, Z.div_0_r in Hfull. lia.
Qed.

Lemma round_division : total = full * n + rem /\ 0 <= rem < n.
Proof.
  pose proof round_positive as Hn.
  pose proof (Z.div_mod total n ltac:(lia)) as Hdm.
  pose proof (Z.mod_pos_bound total n Hn) as Hmod.
  fold full rem in Hdm, Hmod. lia.
Qed.

Lemma round_jobs_orders : map fst (all_jobs seq0 n d all_orders full rem) = all_orders.
Proof. apply all_jobs_orders; [apply round_positive|exact Hfull]. Qed.

Lemma round_job_ids :
  map job_id (all_jobs seq0 n d all_orders full rem) = map Order.id all_orders.
Proof.
  rewrite <- round_jobs_orders at 2. rewrite map_map. reflexivity.
Qed.

(** Rows of other groups are left as they are. *)
Lemma round_miss (r : Order.t) :
  In r (orders db) -> ~ In (Order.group_buy_id r) (map GroupBuy.id groups) ->
  G r = r.
Proof.
  intros Hr Hout. apply apply_jobs_miss. rewrite round_job_ids.
  intros Hin. apply in_map_iff in Hin as (o & E & Ho).
  apply sorted_orders_in in Ho as [Ho Hg].
  assert (o = r) by (eapply unique_keys_same_row; eauto using wf_order_ids).
  subst o. contradiction.
Qed.

Lemma round_id (r : Order.t) : Order.id (G r) = Order.id r.
Proof. apply apply_jobs_id, all_jobs_keep_id. Qed.

(** A row keeps its group or moves to a group created by this round. *)
Lemma round_group (r : Order.t) :
  Order.group_buy_id (G r) = Order.group_buy_id r
  \/ seq0 <= Order.group_buy_id (G r) < seq0 + full + (if 0 <? rem then 1 else 0).
Proof.
  apply (apply_jobs_invariant
           (fun r' => Order.group_buy_id r' = Order.group_buy_id r
                      \/ seq0 <= Order.group_buy_id r'
                                < seq0 + full + (if 0 <? rem then 1 else 0)));
    [now left|].
  apply Forall_forall. intros [o F] Hin o' r' _. right. simpl.
  apply all_jobs_targets in Hin as [(i & Hi & ->)|[Hrem ->]]; simpl.
  - destruct (0 <? rem); lia.
  - apply Z.ltb_lt in Hrem. rewrite Hrem. lia.
Qed.

Hypothesis Hgroups : NoDup (map GroupBuy.id groups).

Lemma round_hit (o : Order.t) F :
  In (o, F) (all_jobs seq0 n d all_orders full rem) -> G o = F o o.
Proof.
  intros Hin. apply apply_jobs_hit; auto.
  - apply all_jobs_keep_id.
  - rewrite round_job_ids. apply sorted_orders_unique_keys; auto using wf_order_ids.
Qed.

(** The [i]-th complete group takes the [i]-th run of [n] sorted orders. *)
Lemma round_complete (i : Z) (o : Order.t) :
  0 <= i < full -> In o (slice (i * n) (i * n + n) all_orders) ->
  G o = finalized (seq0 + i) d o o.
Proof. intros Hi Ho. apply round_hit. now apply in_complete_jobs. Qed.

(** The new active group takes what is left. *)
Lemma round_remainder (o : Order.t) :
  0 < rem -> In o (skipn (Z.to_nat (full * n)) all_orders) ->
  G o = moved (seq0 + full) o o.
Proof. intros Hrem Ho. apply round_hit. now apply in_remainder_jobs. Qed.
End Round.

(** ** What a round leaves alone *)

Lemma query_after_rewrite {Row} (keep : Row -> bool) (rewrite : Row -> Row)
    (rows : list Row) :
  (forall row, In row rows ->
     keep (rewrite row) = keep row /\ (keep row = true -> rewrite row = row)) ->
  filter keep (map rewrite rows) = filter keep rows.
Proof.
  induction rows as [|row rows IH]; intros Hall; simpl; [reflexivity|].
  destruct (Hall row (or_introl eq_refl)) as [Hkeep Hsame].
  rewrite Hkeep, IH by (intros row' Hin; apply Hall; now right).
  destruct (keep row); [now rewrite Hsame|reflexivity].
Qed.

Lemma range_unique (m : Z) : NoDup (range m).
Proof.
  unfold range. apply Finite.Injective_map_NoDup.
  - intros a b. apply Nat2Z.inj.
  - apply seq_NoDup.
Qed.

Lemma new_groups_ids now product_id n seq0 full rem :
  0 <= full ->
  NoDup (map GroupBuy.id (new_groups now product_id n seq0 full rem))
  /\ forall g, In g (new_groups now product_id n seq0 full rem) ->
       seq0 <= GroupBuy.id g < seq0 + full + (if 0 <? rem then 1 else 0).
Proof.
  intros Hfull. unfold new_groups, complete_groups, remainder_groups.
  rewrite Z2Nat.id by lia. split.
  - rewrite map_app, map_map. simpl. apply NoDup_app.
    + apply Finite.Injective_map_NoDup; [|apply range_unique].
      intros a b. lia.
    + destruct (0 <? rem); simpl; repeat constructor. intros [].
    + intros key H1 H2. apply in_map_iff in H1 as (i & <- & Hi).
      apply in_range in Hi.
      destruct (0 <? rem); simpl in H2; [|contradiction].
      destruct H2 as [H2|[]]. lia.
  - intros g Hg. apply in_app_or in Hg as [Hg|Hg].
    + apply in_map_iff in Hg as (i & <- & Hi). apply in_range in Hi. simpl.
      destruct (0 <? rem); lia.
    + destruct (0 <? rem); simpl in Hg; [|contradiction].
      destruct Hg as [<-|[]]. simpl. lia.
Qed.

Lemma close_in_id now ids g : GroupBuy.id (close_in now ids g) = GroupBuy.id g.
Proof. unfold close_in. now destruct (id_in ids (GroupBuy.id g)). Qed.

Lemma close_in_outside now ids g :
  ~ In (GroupBuy.id g) ids -> close_in now ids g = g.
Proof.
  intros Hout. unfold close_in.
  destruct (id_in ids (GroupBuy.id g)) eqn:E; [|reflexivity].
  apply id_in_iff in E. contradiction.
Qed.

(** One round keeps the store well formed and leaves the groups and the
    orders of [protected] group keys as they are, provided none of the
    round's own groups is protected. *)
Lemma rearrange_product_frame (protected : Z -> Prop) now db results k groups
    db1 results1 :
  well_formed db ->
  (forall g, In g groups -> ~ protected (GroupBuy.id g)) ->
  rearrange_product now (db, results) (k, groups) = inr (db1, results1) ->
  well_formed db1
  /\ products db1 = products db
  /\ group_buy_seq db <= group_buy_seq db1
  /\ (forall g, In g (group_buys db) -> protected (GroupBuy.id g) ->
        In g (group_buys db1))
  /\ (forall o, In o (orders db) -> protected (Order.group_buy_id o) ->
        In o (orders db1))
  /\ (forall x, protected x -> x < group_buy_seq db ->
        get_orders_by_group db1 x = get_orders_by_group db x)
  /\ (forall g', In g' (group_buys db1) ->
        (exists g, In g (group_buys db)
                   /\ GroupBuy.id g = GroupBuy.id g'
                   /\ GroupBuy.product_id g = GroupBuy.product_id g')
        \/ GroupBuy.product_id g' = k).
Proof.
  intros Hwf Hprot Hrun.
  destruct (rearrange_product_returns _ _ _ _ _ _ Hrun) as (product & Hp & Hn).
  pose proof (rearrange_product_eq now db results k groups product Hp Hn) as Heq.
  cbv zeta in Heq.
  destruct (0 <? _) eqn:Hfull.
  2:{ rewrite Hrun in Heq. inversion Heq; subst.
      repeat split; auto using wf_group_ids, wf_group_seq, wf_order_ids,
        wf_order_seq, wf_order_group; try lia.
      intros g' Hg'. left. exists g'. auto. }
  apply Z.ltb_lt in Hfull.
  destruct Heq as (db' & Hrun' & Ho & Hg & Hpr & Hgs & Hos).
  rewrite Hrun in Hrun'. inversion Hrun'; subst db' results1. clear Hrun'.
  pose proof (round_division db groups product Hfull) as [Hdiv Hrem].
  set (n := Product.min_group_size product) in *.
  set (all_orders := sorted_orders db groups) in *.
  set (full := Z.of_nat (length all_orders) / n) in *.
  set (rem := Z.of_nat (length all_orders) mod n) in *.
  destruct (new_groups_ids now k n (group_buy_seq db) full rem ltac:(lia))
    as [Hnew_ids Hnew_range].
  assert (Hout : forall r, In r (orders db) -> protected (Order.group_buy_id r) ->
                           ~ In (Order.group_buy_id r) (map GroupBuy.id groups)).
  { intros r _ Hr Hin. apply in_map_iff in Hin as (g & E & Hin).
    apply (Hprot g Hin). now rewrite E. }
  repeat split.
  - rewrite Hg, map_map.
    erewrite map_ext by (intros; apply close_in_id).
    rewrite map_app. apply NoDup_app; [apply Hwf|exact Hnew_ids|].
    intros key H1 H2. apply in_map_iff in H1 as (g1 & <- & H1).
    apply in_map_iff in H2 as (g2 & E & H2).
    apply (wf_group_seq _ Hwf) in H1. apply Hnew_range in H2. lia.
  - intros g' Hg'. rewrite Hg in Hg'. apply in_map_iff in Hg' as (g & <- & Hin).
    rewrite close_in_id, Hgs. apply in_app_or in Hin as [Hin|Hin].
    + apply (wf_group_seq _ Hwf) in Hin. destruct (0 <? rem); lia.
    + apply Hnew_range in Hin. lia.
  - rewrite Ho, map_order_id_map; [apply Hwf|].
    intros o. apply (round_id db groups product).
  - intros o' Ho'. rewrite Ho in Ho'. apply in_map_iff in Ho' as (o & <- & Hin).
    rewrite Hos, (round_id db groups product). now apply (wf_order_seq _ Hwf).
  - intros o' Ho'. rewrite Ho in Ho'. apply in_map_iff in Ho' as (o & <- & Hin).
    rewrite Hgs. apply (wf_order_group _ Hwf) in Hin.
    destruct (round_group db groups product Hfull o) as [E|E].
    + fold n all_orders full rem in E. rewrite E. destruct (0 <? rem); lia.
    + fold n all_orders full rem in E. lia.
  - exact Hpr.
  - rewrite Hgs. destruct (0 <? rem); lia.
  - intros g Hin Hpg. rewrite Hg. apply in_map_iff. exists g. split.
    + apply close_in_outside. intros Hin'.
      apply in_map_iff in Hin' as (g' & E & Hin'). apply (Hprot g' Hin').
      now rewrite E.
    + apply in_or_app. now left.
  - intros o Hin Hpo. rewrite Ho. apply in_map_iff. exists o. split; [|exact Hin].
    apply (round_miss db groups product Hwf Hfull); auto.
  - intros x Hx Hold. unfold get_orders_by_group. rewrite Ho.
    apply query_after_rewrite. intros r Hr.
    assert (Hsame : Order.group_buy_id r = x ->
                    apply_jobs (all_jobs (group_buy_seq db) n
                                  (get_discount_percentage product n)
                                  all_orders full rem) r = r).
    { intros E. apply (round_miss db groups product Hwf Hfull r Hr).
      apply Hout; [exact Hr|]. now rewrite E. }
    split.
    + destruct (Z.eqb_spec (Order.group_buy_id r) x) as [E|E].
      * rewrite (Hsame E). now apply Z.eqb_eq.
      * apply Z.eqb_neq.
        destruct (round_group db groups product Hfull r) as [E'|E'];
          fold n all_orders full rem in E'; [congruence|lia].
    + intros E. apply Z.eqb_eq in E. auto.
  - intros g' Hg'. rewrite Hg in Hg'. apply in_map_iff in Hg' as (g & <- & Hin).
    destruct (close_in_deactivating now (map GroupBuy.id groups) g) as [Hsame _].
    apply in_app_or in Hin as [Hin|Hin].
    + left. exists g. rewrite close_in_id, Hsame. auto.
    + right. rewrite Hsame. now apply new_groups_of_product in Hin.
Qed.

(** The same for the whole loop over the products. *)
Lemma rearrange_products_frame (protected : Z -> Prop) now product_groups :
  forall db results db' results',
    well_formed db ->
    (forall k groups g, In (k, groups) product_groups -> In g groups ->
                        ~ protected (GroupBuy.id g)) ->
    rearrange_products now product_groups (db, results) = inr (db', results') ->
    well_formed db'
    /\ products db' = products db
    /\ group_buy_seq db <= group_buy_seq db'
    /\ (forall g, In g (group_buys db) -> protected (GroupBuy.id g) ->
          In g (group_buys db'))
    /\ (forall o, In o (orders db) -> protected (Order.group_buy_id o) ->
          In o (orders db'))
    /\ (forall x, protected x -> x < group_buy_seq db ->
          get_orders_by_group db' x = get_orders_by_group db x)
    /\ (forall g', In g' (group_buys db') ->
          (exists g, In g (group_buys db)
                     /\ GroupBuy.id g = GroupBuy.id g'
                     /\ GroupBuy.product_id g = GroupBuy.product_id g')
          \/ In (GroupBuy.product_id g') (map fst product_groups)).
Proof.
  induction product_groups as [|[k groups] rest IH];
    intros db results db' results' Hwf Hprot Hrun;
    cbn [rearrange_products] in Hrun.
  - inversion Hrun; subst. repeat split; auto using wf_group_ids, wf_group_seq,
      wf_order_ids, wf_order_seq, wf_order_group; try lia.
    intros g' Hg'. left. exists g'. auto.
  - destruct (rearrange_product now (db, results) (k, groups))
      as [e|[db1 results1]] eqn:Hround; [discriminate|].
    destruct (rearrange_product_frame protected _ _ _ _ _ _ _ Hwf
                (fun g Hg => Hprot k groups g (or_introl eq_refl) Hg) Hround)
      as (Hwf1 & Hp1 & Hs1 & Hg1 & Ho1 & Hq1 & Hn1).
    destruct (IH db1 results1 db' results' Hwf1
                (fun k' groups' g Hin Hg => Hprot k' groups' g (or_intror Hin) Hg) Hrun)
      as (Hwf' & Hp' & Hs' & Hg' & Ho' & Hq' & Hn').
    split; [exact Hwf'|]. split; [congruence|]. split; [lia|].
    split; [|split; [|split]].
    + intros g Hin Hpg. apply Hg'; [now apply Hg1|exact Hpg].
    + intros o Hin Hpo. apply Ho'; [now apply Ho1|exact Hpo].
    + intros x Hx Hold. rewrite Hq' by (auto; lia). now apply Hq1.
    + intros g' Hin'. simpl.
      destruct (Hn' g' Hin') as [(g1 & Hin1 & Eid & Epr)|Hkey]; [|auto].
      destruct (Hn1 g1 Hin1) as [(g & Hin & Eid' & Epr')|Hkey].
      * left. exists g. repeat split; congruence.
      * right. left. congruence.
Qed.

(** ** The whole rearrangement *)

Lemma rearrange_products_app now l1 l2 st :
  rearrange_products now (l1 ++ l2) st
  = match rearrange_products now l1 st with
    | inl e => inl e
    | inr st1 => rearrange_products now l2 st1
    end.
Proof.
  revert st. induction l1 as [|entry l1 IH]; intros st; simpl; [reflexivity|].
  destruct (rearrange_product now st entry); [reflexivity|apply IH].
Qed.

(** The rounds before the one of a given product, that round, and the rounds
    after it. *)
Lemma rearrange_products_split now product_groups k groups db results db' results' :
  In (k, groups) product_groups ->
  rearrange_products now product_groups (db, results) = inr (db', results') ->
  exists before after db_b results_b db_a results_a,
    product_groups = before ++ (k, groups) :: after
    /\ rearrange_products now before (db, results) = inr (db_b, results_b)
    /\ rearrange_product now (db_b, results_b) (k, groups) = inr (db_a, results_a)
    /\ rearrange_products now after (db_a, results_a) = inr (db', results').
Proof.
  intros Hin Hrun. apply in_split in Hin as (before & after & ->).
  rewrite rearrange_products_app in Hrun.
  destruct (rearrange_products now before (db, results)) as [e|[db_b results_b]]
    eqn:Hbefore; [discriminate|].
  cbn [rearrange_products] in Hrun.
  destruct (rearrange_product now (db_b, results_b) (k, groups))
    as [e|[db_a results_a]] eqn:Hround; [discriminate|].
  exists before, after, db_b, results_b, db_a, results_a. repeat split; auto.
Qed.

(** The loop returns when every product it meets exists and has a non-zero
    [min_group_size]. *)
Lemma rearrange_products_returns now product_groups :
  forall db results,
    (forall k groups, In (k, groups) product_groups ->
       exists product, get_product db k = Some product
                       /\ Product.min_group_size product <> 0) ->
    exists db' results',
      rearrange_products now product_groups (db, results) = inr (db', results').
Proof.
  induction product_groups as [|[k groups] rest IH]; intros db results Hproducts;
    cbn [rearrange_products].
  - eauto.
  - destruct (Hproducts k groups (or_introl eq_refl)) as (product & Hp & Hn).
    pose proof (rearrange_product_eq now db results k groups product Hp Hn) as Heq.
    cbv zeta in Heq.
    assert (Hnext : forall db1 results1,
               products db1 = products db ->
               exists db' results',
                 rearrange_products now rest (db1, results1) = inr (db', results')).
    { intros db1 results1 Hsame. apply IH. intros k' groups' Hin.
      unfold get_product. rewrite Hsame. apply (Hproducts k' groups'). now right. }
    destruct (0 <? _).
    + destruct Heq as (db1 & -> & _ & _ & Hsame & _). now apply Hnext.
    + rewrite Heq. now apply Hnext.
Qed.

(** The dictionary the rearrangement runs over. *)
Lemma product_groups_entry (db : DB) (k : Z) :
  let groups := filter (of_product k) (get_incomplete_groups db) in
  groups <> [] ->
  In (k, groups) (group_by_product (get_incomplete_groups db)).
Proof.
  intros groups Hsome. subst groups.
  destruct (group_by_product_grouped (get_incomplete_groups db))
    as (_ & Hentries & Hkeys & _).
  remember (filter (of_product k) (get_incomplete_groups db)) as gs eqn:Hgs.
  destruct gs as [|g0 rest]; [congruence|].
  assert (Hg0 : In g0 (filter (of_product k) (get_incomplete_groups db)))
    by (rewrite <- Hgs; now left).
  apply filter_In in Hg0 as [Hg0 Hk]. unfold of_product in Hk.
  apply Z.eqb_eq in Hk.
  apply Hkeys in Hg0. rewrite Hk in Hg0.
  apply in_map_iff in Hg0 as ([k' groups'] & E & Hin). simpl in E. subst k'.
  destruct (Hentries k groups' Hin) as [E _]. rewrite Hgs, <- E. exact Hin.
Qed.

Lemma product_groups_products (db : DB) k groups :
  products_of_incomplete_groups_exist db ->
  In (k, groups) (group_by_product (get_incomplete_groups db)) ->
  exists product, get_product db k = Some product
                  /\ Product.min_group_size product <> 0.
Proof.
  intros Hproducts Hin.
  destruct (group_by_product_grouped (get_incomplete_groups db))
    as (_ & Hentries & _ & _).
  destruct (Hentries k groups Hin) as [Hgroups Hsome].
  destruct groups as [|g0 rest]; [congruence|].
  assert (Hg0 : In g0 (filter (of_product k) (get_incomplete_groups db)))
    by (rewrite <- Hgroups; now left).
  apply filter_In in Hg0 as [Hg0 Hk]. unfold of_product in Hk.
  apply Z.eqb_eq in Hk. rewrite <- Hk. now apply Hproducts.
Qed.

(** Groups under different keys of the dictionary have different primary
    keys, and all of them are rows of the store. *)
Lemma product_groups_rows (db : DB) k groups g :
  In (k, groups) (group_by_product (get_incomplete_groups db)) -> In g groups ->
  In g (group_buys db) /\ GroupBuy.product_id g = k /\ incomplete g = true.
Proof.
  intros Hin Hg.
  destruct (group_by_product_grouped (get_incomplete_groups db))
    as (_ & Hentries & _ & _).
  destruct (Hentries k groups Hin) as [-> _].
  apply filter_In in Hg as [Hg Hk]. apply filter_In in Hg as [Hg Hinc].
  unfold of_product in Hk. apply Z.eqb_eq in Hk. auto.
Qed.

Lemma product_groups_apart (db : DB) k groups k' groups' g :
  well_formed db ->
  In (k, groups) (group_by_product (get_incomplete_groups db)) ->
  In (k', groups') (group_by_product (get_incomplete_groups db)) ->
  k' <> k -> In g groups' ->
  ~ In (GroupBuy.id g) (map GroupBuy.id groups).
Proof.
  intros Hwf Hin Hin' Hk Hg Hid.
  apply in_map_iff in Hid as (g2 & E & Hg2).
  destruct (product_groups_rows db k groups g2 Hin Hg2) as (Hr2 & Hp2 & _).
  destruct (product_groups_rows db k' groups' g Hin' Hg) as (Hr & Hp & _).
  assert (g2 = g) by (eapply unique_keys_same_row; eauto using wf_group_ids).
  congruence.
Qed.

Lemma product_groups_unique_keys (db : DB) k groups :
  well_formed db ->
  In (k, groups) (group_by_product (get_incomplete_groups db)) ->
  NoDup (map GroupBuy.id groups).
Proof.
  intros Hwf Hin.
  destruct (group_by_product_grouped (get_incomplete_groups db))
    as (_ & Hentries & _ & _).
  destruct (Hentries k groups Hin) as [-> _].
  unfold get_incomplete_groups.
  apply unique_keys_filter, unique_keys_filter, Hwf.
Qed.

Lemma sorted_orders_same (db db1 : DB) (groups : list GroupBuy.t) :
  (forall g, In g groups ->
     get_orders_by_group db1 (GroupBuy.id g) = get_orders_by_group db (GroupBuy.id g)) ->
  sorted_orders db1 groups = sorted_orders db groups.
Proof.
  intros Hsame. unfold sorted_orders. f_equal.
  induction groups as [|g groups IH]; simpl; [reflexivity|].
  rewrite Hsame by now left. rewrite IH; [reflexivity|].
  intros g' Hg'. apply Hsame. now right.
Qed.

Lemma get_product_same (db db1 : DB) (k : Z) :
  products db1 = products db -> get_product db1 k = get_product db k.
Proof. intros H. unfold get_product. now rewrite H. Qed.

(** The rounds of the other products, seen from the groups of one product:
    they are apart from them. *)
Lemma other_rounds_apart (db : DB) k groups before after :
  well_formed db ->
  group_by_product (get_incomplete_groups db) = before ++ (k, groups) :: after ->
  forall k' groups' g,
    In (k', groups') (before ++ after) -> In g groups' ->
    k' <> k
    /\ ~ In (GroupBuy.id g) (map GroupBuy.id groups)
    /\ GroupBuy.id g < group_buy_seq db.
Proof.
  intros Hwf Hsplit k' groups' g Hin Hg.
  destruct (group_by_product_grouped (get_incomplete_groups db)) as (Hnd & _).
  rewrite Hsplit, map_app in Hnd. simpl in Hnd.
  apply NoDup_remove_2 in Hnd.
  assert (Hall : In (k', groups') (group_by_product (get_incomplete_groups db))).
  { rewrite Hsplit. apply in_app_or in Hin as [Hin|Hin]; apply in_or_app;
      [now left|right; now right]. }
  assert (Hk : k' <> k).
  { intros ->. apply Hnd. rewrite <- map_app. apply in_map_iff.
    now exists (k, groups'). }
  split; [exact Hk|]. split.
  - apply (product_groups_apart db k groups k' groups' g Hwf); auto.
    rewrite Hsplit. apply in_or_app. right. now left.
  - destruct (product_groups_rows db k' groups' g Hall Hg) as (Hrow & _).
    now apply (wf_group_seq _ Hwf).
Qed.

(** C5, amended.  When the incomplete active groups of a product together
    hold fewer orders than its [min_group_size], the rearrangement (which
    returns, every product of an incomplete group existing with a non-zero
    [min_group_size]) leaves them as they are: each of these groups is still
    in the store, unchanged, hence active and incomplete; the orders linked to
    it are the same rows; and every group of the product in the final store
    has the key of a group that was there before, so none was created for
    it. *)
Theorem rearrange_below_min_group_size (now : Z) (db : DB) (product_id : Z)
    (product : Product.t) :
  well_formed db ->
  products_of_incomplete_groups_exist db ->
  get_product db product_id = Some product ->
  let groups := filter (of_product product_id) (get_incomplete_groups db) in
  let total_orders := Z.of_nat (length (sorted_orders db groups)) in
  groups <> [] ->
  total_orders < Product.min_group_size product ->
  exists results db',
    rearrange_incomplete_groups now db = inr (Rearrangements results, db')
    /\ (forall g, In g groups ->
          In g (group_buys db')
          /\ incomplete g = true
          /\ get_orders_by_group db' (GroupBuy.id g)
             = get_orders_by_group db (GroupBuy.id g))
    /\ (forall g', In g' (group_buys db') ->
          GroupBuy.product_id g' = product_id ->
          exists g, In g (group_buys db) /\ GroupBuy.id g = GroupBuy.id g').
Proof.
  intros Hwf Hproducts Hproduct groups total_orders Hsome Hfew.
  pose proof (product_groups_entry db product_id Hsome) as Hentry.
  fold groups in Hentry.
  destruct (rearrange_products_returns now
              (group_by_product (get_incomplete_groups db)) db [])
    as (db' & results & Hrun).
  { intros k gs Hin. now apply (product_groups_products db k gs). }
  exists results, db'. split.
  { unfold rearrange_incomplete_groups.
    destruct (get_incomplete_groups db) as [|g0 rest] eqn:Hinc.
    - exfalso. apply Hsome. unfold groups. try rewrite Hinc. reflexivity.
    - rewrite Hrun. reflexivity. }
  destruct (rearrange_products_split _ _ _ _ _ _ _ _ Hentry Hrun)
    as (before & after & db_b & results_b & db_a & results_a
        & Hsplit & Hbefore & Hround & Hafter).
  pose proof (other_rounds_apart db product_id groups before after Hwf Hsplit)
    as Hapart.
  set (protected := fun x => In x (map GroupBuy.id groups)).
  assert (Hprot_b : forall k gs g, In (k, gs) before -> In g gs ->
                               ~ protected (GroupBuy.id g)).
  { intros k gs g Hin Hg. apply (Hapart k gs g); auto. apply in_or_app. now left. }
  assert (Hprot_a : forall k gs g, In (k, gs) after -> In g gs ->
                               ~ protected (GroupBuy.id g)).
  { intros k gs g Hin Hg. apply (Hapart k gs g); auto. apply in_or_app. now right. }
  destruct (rearrange_products_frame protected now before db [] db_b results_b
              Hwf Hprot_b Hbefore)
    as (Hwf_b & Hp_b & Hs_b & Hg_b & _ & Hq_b & Hn_b).
  assert (Hrows : forall g, In g groups ->
             In g (group_buys db) /\ incomplete g = true
             /\ protected (GroupBuy.id g) /\ GroupBuy.id g < group_buy_seq db).
  { intros g Hg.
    destruct (product_groups_rows db product_id groups g Hentry Hg) as (Hrow & _ & Hinc).
    repeat split; auto.
    - unfold protected. now apply in_map.
    - now apply (wf_group_seq _ Hwf). }
  assert (Hsame_b : sorted_orders db_b groups = sorted_orders db groups).
  { apply sorted_orders_same. intros g Hg.
    destruct (Hrows g Hg) as (_ & _ & Hpg & Hold). now apply Hq_b. }
  assert (db_a = db_b /\ results_a = results_b) as [-> ->].
  { assert (Hn : Product.min_group_size product <> 0) by (unfold total_orders in Hfew; lia).
    rewrite <- (get_product_same db db_b product_id Hp_b) in Hproduct.
    pose proof (rearrange_product_eq now db_b results_b product_id groups product
                  Hproduct Hn) as Heq.
    cbv zeta in Heq. rewrite Hsame_b in Heq. fold total_orders in Heq.
    destruct (0 <? total_orders / Product.min_group_size product) eqn:Hfull.
    - exfalso. apply Z.ltb_lt in Hfull.
      rewrite Z.div_small in Hfull by (unfold total_orders in *; lia). lia.
    - rewrite Hround in Heq. now inversion Heq. }
  destruct (rearrange_products_frame protected now after db_b results_b db' results
              Hwf_b Hprot_a Hafter)
    as (Hwf' & Hp' & Hs' & Hg' & _ & Hq' & Hn').
  split.
  - intros g Hg. destruct (Hrows g Hg) as (Hrow & Hinc & Hpg & Hold).
    repeat split; auto.
    rewrite Hq' by (auto; lia). now apply Hq_b.
  - intros g' Hin' Hk.
    assert (Hkeys : forall k gs, In (k, gs) (before ++ after) -> k <> product_id).
    { intros k gs Hin Ek.
      destruct (group_by_product_grouped (get_incomplete_groups db)) as (Hnd & _).
      rewrite Hsplit, map_app in Hnd. simpl in Hnd. apply NoDup_remove_2 in Hnd.
      apply Hnd. rewrite <- map_app. apply in_map_iff. exists (k, gs). auto. }
    destruct (Hn' g' Hin') as [(g1 & Hin1 & Eid & Epr)|Hkey].
    + destruct (Hn_b g1 Hin1) as [(g & Hin & Eid' & Epr')|Hkey].
      * exists g. split; [exact Hin|congruence].
      * exfalso. apply in_map_iff in Hkey as ([k gs] & E & Hin). simpl in E.
        apply (Hkeys k gs); [apply in_or_app; now left|congruence].
    + exfalso. apply in_map_iff in Hkey as ([k gs] & E & Hin). simpl in E.
      apply (Hkeys k gs); [apply in_or_app; now right|congruence].
Qed.

Ltac unique_keys := simpl; repeat (constructor; [simpl; intuition lia|]); constructor.
Ltac each_row :=
  simpl; intros ? ?;
  repeat match goal with
         | H : _ \/ _ |- _ => destruct H as [H|H]
         | H : False |- _ => destruct H
         end;
  subst; simpl; try lia; eauto.
Ltac well_formed_store :=
  constructor; [unique_keys|each_row|unique_keys|each_row|each_row].

Lemma rearrange_below_min_group_size_witness :
  exists results db',
    rearrange_incomplete_groups 10 store_7 = inr (Rearrangements results, db')
    /\ (forall g, In g (filter (of_product 7) (get_incomplete_groups store_7)) ->
          In g (group_buys db')
          /\ incomplete g = true
          /\ get_orders_by_group db' (GroupBuy.id g)
             = get_orders_by_group store_7 (GroupBuy.id g))
    /\ (forall g', In g' (group_buys db') ->
          GroupBuy.product_id g' = 7 ->
          exists g, In g (group_buys store_7) /\ GroupBuy.id g = GroupBuy.id g').
Proof.
  apply (rearrange_below_min_group_size 10 store_7 7 (Product.mk 7 50 4 10 [])).
  - well_formed_store.
  - unfold products_of_incomplete_groups_exist. each_row.
    eexists. split; [reflexivity|simpl; lia].
  - reflexivity.
  - discriminate.
  - simpl. lia.
Defined.

(** ** Orders are regrouped oldest first *)

Lemma insert_by_created_sorted (x : Order.t) (l : list Order.t) :
  StronglySorted not_after l -> StronglySorted not_after (insert_by created_before x l).
Proof.
  induction l as [|y l IH]; intros Hl; simpl.
  - repeat constructor.
  - inversion Hl as [|? ? Hl' Hy]; subst. unfold created_before at 1.
    destruct (Z.ltb_spec (Order.created_at y) (Order.created_at x)) as [Hlt|Hge].
    + constructor; [now apply IH|].
      apply Forall_forall. intros z Hz.
      apply (Permutation_in _ (insert_by_perm created_before x l)) in Hz.
      destruct Hz as [<-|Hz]; [unfold not_after; lia|].
      now apply (proj1 (Forall_forall _ _) Hy).
    + constructor; [exact Hl|]. constructor; [exact Hge|].
      apply Forall_forall. intros z Hz.
      apply (proj1 (Forall_forall _ _) Hy) in Hz. unfold not_after in *. lia.
Qed.

Lemma sort_by_created_sorted (l : list Order.t) :
  StronglySorted not_after (sort_by created_before l).
Proof.
  induction l as [|x l IH]; simpl; [constructor|].
  now apply insert_by_created_sorted.
Qed.

(** C2.  For a product whose incomplete active groups together hold at least
    [min_group_size] orders, the rearrangement (which returns, every product
    of an incomplete group existing with a non-zero [min_group_size]) takes
    all the orders of those groups, oldest first by [created_at], and with
    [n = min_group_size], [full = total_orders / n] and
    [remainder = total_orders mod n]: for each [i < full] the store ends with
    a new inactive group of [target_count = current_count = n] holding the
    [i]-th run of [n] orders, each CONFIRMED with
    [discount_price = unit_price * (1 - d / 100)], [d] being the Resolver's
    result for a group of [n], and its other columns as they were; and when
    [remainder > 0] it ends with one new active group of [target_count = n]
    and [current_count = remainder] holding the remaining orders, whose
    status, [discount_price] and other columns are as before. *)
Theorem rearrange_forms_complete_groups (now : Z) (db : DB) (product_id : Z)
    (product : Product.t) :
  well_formed db ->
  products_of_incomplete_groups_exist db ->
  get_product db product_id = Some product ->
  let groups := filter (of_product product_id) (get_incomplete_groups db) in
  let all_orders := sorted_orders db groups in
  let n := Product.min_group_size product in
  let total_orders := Z.of_nat (length all_orders) in
  let full := total_orders / n in
  let remainder := total_orders mod n in
  let d := get_discount_percentage product n in
  groups <> [] -> 0 < n -> n <= total_orders ->
  Permutation all_orders
    (flat_map (fun group => get_orders_by_group db (GroupBuy.id group)) groups)
  /\ StronglySorted not_after all_orders
  /\ exists results db' first_id,
       rearrange_incomplete_groups now db = inr (Rearrangements results, db')
       /\ group_buy_seq db <= first_id
       /\ (forall i, 0 <= i < full ->
             In (GroupBuy.mk (first_id + i) product_id n n false now) (group_buys db')
             /\ Z.of_nat (length (slice (i * n) (i * n + n) all_orders)) = n
             /\ forall o, In o (slice (i * n) (i * n + n) all_orders) ->
                  get_order db' (Order.id o)
                  = Some (Order.mk (Order.id o) (Order.buyer_id o) (first_id + i)
                                   (Order.quantity o) (Order.unit_price o)
                                   (Some (Order.unit_price o * (1 - d / 100))%Q)
                                   (Order.deposit_amount o) CONFIRMED
                                   (Order.created_at o)))
       /\ (0 < remainder ->
             In (GroupBuy.mk (first_id + full) product_id remainder n true now)
                (group_buys db')
             /\ Z.of_nat (length (skipn (Z.to_nat (full * n)) all_orders)) = remainder
             /\ forall o, In o (skipn (Z.to_nat (full * n)) all_orders) ->
                  get_order db' (Order.id o)
                  = Some (Order.mk (Order.id o) (Order.buyer_id o) (first_id + full)
                                   (Order.quantity o) (Order.unit_price o)
                                   (Order.discount_price o)
                                   (Order.deposit_amount o) (Order.status o)
                                   (Order.created_at o))).
Proof.
  intros Hwf Hproducts Hproduct groups all_orders n total_orders full remainder d
         Hsome Hn Hmany.
  split; [apply sort_by_perm|]. split; [apply sort_by_created_sorted|].
  pose proof (product_groups_entry db product_id Hsome) as Hentry.
  fold groups in Hentry.
  destruct (rearrange_products_returns now
              (group_by_product (get_incomplete_groups db)) db [])
    as (db' & results & Hrun).
  { intros k gs Hin. now apply (product_groups_products db k gs). }
  exists results, db'.
  assert (Hreply : rearrange_incomplete_groups now db = inr (Rearrangements results, db')).
  { unfold rearrange_incomplete_groups.
    destruct (get_incomplete_groups db) as [|g0 rest] eqn:Hinc.
    - exfalso. apply Hsome. unfold groups. try rewrite Hinc. reflexivity.
    - rewrite Hrun. reflexivity. }
  destruct (rearrange_products_split _ _ _ _ _ _ _ _ Hentry Hrun)
    as (before & after & db_b & results_b & db_a & results_a
        & Hsplit & Hbefore & Hround & Hafter).
  pose proof (other_rounds_apart db product_id groups before after Hwf Hsplit)
    as Hapart.
  pose proof (product_groups_unique_keys db product_id groups Hwf Hentry) as Hnd.
  set (mine := fun x => In x (map GroupBuy.id groups)).
  assert (Hprot_b : forall k gs g, In (k, gs) before -> In g gs ->
                               ~ mine (GroupBuy.id g)).
  { intros k gs g Hin Hg. apply (Hapart k gs g); auto. apply in_or_app. now left. }
  destruct (rearrange_products_frame mine now before db [] db_b results_b
              Hwf Hprot_b Hbefore)
    as (Hwf_b & Hp_b & Hs_b & _ & _ & Hq_b & _).
  assert (Hold : forall g, In g groups -> GroupBuy.id g < group_buy_seq db).
  { intros g Hg.
    destruct (product_groups_rows db product_id groups g Hentry Hg) as (Hrow & _).
    now apply (wf_group_seq _ Hwf). }
  assert (Hsame_b : sorted_orders db_b groups = all_orders).
  { apply sorted_orders_same. intros g Hg. apply Hq_b; [|now apply Hold].
    unfold mine. now apply in_map. }
  set (first_id := group_buy_seq db_b) in *.
  exists first_id. split; [exact Hreply|]. split; [exact Hs_b|].
  assert (Hfull : 0 < full).
  { unfold full. apply Z.lt_le_trans with (1 := Z.lt_0_1).
    apply Z.div_le_lower_bound; lia. }
  rewrite <- (get_product_same db db_b product_id Hp_b) in Hproduct.
  pose proof (rearrange_product_eq now db_b results_b product_id groups product
                Hproduct ltac:(fold n; lia)) as Heq.
  cbv zeta in Heq. rewrite Hsame_b in Heq.
  fold n total_orders full remainder d first_id in Heq.
  apply Z.ltb_lt in Hfull as Hfull'. rewrite Hfull' in Heq.
  destruct Heq as (db_x & Hround' & Horders & Hgroups & _).
  rewrite Hround in Hround'. inversion Hround'; subst db_x. clear Hround'.
  assert (Hfull_b : 0 < Z.of_nat (length (sorted_orders db_b groups))
                        / Product.min_group_size product)
    by (rewrite Hsame_b; exact Hfull).
  destruct (rearrange_product_frame (fun _ => False) now db_b results_b product_id
              groups db_a results_a Hwf_b ltac:(tauto) Hround) as (Hwf_a & _).
  set (fresh := fun x => first_id <= x).
  assert (Hprot_a : forall k gs g, In (k, gs) after -> In g gs ->
                               ~ fresh (GroupBuy.id g)).
  { intros k gs g0 Hin Hg0. unfold fresh.
    assert (GroupBuy.id g0 < group_buy_seq db); [|lia].
    apply (Hapart k gs g0); auto. apply in_or_app. now right. }
  destruct (rearrange_products_frame fresh now after db_a results_a db' results
              Hwf_a Hprot_a Hafter)
    as (Hwf' & _ & _ & Hg' & Ho' & _ & _).
  pose proof (round_division db groups product Hfull) as [Hdiv Hrem].
  fold all_orders n total_orders full remainder in Hdiv, Hrem.
  assert (Hkept : forall g, In g (new_groups now product_id n first_id full remainder) ->
                            In g (group_buys db')).
  { intros g Hin.
    destruct (new_groups_ids now product_id n first_id full remainder ltac:(lia))
      as [_ Hrange].
    apply Hrange in Hin as Hid. apply Hg'; [|unfold fresh; lia].
    rewrite Hgroups. apply in_map_iff. exists g. split.
    - apply close_in_outside. intros Hin'.
      apply in_map_iff in Hin' as (g' & E & Hin'). apply Hold in Hin'. lia.
    - apply in_or_app. now right. }
  assert (Hmoved : forall o F,
             In (o, F) (all_jobs first_id n d all_orders full remainder) ->
             first_id <= Order.group_buy_id (F o o) ->
             get_order db' (Order.id o) = Some (F o o)).
  { intros o F Hjob Hfresh.
    assert (Hrow : In (F o o) (orders db')).
    { apply Ho'; [|exact Hfresh]. rewrite Horders. apply in_map_iff. exists o. split.
      - pose proof (round_hit db_b groups product Hwf_b Hfull_b Hnd o F) as Hhit.
        rewrite Hsame_b in Hhit. apply Hhit. exact Hjob.
      - assert (Hin : In o all_orders).
        { rewrite <- (all_jobs_orders first_id n d all_orders Hn Hfull).
          apply in_map_iff. now exists (o, F). }
        rewrite <- Hsame_b in Hin. now apply sorted_orders_in in Hin. }
    rewrite <- (get_order_of_row db' (F o o) (wf_order_ids _ Hwf') Hrow).
    f_equal. symmetry.
    pose proof (all_jobs_keep_id first_id n d all_orders full remainder) as Hkeep.
    apply (proj1 (Forall_forall _ _) Hkeep (o, F) Hjob o o). }
  split.
  - intros i Hi. split; [|split].
    + apply Hkept. unfold new_groups. apply in_or_app. left.
      unfold complete_groups. apply in_map_iff. exists i. split; [reflexivity|].
      apply in_range. lia.
    + apply slice_length; nia.
    + intros o Hin.
      apply (Hmoved o (finalized (first_id + i) d)).
      * now apply in_complete_jobs.
      * simpl. lia.
  - intros Hpos. split; [|split].
    + apply Hkept. unfold new_groups. apply in_or_app. right.
      unfold remainder_groups. apply Z.ltb_lt in Hpos. rewrite Hpos. now left.
    + rewrite length_skipn. unfold total_orders in *. nia.
    + intros o Hin.
      apply (Hmoved o (moved (first_id + full))).
      * now apply in_remainder_jobs.
      * simpl. lia.
Qed.

Lemma rearrange_forms_complete_groups_witness :
  let all_orders :=
    sorted_orders store_ten_pending
      (filter (of_product 7) (get_incomplete_groups store_ten_pending)) in
  (exists results db' first_id,
     rearrange_incomplete_groups 100 store_ten_pending
     = inr (Rearrangements results, db')
     /\ 5 <= first_id
     /\ (forall i, 0 <= i < 2 ->
           In (GroupBuy.mk (first_id + i) 7 4 4 false 100) (group_buys db')
           /\ Z.of_nat (length (slice (i * 4) (i * 4 + 4) all_orders)) = 4
           /\ forall o, In o (slice (i * 4) (i * 4 + 4) all_orders) ->
                get_order db' (Order.id o)
                = Some (Order.mk (Order.id o) (Order.buyer_id o) (first_id + i)
                                 (Order.quantity o) (Order.unit_price o)
                                 (Some (Order.unit_price o * (1 - 10 / 100))%Q)
                                 (Order.deposit_amount o) CONFIRMED
                                 (Order.created_at o)))
     /\ (0 < 2 ->
           In (GroupBuy.mk (first_id + 2) 7 2 4 true 100) (group_buys db')
           /\ Z.of_nat (length (skipn (Z.to_nat (2 * 4)) all_orders)) = 2
           /\ forall o, In o (skipn (Z.to_nat (2 * 4)) all_orders) ->
                get_order db' (Order.id o)
                = Some (Order.mk (Order.id o) (Order.buyer_id o) (first_id + 2)
                                 (Order.quantity o) (Order.unit_price o)
                                 (Order.discount_price o)
                                 (Order.deposit_amount o) (Order.status o)
                                 (Order.created_at o))))
  /\ exists db',
       rearrange_incomplete_groups 100 store_ten_pending
       = inr (Rearrangements [NewCompleteGroup 7 5 4 10; NewCompleteGroup 7 6 4 10;
                              NewActiveGroup 7 7 2 4], db')
       /\ map (fun g => (GroupBuy.id g, GroupBuy.current_count g, GroupBuy.is_active g))
              (group_buys db')
          = [(1, 3, false); (2, 3, false); (3, 3, false); (4, 1, false);
             (5, 4, false); (6, 4, false); (7, 2, true)]
       /\ map (fun o => (Order.id o, Order.group_buy_id o, Order.status o,
                         Order.unit_price o,
                         option_map Qred (Order.discount_price o)))
              (orders db')
          = [(1, 7, PENDING, 50%Q, None); (2, 7, PENDING, 50%Q, None);
             (3, 6, CONFIRMED, 50%Q, Some 45%Q); (4, 6, CONFIRMED, 50%Q, Some 45%Q);
             (5, 6, CONFIRMED, 50%Q, Some 45%Q); (6, 6, CONFIRMED, 50%Q, Some 45%Q);
             (7, 5, CONFIRMED, 50%Q, Some 45%Q); (8, 5, CONFIRMED, 50%Q, Some 45%Q);
             (9, 5, CONFIRMED, 50%Q, Some 45%Q); (10, 5, CONFIRMED, 50%Q, Some 45%Q)].
Proof.
  intros all_orders. split.
  - apply (proj2 (proj2 (rearrange_forms_complete_groups 100 store_ten_pending 7
                           (Product.mk 7 50 4 10 [])
                           ltac:(well_formed_store)
                           ltac:(unfold products_of_incomplete_groups_exist; each_row;
                                 (eexists; split; [reflexivity|simpl; lia]))
                           eq_refl ltac:(discriminate) ltac:(simpl; lia)
                           ltac:(simpl; lia)))).
  - eexists. split; [vm_compute; reflexivity|]. split; reflexivity.
Defined.

(** ** Counts of active groups *)

Lemma query_of_all {Row} (keep : Row -> bool) (rows : list Row) :
  (forall row, In row rows -> keep row = true) -> filter keep rows = rows.
Proof.
  induction rows as [|row rows IH]; intros Hall; simpl; [reflexivity|].
  rewrite (Hall row (or_introl eq_refl)). f_equal. apply IH.
  intros row' Hin. apply Hall. now right.
Qed.

Lemma first_of_appended {Row} (test : Row -> bool) (rows : list Row) (row : Row) :
  (forall r, In r rows -> test r = false) -> test row = true ->
  find test (rows ++ [row]) = Some row.
Proof.
  induction rows as [|r rows IH]; intros Hall Hrow; simpl.
  - now rewrite Hrow.
  - rewrite (Hall r (or_introl eq_refl)). apply IH; [|exact Hrow].
    intros r' Hin. apply Hall. now right.
Qed.

Lemma get_group_buy_of_row (db : DB) (g : GroupBuy.t) :
  NoDup (map GroupBuy.id (group_buys db)) -> In g (group_buys db) ->
  get_group_buy db (GroupBuy.id g) = Some g.
Proof.
  intros Hnd Hin. unfold get_group_buy.
  destruct (find _ (group_buys db)) as [g'|] eqn:Hfind.
  - apply find_some in Hfind as [Hin' E]. apply Z.eqb_eq in E.
    f_equal. eapply unique_keys_same_row; eauto.
  - exfalso. apply (find_none _ _ Hfind) in Hin. rewrite Z.eqb_refl in Hin.
    discriminate.
Qed.

Lemma unique_keys_appended {Row} (key : Row -> Z) (rows : list Row) (row : Row) :
  NoDup (map key rows) -> (forall r, In r rows -> key r < key row) ->
  NoDup (map key (rows ++ [row])).
Proof.
  intros Hnd Hbelow. rewrite map_app. apply NoDup_app; [exact Hnd| |].
  - repeat constructor. intros [].
  - intros k Hk [<-|[]]. apply in_map_iff in Hk as (r & E & Hr).
    apply Hbelow in Hr. lia.
Qed.

Lemma get_or_create_active_group_buy_counted now db product_id g db1 :
  well_formed db -> counted db ->
  get_or_create_active_group_buy now db product_id = inr (g, db1) ->
  well_formed db1 /\ counted db1
  /\ In g (group_buys db1) /\ GroupBuy.is_active g = true
  /\ products db1 = products db.
Proof.
  intros Hwf Hcounted. unfold get_or_create_active_group_buy.
  destruct (get_active_group_buy db product_id) as [found|] eqn:Hfind.
  { intros H. inversion H; subst. unfold get_active_group_buy in Hfind.
    apply find_some in Hfind as [Hin Hactive].
    apply andb_prop in Hactive as [_ Hactive]. auto. }
  destruct (get_product db product_id) as [product|]; [|discriminate].
  intros H. inversion H; subst. clear H. simpl.
  split; [|split; [|split; [|split]]]; auto.
  - constructor; simpl.
    + apply unique_keys_appended; [apply Hwf|]. simpl. apply Hwf.
    + intros g Hg. apply in_app_or in Hg as [Hg|[<-|[]]]; simpl; [|lia].
      apply (wf_group_seq _ Hwf) in Hg. lia.
    + apply Hwf.
    + apply Hwf.
    + intros o Ho. apply (wf_order_group _ Hwf) in Ho. lia.
  - intros g Hg Hactive. unfold get_orders_by_group. simpl.
    apply in_app_or in Hg as [Hg|[<-|[]]].
    + now apply Hcounted.
    + simpl. rewrite query_of_none.
      * split; [reflexivity|]. intros o [].
      * intros o Ho. apply (wf_order_group _ Hwf) in Ho. apply Z.eqb_neq. lia.
  - apply in_or_app. right. now left.
Qed.

(** The webhook's new order, counted in by [process_new_order]. *)
Lemma count_in_counted now db1 g buyer_id unit_price deposit_amount message
    reply db' :
  well_formed db1 -> counted db1 ->
  In g (group_buys db1) -> GroupBuy.is_active g = true ->
  let order := Order.mk (order_seq db1) buyer_id (GroupBuy.id g) 1 unit_price None
                        deposit_amount PENDING now in
  let db2 := send_message buyer_id message
               (mkDB (products db1) (group_buys db1) (orders db1 ++ [order])
                     (group_buy_seq db1) (order_seq db1 + 1) (outbox db1)) in
  process_new_order now db2 (order_seq db1) = inr (reply, db') ->
  well_formed db' /\ counted db'.
Proof.
  intros Hwf Hcounted Hg Hactive order db2 Hrun.
  assert (Hnd2 : NoDup (map Order.id (orders db2))).
  { simpl. apply unique_keys_appended; [apply Hwf|]. simpl. apply Hwf. }
  assert (Horder : get_order db2 (order_seq db1) = Some order).
  { unfold get_order. simpl. apply first_of_appended.
    - intros r Hr. apply (wf_order_seq _ Hwf) in Hr. apply Z.eqb_neq. lia.
    - simpl. apply Z.eqb_refl. }
  assert (Hgroup : get_group_buy db2 (Order.group_buy_id order) = Some g).
  { apply (get_group_buy_of_row db1 g); [apply Hwf|exact Hg]. }
  destruct (Hcounted g Hg Hactive) as [Hcount Hlive].
  assert (Hother : forall g0, In g0 (group_buys db1) ->
                     GroupBuy.id g0 <> GroupBuy.id g ->
                     filter (fun o => Order.group_buy_id o =? GroupBuy.id g0)
                            (orders db1 ++ [order])
                     = get_orders_by_group db1 (GroupBuy.id g0)).
  { intros g0 _ Hne. rewrite filter_app. simpl.
    apply Z.neq_sym, Z.eqb_neq in Hne. rewrite Hne. apply app_nil_r. }
  assert (Hwf_orders : forall db3,
             group_buy_seq db3 = group_buy_seq db1 ->
             order_seq db3 = order_seq db1 + 1 ->
             (exists f, (forall x, GroupBuy.id (f x) = GroupBuy.id x)
                        /\ group_buys db3 = map f (group_buys db1)) ->
             (exists h, (forall x, Order.id (h x) = Order.id x
                                   /\ Order.group_buy_id (h x) = Order.group_buy_id x)
                        /\ orders db3 = map h (orders db1 ++ [order])) ->
             well_formed db3).
  { intros db3 Hgs Hos (f & Hf & Hfg) (h & Hh & Hho). constructor.
    - rewrite Hfg, map_map. erewrite map_ext by apply Hf. apply Hwf.
    - intros x Hx. rewrite Hfg in Hx. apply in_map_iff in Hx as (x0 & <- & Hx).
      rewrite Hf, Hgs. now apply (wf_group_seq _ Hwf).
    - rewrite Hho, map_order_id_map; [exact Hnd2|]. intros x. apply Hh.
    - intros x Hx. rewrite Hho in Hx. apply in_map_iff in Hx as (x0 & <- & Hx).
      destruct (Hh x0) as [-> _]. rewrite Hos.
      apply in_app_or in Hx as [Hx|[<-|[]]]; simpl; [|lia].
      apply (wf_order_seq _ Hwf) in Hx. lia.
    - intros x Hx. rewrite Hho in Hx. apply in_map_iff in Hx as (x0 & <- & Hx).
      destruct (Hh x0) as [_ ->]. rewrite Hgs.
      apply in_app_or in Hx as [Hx|[<-|[]]]; simpl.
      + now apply (wf_order_group _ Hwf).
      + now apply (wf_group_seq _ Hwf). }
  destruct (get_product db2 (GroupBuy.product_id g)) as [product|] eqn:Hproduct.
  2:{ unfold process_new_order in Hrun. rewrite Horder, Hgroup, Hproduct in Hrun.
      discriminate. }
  destruct (Z_le_gt_dec (GroupBuy.target_count g) (GroupBuy.current_count g + 1))
    as [Hfull|Hless].
  - destruct (process_new_order_completes_eq now db2 (order_seq db1) order g product
                Hnd2 Horder Hgroup Hproduct Hfull)
      as (db'' & Hrun' & Hgroups & Horders & _ & Hgs & Hos).
    rewrite Hrun in Hrun'. inversion Hrun'; subst db''. clear Hrun'.
    simpl in Hgroups, Horders, Hgs, Hos. split.
    + apply Hwf_orders; auto.
      * eexists. split; [|exact Hgroups]. intros x. simpl.
        now destruct (GroupBuy.id x =? GroupBuy.id g).
      * eexists. split; [|exact Horders]. intros x. simpl.
        now destruct (Order.group_buy_id x =? GroupBuy.id g).
    + intros g' Hg' Hactive'. rewrite Hgroups in Hg'.
      apply in_map_iff in Hg' as (g0 & <- & Hg0).
      destruct (Z.eqb_spec (GroupBuy.id g0) (GroupBuy.id g)) as [E|E];
        [discriminate|].
      unfold get_orders_by_group. rewrite Horders.
      rewrite query_after_rewrite.
      * rewrite (Hother g0 Hg0 E). now apply Hcounted.
      * intros r _. simpl.
        destruct (Z.eqb_spec (Order.group_buy_id r) (GroupBuy.id g)) as [Er|Er];
          simpl; split; auto.
        intros Ek. apply Z.eqb_eq in Ek. congruence.
  - unfold process_new_order in Hrun. rewrite Horder, Hgroup, Hproduct in Hrun.
    cbv zeta in Hrun.
    replace (GroupBuy.target_count g <=? GroupBuy.current_count g + 1) with false
      in Hrun by (symmetry; apply Z.leb_gt; lia).
    inversion Hrun; subst. clear Hrun. split.
    + apply Hwf_orders; simpl; auto.
      * eexists. split; [|reflexivity]. intros x. simpl.
        now destruct (GroupBuy.id x =? GroupBuy.id g).
      * exists (fun x => x). split; [auto|]. symmetry. apply map_id.
    + intros g' Hg' Hactive'. simpl in Hg'.
      apply in_map_iff in Hg' as (g0 & <- & Hg0).
      unfold get_orders_by_group. simpl orders.
      destruct (Z.eqb_spec (GroupBuy.id g0) (GroupBuy.id g)) as [E|E].
      * assert (g0 = g) by (eapply unique_keys_same_row; eauto using wf_group_ids).
        subst g0. simpl. rewrite filter_app. simpl. rewrite Z.eqb_refl.
        rewrite length_app. simpl. fold (get_orders_by_group db1 (GroupBuy.id g)).
        split; [lia|].
        intros o Ho. apply in_app_or in Ho as [Ho|[<-|[]]]; [now apply Hlive|].
        reflexivity.
      * rewrite (Hother g0 Hg0 E). now apply Hcounted.
Qed.

Lemma join_counted now db product_id buyer_id result db' :
  well_formed db -> counted db ->
  join now db product_id buyer_id = inr (result, db') ->
  well_formed db' /\ counted db'.
Proof.
  intros Hwf Hcounted. unfold join, process_bale_update_join_group.
  destruct (get_or_create_active_group_buy now db product_id)
    as [e|[g db1]] eqn:Hgroup; [discriminate|].
  destruct (get_or_create_active_group_buy_counted _ _ _ _ _ Hwf Hcounted Hgroup)
    as (Hwf1 & Hcounted1 & Hg & Hactive & _).
  destruct (get_product db1 product_id) as [product|]; [|discriminate].
  simpl.
  match goal with
  | |- context [process_new_order now ?db2 ?oid] =>
      destruct (process_new_order now db2 oid) as [e|[reply db'']] eqn:Hrun;
        [discriminate|]
  end.
  intros H. inversion H; subst. clear H.
  eapply (count_in_counted now db1 g); eauto.
Qed.

(** *** The sweep keeps the counts of the groups that stay active *)

Lemma expire_group_returned (now : Z) (db : DB) (group : GroupBuy.t) (db1 : DB) :
  NoDup (map Order.id (orders db)) ->
  expire_group now db group = inr db1 ->
  orders db1 = map (cancel_in [GroupBuy.id group]) (orders db)
  /\ group_buys db1 = map (close_in now [GroupBuy.id group]) (group_buys db)
  /\ products db1 = products db
  /\ group_buy_seq db1 = group_buy_seq db
  /\ order_seq db1 = order_seq db.
Proof.
  intros Hnd Hrun. unfold expire_group in Hrun.
  set (linked := get_orders_by_group db (GroupBuy.id group)) in *.
  assert (db1 = update_group_buy (GroupBuy.id group)
                  (GroupBuy.set_is_active now false)
                  (fold_left cancel_order linked db)).
  { destruct linked; [now inversion Hrun|].
    destruct (get_product db (GroupBuy.product_id group));
      [now inversion Hrun|discriminate]. }
  subst db1. clear Hrun.
  destruct (order_step_fold _ _ cancel_order_step linked db)
    as (Ho & Hg & Hp & Hgs & Hos).
  simpl. rewrite Ho, Hg, Hp, Hgs, Hos. repeat split.
  - unfold linked, get_orders_by_group.
    rewrite (apply_updates_filter cancelled
               (fun o => Order.group_buy_id o =? GroupBuy.id group)); auto.
    apply map_ext. intros o. unfold cancel_in, id_in. simpl.
    now rewrite orb_false_r.
  - apply map_ext. intros g. unfold close_in, id_in. simpl.
    now rewrite orb_false_r.
Qed.

Lemma cancel_in_keeps group_ids o :
  Order.id (cancel_in group_ids o) = Order.id o
  /\ Order.group_buy_id (cancel_in group_ids o) = Order.group_buy_id o.
Proof. unfold cancel_in. now destruct (id_in _ _). Qed.

Lemma expire_group_counted now db group db1 :
  well_formed db -> counted db -> expire_group now db group = inr db1 ->
  well_formed db1 /\ counted db1.
Proof.
  intros Hwf Hcounted Hrun.
  destruct (expire_group_returned now db group db1 (wf_order_ids _ Hwf) Hrun)
    as (Ho & Hg & Hp & Hgs & Hos).
  split.
  - constructor.
    + rewrite Hg, map_map. erewrite map_ext by (intros; apply close_in_id).
      apply Hwf.
    + intros g Hin. rewrite Hg in Hin. apply in_map_iff in Hin as (g0 & <- & Hin).
      rewrite close_in_id, Hgs. now apply (wf_group_seq _ Hwf).
    + rewrite Ho, map_order_id_map; [apply Hwf|]. intros o. apply cancel_in_keeps.
    + intros o Hin. rewrite Ho in Hin. apply in_map_iff in Hin as (o0 & <- & Hin).
      destruct (cancel_in_keeps [GroupBuy.id group] o0) as [-> _].
      rewrite Hos. now apply (wf_order_seq _ Hwf).
    + intros o Hin. rewrite Ho in Hin. apply in_map_iff in Hin as (o0 & <- & Hin).
      destruct (cancel_in_keeps [GroupBuy.id group] o0) as [_ ->].
      rewrite Hgs. now apply (wf_order_group _ Hwf).
  - intros g' Hin Hactive. rewrite Hg in Hin.
    apply in_map_iff in Hin as (g0 & <- & Hin).
    destruct (close_in_active _ _ _ Hactive) as [Esame Eout].
    rewrite Esame in *. unfold get_orders_by_group. rewrite Ho.
    rewrite query_after_rewrite; [now apply Hcounted|].
    intros r _. destruct (cancel_in_keeps [GroupBuy.id group] r) as [_ Egroup].
    rewrite Egroup. split; [reflexivity|].
    intros E. apply Z.eqb_eq in E. unfold cancel_in. now rewrite E, Eout.
Qed.

Lemma expire_groups_counted now expired_groups :
  forall db db1,
    well_formed db -> counted db ->
    expire_groups now expired_groups db = inr db1 ->
    well_formed db1 /\ counted db1.
Proof.
  induction expired_groups as [|group rest IH]; intros db db1 Hwf Hcounted Hrun;
    simpl in Hrun.
  - inversion Hrun; subst. auto.
  - destruct (expire_group now db group) as [e|dba] eqn:Hone; [discriminate|].
    destruct (expire_group_counted _ _ _ _ Hwf Hcounted Hone) as [Hwfa Hcounteda].
    now apply (IH dba db1).
Qed.

(** *** The rearrangement keeps the counts of the groups that stay active *)

Lemma unique_rows_counted (table part : list Order.t) (chosen : Order.t -> bool) :
  NoDup (map Order.id table) -> NoDup (map Order.id part) ->
  (forall r, In r table -> (chosen r = true <-> In r part)) ->
  (forall r, In r part -> In r table) ->
  length (filter chosen table) = length part.
Proof.
  intros Htable Hpart Hchosen Hincl.
  apply Permutation_length, NoDup_Permutation.
  - apply NoDup_filter. now apply NoDup_map_inv in Htable.
  - now apply NoDup_map_inv in Hpart.
  - intros r. rewrite filter_In. split.
    + intros [Hr Hc]. now apply Hchosen.
    + intros Hr. split; [now apply Hincl|]. apply Hchosen; auto.
Qed.

Lemma skipn_unique_keys {Row} (key : Row -> Z) (k : nat) (rows : list Row) :
  NoDup (map key rows) -> NoDup (map key (skipn k rows)).
Proof.
  intros Hnd. rewrite <- (firstn_skipn k rows), map_app in Hnd.
  now apply NoDup_app_remove_l in Hnd.
Qed.

Lemma rearrange_product_counted now db results k groups db1 results1 :
  well_formed db -> counted db ->
  NoDup (map GroupBuy.id groups) ->
  (forall g, In g groups -> alive db g) ->
  rearrange_product now (db, results) (k, groups) = inr (db1, results1) ->
  counted db1.
Proof.
  intros Hwf Hcounted Hnd Halive Hrun.
  assert (Hapart : forall g, In g groups ->
                     ~ (fun x => ~ In x (map GroupBuy.id groups)) (GroupBuy.id g)).
  { intros g Hin Hout. apply Hout. now apply in_map. }
  destruct (rearrange_product_frame
              (fun x => ~ In x (map GroupBuy.id groups)) now db results k groups
              db1 results1 Hwf Hapart Hrun) as (_ & _ & _ & _ & _ & Hsame & _).
  destruct (rearrange_product_returns _ _ _ _ _ _ Hrun) as (product & Hp & Hn).
  pose proof (rearrange_product_eq now db results k groups product Hp Hn) as Heq.
  cbv zeta in Heq.
  destruct (0 <? _) eqn:Hfull.
  2:{ rewrite Hrun in Heq. inversion Heq; subst. exact Hcounted. }
  apply Z.ltb_lt in Hfull.
  destruct Heq as (db' & Hrun' & Ho & Hg & _).
  rewrite Hrun in Hrun'. inversion Hrun'; subst db' results1. clear Hrun'.
  pose proof (round_division db groups product Hfull) as [Hdiv Hrem].
  pose proof (round_positive db groups product Hfull) as Hpos.
  pose proof (round_miss db groups product Hwf Hfull) as Hmiss.
  pose proof (round_complete db groups product Hwf Hfull Hnd) as Hcomplete.
  pose proof (round_remainder db groups product Hwf Hfull Hnd) as Hremainder.
  pose proof (sorted_orders_unique_keys db groups (wf_order_ids _ Hwf) Hnd) as Hkeys.
  set (n := Product.min_group_size product) in *.
  set (d := get_discount_percentage product n) in *.
  set (all_orders := sorted_orders db groups) in *.
  set (full := Z.of_nat (length all_orders) / n) in *.
  set (rem := Z.of_nat (length all_orders) mod n) in *.
  set (seq0 := group_buy_seq db) in *.
  set (G := apply_jobs (all_jobs seq0 n d all_orders full rem)) in *.
  set (remaining := skipn (Z.to_nat (full * n)) all_orders) in *.
  intros g' Hin' Hactive'. rewrite Hg in Hin'.
  apply in_map_iff in Hin' as (g0 & <- & Hin0).
  destruct (close_in_active _ _ _ Hactive') as [Esame Eout].
  rewrite Esame in *.
  assert (Hout : ~ In (GroupBuy.id g0) (map GroupBuy.id groups)).
  { intros Hin. apply id_in_iff in Hin. congruence. }
  apply in_app_or in Hin0 as [Hin0|Hin0].
  { rewrite Hsame; [now apply Hcounted|exact Hout|now apply (wf_group_seq _ Hwf)]. }
  unfold new_groups in Hin0. apply in_app_or in Hin0 as [Hin0|Hin0].
  { apply in_map_iff in Hin0 as (i & <- & _). discriminate. }
  unfold remainder_groups in Hin0.
  destruct (0 <? rem) eqn:Hrem_pos; [|destruct Hin0].
  destruct Hin0 as [<-|[]]. simpl. apply Z.ltb_lt in Hrem_pos.
  assert (Hsplit : forall r, In r all_orders ->
             (exists i, 0 <= i < full /\ In r (slice (i * n) (i * n + n) all_orders))
             \/ In r remaining).
  { intros r Hr. rewrite <- (firstn_skipn (Z.to_nat (full * n)) all_orders) in Hr.
    apply in_app_or in Hr as [Hr|Hr]; [left|now right].
    replace (Z.to_nat (full * n)) with (Z.to_nat full * Z.to_nat n)%nat in Hr by nia.
    rewrite <- (slices_concat n all_orders (Z.to_nat full)) in Hr by lia.
    apply in_flat_map in Hr as (i & Hi & Hr). apply in_range in Hi.
    exists i. split; [lia|exact Hr]. }
  assert (Hchosen : forall r, In r (orders db) ->
             (Order.group_buy_id (G r) =? seq0 + full) = true <-> In r remaining).
  { intros r Hr. rewrite Z.eqb_eq. split.
    - intros E.
      destruct (in_dec Z.eq_dec (Order.group_buy_id r) (map GroupBuy.id groups))
        as [Hmine|Hother].
      + assert (Hall : In r all_orders) by (apply sorted_orders_in; auto).
        destruct (Hsplit r Hall) as [(i & Hi & Hslice)|Hrest]; [|exact Hrest].
        rewrite (Hcomplete i r Hi Hslice) in E. simpl in E. lia.
      + rewrite (Hmiss r Hr Hother) in E.
        apply (wf_order_group _ Hwf) in Hr. fold seq0 in Hr. lia.
    - intros Hrest. now rewrite (Hremainder r Hrem_pos Hrest). }
  assert (Hincl : forall r, In r remaining -> In r (orders db)).
  { intros r Hr. apply in_skipn in Hr. now apply sorted_orders_in in Hr. }
  unfold get_orders_by_group. rewrite Ho, filter_map_swap. split.
  - rewrite length_map.
    rewrite (unique_rows_counted (orders db) remaining); auto.
    + unfold remaining. rewrite length_skipn. nia.
    + apply Hwf.
    + now apply skipn_unique_keys.
  - intros o' Hin'. apply in_map_iff in Hin' as (r & <- & Hr).
    apply filter_In in Hr as [Hr Hc]. apply Hchosen in Hc; [|exact Hr].
    fold G. rewrite (Hremainder r Hrem_pos Hc). unfold moved, not_cancelled. simpl.
    apply in_skipn, sorted_orders_in in Hc as [_ Hgroup].
    apply in_map_iff in Hgroup as (g & E & Hgin).
    destruct (Halive g Hgin) as (row & Hrow & Eid & Hact).
    destruct (Hcounted row Hrow Hact) as [_ Hlive].
    apply (Hlive r). apply filter_In. split; [exact Hr|].
    apply Z.eqb_eq. congruence.
Qed.

Lemma rearrange_products_counted now product_groups :
  forall db results db' results',
    well_formed db -> counted db ->
    NoDup (map GroupBuy.id (concat (map snd product_groups))) ->
    (forall g, In g (concat (map snd product_groups)) -> alive db g) ->
    rearrange_products now product_groups (db, results) = inr (db', results') ->
    well_formed db' /\ counted db'.
Proof.
  induction product_groups as [|[k groups] rest IH];
    intros db results db' results' Hwf Hcounted Hnd Halive Hrun;
    cbn [rearrange_products] in Hrun.
  - inversion Hrun; subst. auto.
  - destruct (rearrange_product now (db, results) (k, groups))
      as [e|[db1 results1]] eqn:Hround; [discriminate|].
    simpl in Hnd, Halive. rewrite map_app in Hnd.
    assert (Hnd_head : NoDup (map GroupBuy.id groups))
      by (now apply NoDup_app_remove_r in Hnd).
    assert (Hnd_rest : NoDup (map GroupBuy.id (concat (map snd rest))))
      by (now apply NoDup_app_remove_l in Hnd).
    assert (Hapart : forall g, In g (concat (map snd rest)) ->
                       ~ In (GroupBuy.id g) (map GroupBuy.id groups)).
    { intros g Hg Hin. apply in_map_iff in Hin as (g1 & E & Hg1).
      apply (in_map GroupBuy.id) in Hg. apply (in_map GroupBuy.id) in Hg1.
      rewrite E in Hg1. clear -Hnd Hg Hg1.
      induction (map GroupBuy.id groups) as [|x l IH]; [destruct Hg1|].
      simpl in Hnd. inversion Hnd as [|? ? Hnew Hnd']; subst.
      destruct Hg1 as [->|Hg1]; [|now apply IH].
      apply Hnew. apply in_or_app. now right. }
    assert (Hprot : forall g, In g groups ->
                      ~ (fun x => ~ In x (map GroupBuy.id groups)) (GroupBuy.id g)).
    { intros g Hin Hout. apply Hout. now apply in_map. }
    destruct (rearrange_product_frame
                (fun x => ~ In x (map GroupBuy.id groups)) now db results k groups
                db1 results1 Hwf Hprot Hround) as (Hwf1 & _ & _ & Hkept & _).
    assert (Hcounted1 : counted db1).
    { apply (rearrange_product_counted now db results k groups db1 results1); auto.
      intros g Hg. apply Halive. apply in_or_app. now left. }
    apply (IH db1 results1 db' results'); auto.
    intros g Hg.
    destruct (Halive g (in_or_app _ _ _ (or_intror Hg))) as (row & Hrow & Eid & Hact).
    exists row. repeat split; auto.
    apply Hkept; [exact Hrow|]. rewrite Eid. now apply Hapart.
Qed.

Lemma rearrange_incomplete_groups_counted now db reply db' :
  well_formed db -> counted db ->
  rearrange_incomplete_groups now db = inr (reply, db') ->
  well_formed db' /\ counted db'.
Proof.
  intros Hwf Hcounted Hrun. unfold rearrange_incomplete_groups in Hrun.
  destruct (get_incomplete_groups db) as [|g0 rest] eqn:Hinc.
  { inversion Hrun; subst. auto. }
  rewrite <- Hinc in Hrun.
  destruct (rearrange_products now _ (db, [])) as [e|[db1 results]] eqn:Hloop;
    [discriminate|].
  inversion Hrun; subst. clear Hrun.
  destruct (group_by_product_grouped (get_incomplete_groups db))
    as (_ & _ & _ & Hperm).
  apply (rearrange_products_counted now
           (group_by_product (get_incomplete_groups db)) db [] db' results Hwf Hcounted);
    [| |exact Hloop].
  - eapply Permutation_NoDup.
    + apply Permutation_map. symmetry. exact Hperm.
    + unfold get_incomplete_groups. apply unique_keys_filter, Hwf.
  - intros g Hg. apply (Permutation_in _ Hperm) in Hg.
    apply filter_In in Hg as [Hg Hinc']. exists g. repeat split; auto.
    unfold incomplete in Hinc'. now apply andb_prop in Hinc' as [-> _].
Qed.

(** *** Sequences of joins, rearrangements and sweeps *)

Lemma run_step_counted now step db db' :
  well_formed db -> counted db -> run_step now step db = inr db' ->
  well_formed db' /\ counted db'.
Proof.
  intros Hwf Hcounted. destruct step as [k buyer| |]; simpl; unfold state_after.
  - destruct (join now db k buyer) as [e|[result db1]] eqn:Hrun; [discriminate|].
    intros H. inversion H; subst. eapply join_counted; eauto.
  - destruct (rearrange_incomplete_groups now db) as [e|[reply db1]] eqn:Hrun;
      [discriminate|].
    intros H. inversion H; subst. eapply rearrange_incomplete_groups_counted; eauto.
  - unfold check_expired_groups.
    destruct (get_expired_groups db (now - timedelta_days 7)) as [|g0 rest] eqn:Hexp.
    { intros H. inversion H; subst. auto. }
    rewrite <- Hexp.
    destruct (expire_groups now _ db) as [e|db1] eqn:Hloop; [discriminate|].
    destruct (rearrange_incomplete_groups now db1) as [e|[reply db2]] eqn:Hrun;
      [discriminate|].
    intros H. inversion H; subst.
    destruct (expire_groups_counted _ _ _ _ Hwf Hcounted Hloop) as [Hwf1 Hcounted1].
    eapply rearrange_incomplete_groups_counted; eauto.
Qed.

(** C4, as stated, fails after a sweep: buyer 101 joins product 7 (one of
    four), the group goes stale and is swept.  Its order is CANCELLED, yet the
    group row, now inactive, still has [current_count = 1]. *)
Lemma current_count_after_sweep_counterexample :
  exists db' group,
    run_steps [(0, Join 7 101); (timedelta_days 8, Sweep)]
              (mkDB [Product.mk 7 50 4 10 []] [] [] 1 1 []) = inr db'
    /\ get_group_buy db' 1 = Some group
    /\ GroupBuy.is_active group = false
    /\ GroupBuy.current_count group = 1
    /\ get_orders_by_group db' 1
       = [Order.mk 1 101 1 1 50 None (50 * (1 # 10)) CANCELLED 0]
    /\ Z.of_nat (length (non_cancelled_orders db' 1)) = 0
    /\ GroupBuy.current_count group
       <> Z.of_nat (length (non_cancelled_orders db' (GroupBuy.id group))).
Proof.
  do 2 eexists. split; [vm_compute; reflexivity|].
  split; [reflexivity|]. split; [reflexivity|]. split; [reflexivity|].
  split; [reflexivity|]. split; [reflexivity|]. discriminate.
Qed.

(** C4, amended.  Take a well-formed state in which every active group counts
    the orders linked to it, none of them cancelled (a store without groups
    and orders is one).  After every sequence of joins (the order created by
    the callback and counted in by [process_new_order]), rearrangements and
    sweeps, each of which returns, the state is again such: the
    [current_count] of every active group is the number of orders pointing at
    it whose status is not CANCELLED.  This holds at every point of the
    sequence, each point being the end of a shorter sequence. *)
Theorem active_groups_count_their_orders (steps : list (Z * Step)) (db db' : DB) :
  well_formed db -> counted db ->
  run_steps steps db = inr db' ->
  (well_formed db' /\ counted db')
  /\ (forall g, In g (group_buys db') -> GroupBuy.is_active g = true ->
        GroupBuy.current_count g
        = Z.of_nat (length (non_cancelled_orders db' (GroupBuy.id g))))
  /\ (forall product_id g,
        get_active_group_buy db' product_id = Some g ->
        GroupBuy.current_count g
        = Z.of_nat (length (non_cancelled_orders db' (GroupBuy.id g)))).
Proof.
  intros Hwf Hcounted Hrun.
  assert (Hinv : well_formed db' /\ counted db').
  { revert db Hwf Hcounted Hrun.
    induction steps as [|[now step] steps IH]; intros db Hwf Hcounted Hrun;
      simpl in Hrun.
    - inversion Hrun; subst. auto.
    - destruct (run_step now step db) as [e|db1] eqn:Hstep; [discriminate|].
      destruct (run_step_counted _ _ _ _ Hwf Hcounted Hstep) as [Hwf1 Hcounted1].
      now apply (IH db1). }
  split; [exact Hinv|].
  destruct Hinv as [Hwf' Hcounted'].
  assert (Hclaim : forall g, In g (group_buys db') -> GroupBuy.is_active g = true ->
             GroupBuy.current_count g
             = Z.of_nat (length (non_cancelled_orders db' (GroupBuy.id g)))).
  { intros g Hg Hactive. destruct (Hcounted' g Hg Hactive) as [Hcount Hlive].
    unfold non_cancelled_orders. now rewrite query_of_all. }
  split; [exact Hclaim|].
  intros product_id g Hfind. unfold get_active_group_buy in Hfind.
  apply find_some in Hfind as [Hg Hactive].
  apply andb_prop in Hactive as [_ Hactive]. now apply Hclaim.
Qed.

Lemma active_groups_count_their_orders_witness :
  exists db',
    run_steps [(0, Join 7 101); (1, Join 7 102); (2, Join 1 11); (3, Rearrange);
               (4, Join 1 12); (5, Join 1 13); (timedelta_days 8, Sweep)]
              (mkDB [Product.mk 7 50 4 10 []; product_tiered] [] [] 1 1 []) = inr db'
    /\ forall g, In g (group_buys db') -> GroupBuy.is_active g = true ->
         GroupBuy.current_count g
         = Z.of_nat (length (non_cancelled_orders db' (GroupBuy.id g))).
Proof.
  eexists. split; [vm_compute; reflexivity|].
  apply (active_groups_count_their_orders
           [(0, Join 7 101); (1, Join 7 102); (2, Join 1 11); (3, Rearrange);
            (4, Join 1 12); (5, Join 1 13); (timedelta_days 8, Sweep)]
           (mkDB [Product.mk 7 50 4 10 []; product_tiered] [] [] 1 1 [])).
  - well_formed_store.
  - intros g [].
  - vm_compute. reflexivity.
Defined.

(** ** A finalized order is not finalized again

    The steps are those of the counts: a join counts its order in before the
    next step runs. *)

Lemma prices_kept_refl db : prices_kept db db.
Proof. intros o p Hin Hp. eauto. Qed.

Lemma prices_kept_trans db1 db2 db3 :
  prices_kept db1 db2 -> prices_kept db2 db3 -> prices_kept db1 db3.
Proof.
  intros H12 H23 o p Hin Hp.
  destruct (H12 o p Hin Hp) as (o2 & Hin2 & Eid2 & Hp2).
  destruct (H23 o2 p Hin2 Hp2) as (o3 & Hin3 & Eid3 & Hp3).
  exists o3. repeat split; auto. congruence.
Qed.

(** The state after the webhook's new order was counted in: the group of key
    [id g] completed, or it counts one more order. *)
Lemma count_in_eq now db1 g buyer_id unit_price deposit_amount message reply db' :
  well_formed db1 -> In g (group_buys db1) ->
  let order := Order.mk (order_seq db1) buyer_id (GroupBuy.id g) 1 unit_price None
                        deposit_amount PENDING now in
  let db2 := send_message buyer_id message
               (mkDB (products db1) (group_buys db1) (orders db1 ++ [order])
                     (group_buy_seq db1) (order_seq db1 + 1) (outbox db1)) in
  let final_count := GroupBuy.current_count g + 1 in
  process_new_order now db2 (order_seq db1) = inr (reply, db') ->
  group_buy_seq db' = group_buy_seq db1
  /\ order_seq db' = order_seq db1 + 1
  /\ ((exists discount,
         group_buys db'
         = map (fun x => if GroupBuy.id x =? GroupBuy.id g
                         then GroupBuy.set_is_active now false
                                (GroupBuy.set_current_count now final_count x)
                         else x) (group_buys db1)
         /\ orders db'
            = map (fun o => if Order.group_buy_id o =? GroupBuy.id g
                            then confirmed discount o o else o)
                  (orders db1 ++ [order]))
      \/ (group_buys db'
          = map (fun x => if GroupBuy.id x =? GroupBuy.id g
                          then GroupBuy.set_current_count now final_count x
                          else x) (group_buys db1)
          /\ orders db' = orders db1 ++ [order])).
Proof.
  intros Hwf Hg order db2 final_count Hrun.
  assert (Hnd2 : NoDup (map Order.id (orders db2))).
  { simpl. apply unique_keys_appended; [apply Hwf|]. simpl. apply Hwf. }
  assert (Horder : get_order db2 (order_seq db1) = Some order).
  { unfold get_order. simpl. apply first_of_appended.
    - intros r Hr. apply (wf_order_seq _ Hwf) in Hr. apply Z.eqb_neq. lia.
    - simpl. apply Z.eqb_refl. }
  assert (Hgroup : get_group_buy db2 (Order.group_buy_id order) = Some g).
  { apply (get_group_buy_of_row db1 g); [apply Hwf|exact Hg]. }
  destruct (get_product db2 (GroupBuy.product_id g)) as [product|] eqn:Hproduct.
  2:{ unfold process_new_order in Hrun. rewrite Horder, Hgroup, Hproduct in Hrun.
      discriminate. }
  destruct (Z_le_gt_dec (GroupBuy.target_count g) (GroupBuy.current_count g + 1))
    as [Hfull|Hless].
  - destruct (process_new_order_completes_eq now db2 (order_seq db1) order g product
                Hnd2 Horder Hgroup Hproduct Hfull)
      as (db'' & Hrun' & Hgroups & Horders & _ & Hgs & Hos).
    rewrite Hrun in Hrun'. inversion Hrun'; subst db''. clear Hrun'.
    simpl in Hgroups, Horders, Hgs, Hos.
    split; [exact Hgs|]. split; [exact Hos|]. left. eauto.
  - unfold process_new_order in Hrun. rewrite Horder, Hgroup, Hproduct in Hrun.
    cbv zeta in Hrun.
    replace (GroupBuy.target_count g <=? GroupBuy.current_count g + 1) with false
      in Hrun by (symmetry; apply Z.leb_gt; lia).
    inversion Hrun; subst. simpl. auto.
Qed.

Lemma join_settled now db product_id buyer_id result db' :
  well_formed db -> settled db ->
  join now db product_id buyer_id = inr (result, db') ->
  well_formed db' /\ settled db' /\ prices_kept db db'.
Proof.
  intros Hwf Hsettled. unfold join, process_bale_update_join_group.
  unfold get_or_create_active_group_buy.
  assert (Hnext : forall db1 g unit_price deposit_amount message reply,
             well_formed db1 -> settled db1 -> prices_kept db db1 ->
             In g (group_buys db1) -> GroupBuy.is_active g = true ->
             process_new_order now
               (send_message buyer_id message
                  (mkDB (products db1) (group_buys db1)
                     (orders db1
                      ++ [Order.mk (order_seq db1) buyer_id (GroupBuy.id g) 1
                                   unit_price None deposit_amount PENDING now])
                     (group_buy_seq db1) (order_seq db1 + 1) (outbox db1)))
               (order_seq db1) = inr (reply, db') ->
             well_formed db' /\ settled db' /\ prices_kept db db').
  { intros db1 g unit_price deposit_amount message reply Hwf1 Hsettled1 Hkept1
           Hg Hactive Hrun.
    set (order := Order.mk (order_seq db1) buyer_id (GroupBuy.id g) 1 unit_price
                           None deposit_amount PENDING now) in *.
    destruct (count_in_eq _ _ _ _ _ _ _ _ _ Hwf1 Hg Hrun)
      as (Hgs & Hos & Hcases).
    fold order in Hcases.
    assert (Hfresh : NoDup (map Order.id (orders db1 ++ [order]))).
    { apply unique_keys_appended; [apply Hwf1|]. simpl. apply Hwf1. }
    assert (Hwf' : forall f h,
               (forall x, GroupBuy.id (f x) = GroupBuy.id x) ->
               (forall x, Order.id (h x) = Order.id x
                          /\ Order.group_buy_id (h x) = Order.group_buy_id x) ->
               group_buys db' = map f (group_buys db1) ->
               orders db' = map h (orders db1 ++ [order]) ->
               well_formed db').
    { intros f h Hf Hh Hfg Hho. constructor.
      - rewrite Hfg, map_map. erewrite map_ext by apply Hf. apply Hwf1.
      - intros x Hx. rewrite Hfg in Hx. apply in_map_iff in Hx as (x0 & <- & Hx).
        rewrite Hf, Hgs. now apply (wf_group_seq _ Hwf1).
      - rewrite Hho, map_order_id_map; [exact Hfresh|]. intros x. apply Hh.
      - intros x Hx. rewrite Hho in Hx. apply in_map_iff in Hx as (x0 & <- & Hx).
        destruct (Hh x0) as [-> _]. rewrite Hos.
        apply in_app_or in Hx as [Hx|[<-|[]]]; simpl; [|lia].
        apply (wf_order_seq _ Hwf1) in Hx. lia.
      - intros x Hx. rewrite Hho in Hx. apply in_map_iff in Hx as (x0 & <- & Hx).
        destruct (Hh x0) as [_ ->]. rewrite Hgs.
        apply in_app_or in Hx as [Hx|[<-|[]]]; simpl.
        + now apply (wf_order_group _ Hwf1).
        + now apply (wf_group_seq _ Hwf1). }
    assert (Hnone : forall r, In r (orders db1 ++ [order]) ->
               Order.group_buy_id r = GroupBuy.id g ->
               Order.discount_price r = None).
    { intros r Hr E. apply in_app_or in Hr as [Hr|[<-|[]]]; [|reflexivity].
      now apply (Hsettled1 r g). }
    destruct Hcases as [(discount & Hgroups & Horders)|[Hgroups Horders]].
    - split; [|split].
      + apply (Hwf' _ _) with (3 := Hgroups) (4 := Horders).
        * intros x. simpl. now destruct (GroupBuy.id x =? GroupBuy.id g).
        * intros x. simpl. now destruct (Order.group_buy_id x =? GroupBuy.id g).
      + intros o' g' Ho' Hg' Eid Hact. rewrite Hgroups in Hg'. rewrite Horders in Ho'.
        apply in_map_iff in Hg' as (g0 & <- & Hg0).
        apply in_map_iff in Ho' as (o & <- & Ho).
        destruct (Z.eqb_spec (GroupBuy.id g0) (GroupBuy.id g)) as [E|E];
          [discriminate|].
        destruct (Z.eqb_spec (Order.group_buy_id o) (GroupBuy.id g)) as [Eo|Eo].
        { simpl in Eid. congruence. }
        apply in_app_or in Ho as [Ho|[<-|[]]]; [|reflexivity].
        now apply (Hsettled1 o g0).
      + apply (prices_kept_trans db db1 db' Hkept1).
        intros o p Ho Hp. rewrite Horders.
        exists o. repeat split; auto. apply in_map_iff. exists o. split.
        * destruct (Z.eqb_spec (Order.group_buy_id o) (GroupBuy.id g)) as [Eo|Eo];
            [|reflexivity].
          rewrite (Hnone o) in Hp by (auto; apply in_or_app; now left). discriminate.
        * apply in_or_app. now left.
    - split; [|split].
      + apply (Hwf' _ (fun x => x)) with (3 := Hgroups).
        * intros x. simpl. now destruct (GroupBuy.id x =? GroupBuy.id g).
        * auto.
        * rewrite map_id. exact Horders.
      + intros o' g' Ho' Hg' Eid Hact. rewrite Hgroups in Hg'. rewrite Horders in Ho'.
        apply in_map_iff in Hg' as (g0 & <- & Hg0).
        apply in_app_or in Ho' as [Ho'|[<-|[]]]; [|reflexivity].
        apply (Hsettled1 o' g0); auto.
        * revert Eid. now destruct (GroupBuy.id g0 =? GroupBuy.id g).
        * revert Hact. now destruct (GroupBuy.id g0 =? GroupBuy.id g).
      + apply (prices_kept_trans db db1 db' Hkept1).
        intros o p Ho Hp. rewrite Horders. exists o. repeat split; auto.
        apply in_or_app. now left. }
  destruct (get_active_group_buy db product_id) as [found|] eqn:Hfind.
  - destruct (get_product db product_id) as [product|]; [|discriminate].
    simpl.
    match goal with
    | |- context [process_new_order now ?db2 ?oid] =>
        destruct (process_new_order now db2 oid) as [e|[reply db'']] eqn:Hrun;
          [discriminate|]
    end.
    intros H. inversion H; subst. clear H.
    unfold get_active_group_buy in Hfind. apply find_some in Hfind as [Hin Hact].
    apply andb_prop in Hact as [_ Hact].
    eapply (Hnext db found); eauto using prices_kept_refl.
  - destruct (get_product db product_id) as [product|] eqn:Hproduct; [|discriminate].
    simpl. unfold get_product in *. simpl. rewrite Hproduct. simpl.
    match goal with
    | |- context [process_new_order now ?db2 ?oid] =>
        destruct (process_new_order now db2 oid) as [e|[reply db'']] eqn:Hrun;
          [discriminate|]
    end.
    intros H. inversion H; subst. clear H.
    set (created := GroupBuy.mk (group_buy_seq db) product_id 0
                                (Product.min_group_size product) true now) in *.
    set (db1 := mkDB (products db) (group_buys db ++ [created]) (orders db)
                     (group_buy_seq db + 1) (order_seq db) (outbox db)) in *.
    apply (Hnext db1 created _ _ _ _) with (6 := Hrun).
    + constructor; simpl.
      * apply unique_keys_appended; [apply Hwf|]. simpl. apply Hwf.
      * intros g Hg. apply in_app_or in Hg as [Hg|[<-|[]]]; simpl; [|lia].
        apply (wf_group_seq _ Hwf) in Hg. lia.
      * apply Hwf.
      * apply Hwf.
      * intros o Ho. apply (wf_order_group _ Hwf) in Ho. lia.
    + intros o g Ho Hg Eid Hact. simpl in Ho, Hg.
      apply in_app_or in Hg as [Hg|[<-|[]]]; [now apply (Hsettled o g)|].
      simpl in Eid. apply (wf_order_group _ Hwf) in Ho. lia.
    + intros o p Ho Hp. exists o. auto.
    + simpl. apply in_or_app. right. now left.
    + reflexivity.
Qed.

Lemma in_slices_or_rest {Row} (n full : Z) (rows : list Row) (row : Row) :
  0 < n -> 0 <= full -> In row rows ->
  (exists i, 0 <= i < full /\ In row (slice (i * n) (i * n + n) rows))
  \/ In row (skipn (Z.to_nat (full * n)) rows).
Proof.
  intros Hn Hfull Hin.
  rewrite <- (firstn_skipn (Z.to_nat (full * n)) rows) in Hin.
  apply in_app_or in Hin as [Hin|Hin]; [left|now right].
  replace (Z.to_nat (full * n)) with (Z.to_nat full * Z.to_nat n)%nat in Hin by nia.
  rewrite <- (slices_concat n rows (Z.to_nat full)) in Hin by lia.
  apply in_flat_map in Hin as (i & Hi & Hin). apply in_range in Hi.
  exists i. split; [lia|exact Hin].
Qed.

Lemma rearrange_product_settled now db results k groups db1 results1 :
  well_formed db -> settled db ->
  NoDup (map GroupBuy.id groups) ->
  (forall g, In g groups -> alive db g) ->
  rearrange_product now (db, results) (k, groups) = inr (db1, results1) ->
  settled db1 /\ prices_kept db db1.
Proof.
  intros Hwf Hsettled Hnd Halive Hrun.
  destruct (rearrange_product_returns _ _ _ _ _ _ Hrun) as (product & Hp & Hn).
  pose proof (rearrange_product_eq now db results k groups product Hp Hn) as Heq.
  cbv zeta in Heq.
  destruct (0 <? _) eqn:Hfull.
  2:{ rewrite Hrun in Heq. inversion Heq; subst. split; [exact Hsettled|].
      apply prices_kept_refl. }
  apply Z.ltb_lt in Hfull.
  destruct Heq as (db' & Hrun' & Ho & Hg & _).
  rewrite Hrun in Hrun'. inversion Hrun'; subst db' results1. clear Hrun'.
  pose proof (round_division db groups product Hfull) as [Hdiv Hrem].
  pose proof (round_positive db groups product Hfull) as Hpos.
  pose proof (round_miss db groups product Hwf Hfull) as Hmiss.
  pose proof (round_complete db groups product Hwf Hfull Hnd) as Hcomplete.
  pose proof (round_remainder db groups product Hwf Hfull Hnd) as Hremainder.
  set (n := Product.min_group_size product) in *.
  set (d := get_discount_percentage product n) in *.
  set (all_orders := sorted_orders db groups) in *.
  set (full := Z.of_nat (length all_orders) / n) in *.
  set (rem := Z.of_nat (length all_orders) mod n) in *.
  set (seq0 := group_buy_seq db) in *.
  set (G := apply_jobs (all_jobs seq0 n d all_orders full rem)) in *.
  assert (Hnone : forall r, In r (orders db) ->
             In (Order.group_buy_id r) (map GroupBuy.id groups) ->
             Order.discount_price r = None).
  { intros r Hr Hmine. apply in_map_iff in Hmine as (g & E & Hgin).
    destruct (Halive g Hgin) as (row & Hrow & Eid & Hact).
    apply (Hsettled r row); auto. congruence. }
  destruct (new_groups_ids now k n seq0 full rem ltac:(lia)) as [_ Hnew_range].
  split.
  - intros o' g' Ho' Hg' Eid Hact. rewrite Ho in Ho'. rewrite Hg in Hg'.
    apply in_map_iff in Ho' as (r & <- & Hr).
    apply in_map_iff in Hg' as (g0 & <- & Hg0).
    destruct (close_in_active _ _ _ Hact) as [Esame Eout].
    rewrite Esame in *. fold G in Eid |- *.
    destruct (in_dec Z.eq_dec (Order.group_buy_id r) (map GroupBuy.id groups))
      as [Hmine|Hother].
    + assert (Hall : In r all_orders) by (apply sorted_orders_in; auto).
      destruct (in_slices_or_rest n full all_orders r Hpos ltac:(lia) Hall)
        as [(i & Hi & Hslice)|Hrest].
      * exfalso. rewrite (Hcomplete i r Hi Hslice) in Eid. simpl in Eid.
        apply in_app_or in Hg0 as [Hg0|Hg0].
        -- apply (wf_group_seq _ Hwf) in Hg0. fold seq0 in Hg0. lia.
        -- unfold new_groups in Hg0. apply in_app_or in Hg0 as [Hg0|Hg0].
           ++ apply in_map_iff in Hg0 as (j & <- & _). discriminate.
           ++ unfold remainder_groups in Hg0.
              destruct (0 <? rem); [|destruct Hg0].
              destruct Hg0 as [<-|[]]. simpl in Eid. lia.
      * destruct (Z_lt_le_dec 0 rem) as [Hrem_pos|Hrem_zero].
        -- rewrite (Hremainder r Hrem_pos Hrest). simpl. now apply Hnone.
        -- exfalso.
           assert (Hlen : length (skipn (Z.to_nat (full * n)) all_orders) = 0%nat).
           { rewrite length_skipn. lia. }
           destruct (skipn (Z.to_nat (full * n)) all_orders); [destruct Hrest|].
           discriminate.
    + rewrite (Hmiss r Hr Hother) in *.
      apply in_app_or in Hg0 as [Hg0|Hg0]; [now apply (Hsettled r g0)|].
      exfalso. apply Hnew_range in Hg0.
      apply (wf_order_group _ Hwf) in Hr. fold seq0 in Hr. lia.
  - intros o p Hin Hprice. exists o. repeat split; auto.
    rewrite Ho. apply in_map_iff. exists o. split; [|exact Hin].
    apply Hmiss; [exact Hin|]. intros Hmine.
    rewrite (Hnone o Hin Hmine) in Hprice. discriminate.
Qed.

Lemma rearrange_products_settled now product_groups :
  forall db results db' results',
    well_formed db -> settled db ->
    NoDup (map GroupBuy.id (concat (map snd product_groups))) ->
    (forall g, In g (concat (map snd product_groups)) -> alive db g) ->
    rearrange_products now product_groups (db, results) = inr (db', results') ->
    well_formed db' /\ settled db' /\ prices_kept db db'.
Proof.
  induction product_groups as [|[k groups] rest IH];
    intros db results db' results' Hwf Hsettled Hnd Halive Hrun;
    cbn [rearrange_products] in Hrun.
  - inversion Hrun; subst. auto using prices_kept_refl.
  - destruct (rearrange_product now (db, results) (k, groups))
      as [e|[db1 results1]] eqn:Hround; [discriminate|].
    simpl in Hnd, Halive. rewrite map_app in Hnd.
    assert (Hnd_head : NoDup (map GroupBuy.id groups))
      by (now apply NoDup_app_remove_r in Hnd).
    assert (Hnd_rest : NoDup (map GroupBuy.id (concat (map snd rest))))
      by (now apply NoDup_app_remove_l in Hnd).
    assert (Hapart : forall g, In g (concat (map snd rest)) ->
                       ~ In (GroupBuy.id g) (map GroupBuy.id groups)).
    { intros g Hg Hin. apply in_map_iff in Hin as (g1 & E & Hg1).
      apply (in_map GroupBuy.id) in Hg. apply (in_map GroupBuy.id) in Hg1.
      rewrite E in Hg1. clear -Hnd Hg Hg1.
      induction (map GroupBuy.id groups) as [|x l IH]; [destruct Hg1|].
      simpl in Hnd. inversion Hnd as [|? ? Hnew Hnd']; subst.
      destruct Hg1 as [->|Hg1]; [|now apply IH].
      apply Hnew. apply in_or_app. now right. }
    assert (Hprot : forall g, In g groups ->
                      ~ (fun x => ~ In x (map GroupBuy.id groups)) (GroupBuy.id g)).
    { intros g Hin Hout. apply Hout. now apply in_map. }
    destruct (rearrange_product_frame
                (fun x => ~ In x (map GroupBuy.id groups)) now db results k groups
                db1 results1 Hwf Hprot Hround) as (Hwf1 & _ & _ & Hkept & _).
    destruct (rearrange_product_settled now db results k groups db1 results1)
      as [Hsettled1 Hprices1]; auto.
    { intros g Hg. apply Halive. apply in_or_app. now left. }
    destruct (IH db1 results1 db' results') as (Hwf' & Hsettled' & Hprices'); auto.
    { intros g Hg.
      destruct (Halive g (in_or_app _ _ _ (or_intror Hg)))
        as (row & Hrow & Eid & Hact).
      exists row. repeat split; auto.
      apply Hkept; [exact Hrow|]. rewrite Eid. now apply Hapart. }
    eauto using prices_kept_trans.
Qed.

Lemma rearrange_incomplete_groups_settled now db reply db' :
  well_formed db -> settled db ->
  rearrange_incomplete_groups now db = inr (reply, db') ->
  well_formed db' /\ settled db' /\ prices_kept db db'.
Proof.
  intros Hwf Hsettled Hrun. unfold rearrange_incomplete_groups in Hrun.
  destruct (get_incomplete_groups db) as [|g0 rest] eqn:Hinc.
  { inversion Hrun; subst. auto using prices_kept_refl. }
  rewrite <- Hinc in Hrun.
  destruct (rearrange_products now _ (db, [])) as [e|[db1 results]] eqn:Hloop;
    [discriminate|].
  inversion Hrun; subst. clear Hrun.
  destruct (group_by_product_grouped (get_incomplete_groups db))
    as (_ & _ & _ & Hperm).
  apply (rearrange_products_settled now
           (group_by_product (get_incomplete_groups db)) db [] db' results
           Hwf Hsettled); [| |exact Hloop].
  - eapply Permutation_NoDup.
    + apply Permutation_map. symmetry. exact Hperm.
    + unfold get_incomplete_groups. apply unique_keys_filter, Hwf.
  - intros g Hg. apply (Permutation_in _ Hperm) in Hg.
    apply filter_In in Hg as [Hg Hinc']. exists g. repeat split; auto.
    unfold incomplete in Hinc'. now apply andb_prop in Hinc' as [-> _].
Qed.

Lemma expire_groups_settled now expired_groups :
  forall db db1,
    well_formed db -> settled db ->
    expire_groups now expired_groups db = inr db1 ->
    well_formed db1 /\ settled db1 /\ prices_kept db db1.
Proof.
  induction expired_groups as [|group rest IH]; intros db db1 Hwf Hsettled Hrun;
    simpl in Hrun.
  - inversion Hrun; subst. auto using prices_kept_refl.
  - destruct (expire_group now db group) as [e|dba] eqn:Hone; [discriminate|].
    destruct (expire_group_returned now db group dba (wf_order_ids _ Hwf) Hone)
      as (Ho & Hg & Hp & Hgs & Hos).
    assert (Hwfa : well_formed dba).
    { constructor.
      - rewrite Hg, map_map. erewrite map_ext by (intros; apply close_in_id).
        apply Hwf.
      - intros g Hin. rewrite Hg in Hin. apply in_map_iff in Hin as (g0 & <- & Hin).
        rewrite close_in_id, Hgs. now apply (wf_group_seq _ Hwf).
      - rewrite Ho, map_order_id_map; [apply Hwf|]. intros o. apply cancel_in_keeps.
      - intros o Hin. rewrite Ho in Hin. apply in_map_iff in Hin as (o0 & <- & Hin).
        destruct (cancel_in_keeps [GroupBuy.id group] o0) as [-> _].
        rewrite Hos. now apply (wf_order_seq _ Hwf).
      - intros o Hin. rewrite Ho in Hin. apply in_map_iff in Hin as (o0 & <- & Hin).
        destruct (cancel_in_keeps [GroupBuy.id group] o0) as [_ ->].
        rewrite Hgs. now apply (wf_order_group _ Hwf). }
    assert (Hprice : forall o, Order.discount_price (cancel_in [GroupBuy.id group] o)
                               = Order.discount_price o).
    { intros o. unfold cancel_in. now destruct (id_in _ _). }
    assert (Hsettleda : settled dba).
    { intros o' g' Ho' Hg' Eid Hact. rewrite Ho in Ho'. rewrite Hg in Hg'.
      apply in_map_iff in Ho' as (o & <- & Hin).
      apply in_map_iff in Hg' as (g0 & <- & Hg0).
      destruct (close_in_active _ _ _ Hact) as [Esame Eout]. rewrite Esame in *.
      destruct (cancel_in_keeps [GroupBuy.id group] o) as [_ Egroup].
      rewrite Hprice. apply (Hsettled o g0); auto. congruence. }
    assert (Hkepta : prices_kept db dba).
    { intros o p Hin Hp'. exists (cancel_in [GroupBuy.id group] o).
      rewrite Ho, Hprice. repeat split; auto.
      - now apply in_map.
      - apply cancel_in_keeps. }
    destruct (IH dba db1 Hwfa Hsettleda Hrun) as (Hwf1 & Hsettled1 & Hkept1).
    eauto using prices_kept_trans.
Qed.

Lemma run_step_settled now step db db' :
  well_formed db -> settled db -> run_step now step db = inr db' ->
  well_formed db' /\ settled db' /\ prices_kept db db'.
Proof.
  intros Hwf Hsettled. destruct step as [k buyer| |]; simpl; unfold state_after.
  - destruct (join now db k buyer) as [e|[result db1]] eqn:Hrun; [discriminate|].
    intros H. inversion H; subst. eapply join_settled; eauto.
  - destruct (rearrange_incomplete_groups now db) as [e|[reply db1]] eqn:Hrun;
      [discriminate|].
    intros H. inversion H; subst. eapply rearrange_incomplete_groups_settled; eauto.
  - unfold check_expired_groups.
    destruct (get_expired_groups db (now - timedelta_days 7)) as [|g0 rest] eqn:Hexp.
    { intros H. inversion H; subst. auto using prices_kept_refl. }
    rewrite <- Hexp.
    destruct (expire_groups now _ db) as [e|db1] eqn:Hloop; [discriminate|].
    destruct (rearrange_incomplete_groups now db1) as [e|[reply db2]] eqn:Hrun;
      [discriminate|].
    intros H. inversion H; subst.
    destruct (expire_groups_settled _ _ _ _ Hwf Hsettled Hloop)
      as (Hwf1 & Hsettled1 & Hkept1).
    destruct (rearrange_incomplete_groups_settled _ _ _ _ Hwf1 Hsettled1 Hrun)
      as (Hwf2 & Hsettled2 & Hkept2).
    eauto using prices_kept_trans.
Qed.

Lemma run_steps_settled steps :
  forall db db',
    well_formed db -> settled db -> run_steps steps db = inr db' ->
    well_formed db' /\ settled db' /\ prices_kept db db'.
Proof.
  induction steps as [|[now step] steps IH]; intros db db' Hwf Hsettled Hrun;
    simpl in Hrun.
  - inversion Hrun; subst. auto using prices_kept_refl.
  - destruct (run_step now step db) as [e|db1] eqn:Hstep; [discriminate|].
    destruct (run_step_settled _ _ _ _ Hwf Hsettled Hstep)
      as (Hwf1 & Hsettled1 & Hkept1).
    destruct (IH db1 db' Hwf1 Hsettled1 Hrun) as (Hwf' & Hsettled' & Hkept').
    eauto using prices_kept_trans.
Qed.

(** C7, amended.  Take a well-formed state in which no order of an active
    group has a [discount_price] (a store without orders is one) and run
    joins (each order counted in by [process_new_order] before the next step),
    rearrangements and sweeps, each of which returns.  At every point, an
    order that has a [discount_price] belongs to no active group; and the
    [discount_price] an order has at some point is the one it has at every
    later point: it is not assigned again. *)
Theorem discount_price_assigned_once (before after : list (Z * Step))
    (db db1 db2 : DB) :
  well_formed db -> settled db ->
  run_steps before db = inr db1 ->
  run_steps after db1 = inr db2 ->
  settled db1 /\ settled db2
  /\ forall o p, In o (orders db1) -> Order.discount_price o = Some p ->
       exists o', get_order db2 (Order.id o) = Some o'
                  /\ Order.discount_price o' = Some p.
Proof.
  intros Hwf Hsettled Hbefore Hafter.
  destruct (run_steps_settled before db db1 Hwf Hsettled Hbefore)
    as (Hwf1 & Hsettled1 & _).
  destruct (run_steps_settled after db1 db2 Hwf1 Hsettled1 Hafter)
    as (Hwf2 & Hsettled2 & Hkept).
  split; [exact Hsettled1|]. split; [exact Hsettled2|].
  intros o p Hin Hprice.
  destruct (Hkept o p Hin Hprice) as (o' & Hin' & Eid & Hprice').
  exists o'. split; [|exact Hprice'].
  rewrite <- Eid. apply get_order_of_row; [apply Hwf2|exact Hin'].
Qed.

Lemma discount_price_assigned_once_witness :
  exists db1 db2,
    run_steps [(1, Join 1 11); (2, Join 1 12)]
              (mkDB [product_tiered] [] [] 1 1 []) = inr db1
    /\ run_steps [(3, Join 1 13); (4, Join 1 14); (5, Rearrange);
                  (timedelta_days 8, Sweep)] db1 = inr db2
    /\ settled db1 /\ settled db2
    /\ forall o p, In o (orders db1) -> Order.discount_price o = Some p ->
         exists o', get_order db2 (Order.id o) = Some o'
                    /\ Order.discount_price o' = Some p.
Proof.
  eexists. eexists.
  split; [vm_compute; reflexivity|].
  split; [vm_compute; reflexivity|].
  apply (discount_price_assigned_once
           [(1, Join 1 11); (2, Join 1 12)]
           [(3, Join 1 13); (4, Join 1 14); (5, Rearrange);
            (timedelta_days 8, Sweep)]
           (mkDB [product_tiered] [] [] 1 1 [])).
  - well_formed_store.
  - intros ? ? [].
  - vm_compute. reflexivity.
  - vm_compute. reflexivity.
Defined.

(** * Further properties of the workflow *)

(** ** Rows are never deleted and their fixed columns never change *)

Lemma grows_refl db : grows db db.
Proof.
  unfold grows. repeat split; exists []; now rewrite app_nil_r.
Qed.

Lemma grows_trans db1 db2 db3 : grows db1 db2 -> grows db2 db3 -> grows db1 db3.
Proof.
  intros (Hp & (g1 & Hg) & (o1 & Ho) & (m1 & Hm))
         (Hp' & (g2 & Hg') & (o2 & Ho') & (m2 & Hm')).
  unfold grows. split; [congruence|]. split; [|split].
  - exists (g1 ++ g2). now rewrite Hg', Hg, app_assoc.
  - exists (o1 ++ o2). now rewrite Ho', Ho, app_assoc.
  - exists (m1 ++ m2). now rewrite Hm', Hm, app_assoc.
Qed.

Lemma send_message_grows chat m db : grows db (send_message chat m db).
Proof.
  unfold grows. simpl. repeat split; try (exists []; now rewrite app_nil_r).
  now exists [(chat, m)].
Qed.

Lemma update_order_grows oid f db :
  (forall o, order_columns (f o) = order_columns o) ->
  grows db (update_order oid f db).
Proof.
  intros Hf. unfold grows. simpl.
  repeat split; try (exists []; now rewrite app_nil_r).
  exists []. rewrite app_nil_r, map_map. apply map_ext.
  intros o. now destruct (Order.id o =? oid).
Qed.

Lemma update_group_buy_grows gid f db :
  (forall g, group_columns (f g) = group_columns g) ->
  grows db (update_group_buy gid f db).
Proof.
  intros Hf. unfold grows. simpl.
  repeat split; try (exists []; now rewrite app_nil_r).
  exists []. rewrite app_nil_r, map_map. apply map_ext.
  intros g. now destruct (GroupBuy.id g =? gid).
Qed.

Lemma create_group_buy_grows now product_id target_count current_count is_active db :
  grows db (snd (create_group_buy now product_id target_count current_count
                                  is_active db)).
Proof.
  unfold grows. simpl. repeat split; try (exists []; now rewrite app_nil_r).
  rewrite map_app. eauto.
Qed.

Lemma create_order_grows now buyer_id group_buy_id quantity unit_price deposit db :
  grows db (snd (create_order now buyer_id group_buy_id quantity unit_price deposit db)).
Proof.
  unfold grows. simpl. repeat split; try (exists []; now rewrite app_nil_r).
  rewrite map_app. eauto.
Qed.

(** Whatever relation every assignment of the workflow respects, every entry
    point that returns respects. *)
Section Evolution.
Variable R : DB -> DB -> Prop.
Hypothesis HR : evolution R.

Lemma loop_evolves {A} (body : DB -> A -> DB) (l : list A) :
  (forall db a, R db (body db a)) ->
  forall db, R db (fold_left body l db).
Proof.
  intros Hbody. induction l as [|a l IH]; intros db; simpl.
  - apply (ev_refl R HR).
  - eapply (ev_trans R HR); [apply Hbody|apply IH].
Qed.

Lemma loop_with_results_evolves {A B} (body : DB * B -> A -> DB * B) (l : list A) :
  (forall st a, R (fst st) (fst (body st a))) ->
  forall st, R (fst st) (fst (fold_left body l st)).
Proof.
  intros Hbody. induction l as [|a l IH]; intros st; simpl.
  - apply (ev_refl R HR).
  - eapply (ev_trans R HR); [apply Hbody|apply IH].
Qed.

Lemma confirm_order_evolves total d db o : R db (confirm_order total d db o).
Proof.
  unfold confirm_order.
  eapply (ev_trans R HR); [|apply (ev_send_message R HR)].
  apply (ev_confirm R HR).
Qed.

Lemma finalize_order_evolves gid d db o : R db (finalize_order gid d db o).
Proof.
  unfold finalize_order.
  eapply (ev_trans R HR); [|apply (ev_send_message R HR)].
  apply (ev_finalize R HR).
Qed.

Lemma move_order_evolves gid rem n db o : R db (move_order gid rem n db o).
Proof.
  unfold move_order.
  eapply (ev_trans R HR); [|apply (ev_send_message R HR)].
  apply (ev_move R HR).
Qed.

Lemma cancel_order_evolves db o : R db (cancel_order db o).
Proof.
  unfold cancel_order.
  eapply (ev_trans R HR); [apply (ev_send_message R HR)|].
  apply (ev_cancel R HR).
Qed.

Lemma close_group_evolves now db g : R db (close_group now db g).
Proof. unfold close_group. apply (ev_set_is_active R HR). Qed.

Lemma form_complete_group_evolves now product_id product all_orders st i :
  R (fst st) (fst (form_complete_group now product_id product all_orders st i)).
Proof.
  destruct st as [db results]. unfold form_complete_group.
  cbv zeta. simpl fst.
  eapply (ev_trans R HR);
    [|apply loop_evolves; intros; apply finalize_order_evolves].
  apply (ev_create_group_buy R HR now product_id _ _ false db).
Qed.

Lemma process_new_order_evolves now db order_id reply db' :
  process_new_order now db order_id = inr (reply, db') -> R db db'.
Proof.
  unfold process_new_order.
  destruct (get_order db order_id) as [order|].
  2:{ intros H. inversion H; subst. apply (ev_refl R HR). }
  destruct (get_group_buy db (Order.group_buy_id order)) as [g|]; [|discriminate].
  destruct (get_product db (GroupBuy.product_id g)) as [product|]; [|discriminate].
  cbv zeta.
  assert (Hcount : R db (update_group_buy (GroupBuy.id g)
                               (GroupBuy.set_current_count now
                                  (GroupBuy.current_count g + 1)) db))
    by apply (ev_set_current_count R HR).
  destruct (GroupBuy.target_count g <=? GroupBuy.current_count g + 1);
    intros H; inversion H; subst; clear H.
  - eapply (ev_trans R HR); [exact Hcount|].
    eapply (ev_trans R HR); [|apply loop_evolves; intros; apply confirm_order_evolves].
    apply (ev_set_is_active R HR).
  - eapply (ev_trans R HR); [exact Hcount|apply (ev_send_message R HR)].
Qed.

Lemma get_or_create_active_group_buy_evolves now db product_id g db' :
  get_or_create_active_group_buy now db product_id = inr (g, db') -> R db db'.
Proof.
  unfold get_or_create_active_group_buy.
  destruct (get_active_group_buy db product_id).
  { intros H. inversion H; subst. apply (ev_refl R HR). }
  destruct (get_product db product_id) as [product|]; [|discriminate].
  intros H. inversion H; subst.
  apply (ev_create_group_buy R HR now product_id _ 0 true db).
Qed.

Lemma process_bale_update_join_group_evolves now db product_id buyer_id joined db' :
  process_bale_update_join_group now db product_id buyer_id = inr (joined, db') ->
  R db db'.
Proof.
  unfold process_bale_update_join_group.
  destruct (get_or_create_active_group_buy now db product_id)
    as [e|[g db1]] eqn:Hgroup; [discriminate|].
  apply get_or_create_active_group_buy_evolves in Hgroup.
  destruct (get_product db1 product_id) as [product|]; [|discriminate].
  cbv zeta. intros H. inversion H; subst. clear H.
  eapply (ev_trans R HR); [exact Hgroup|].
  eapply (ev_trans R HR); [|apply (ev_send_message R HR)].
  apply (ev_create_order R HR now buyer_id (GroupBuy.id g) 1 _ _ db1).
Qed.

Lemma rearrange_product_evolves now db results entry db' results' :
  rearrange_product now (db, results) entry = inr (db', results') -> R db db'.
Proof.
  destruct entry as [product_id groups]. unfold rearrange_product.
  destruct (get_product db product_id) as [product|]; [|discriminate].
  cbv zeta.
  destruct (Product.min_group_size product =? 0); [discriminate|].
  destruct (0 <? _).
  2:{ intros H. inversion H; subst. apply (ev_refl R HR). }
  match goal with
  | |- context [fold_left (form_complete_group ?a ?b ?c ?d) ?l ?st] =>
      pose proof (loop_with_results_evolves (form_complete_group a b c d) l
                    (form_complete_group_evolves a b c d) st) as Hloop;
      destruct (fold_left (form_complete_group a b c d) l st) as [db1 results1]
  end.
  simpl in Hloop.
  destruct (0 <? _); simpl; intros H; inversion H; subst; clear H.
  - eapply (ev_trans R HR); [exact Hloop|].
    eapply (ev_trans R HR); [|apply loop_evolves; intros; apply close_group_evolves].
    eapply (ev_trans R HR); [|apply loop_evolves; intros; apply move_order_evolves].
    match goal with
    | |- R db1 (mkDB _ (_ ++ [GroupBuy.mk _ ?k ?c ?t ?a ?w]) _ _ _ _) =>
        apply (ev_create_group_buy R HR w k t c a db1)
    end.
  - eapply (ev_trans R HR); [exact Hloop|].
    apply loop_evolves; intros; apply close_group_evolves.
Qed.

Lemma rearrange_products_evolves now product_groups :
  forall db results db' results',
    rearrange_products now product_groups (db, results) = inr (db', results') ->
    R db db'.
Proof.
  induction product_groups as [|entry rest IH]; intros db results db' results' Hrun;
    cbn [rearrange_products] in Hrun.
  - inversion Hrun; subst. apply (ev_refl R HR).
  - destruct (rearrange_product now (db, results) entry) as [e|[db1 results1]] eqn:Hround;
      [discriminate|].
    eapply (ev_trans R HR); [eapply rearrange_product_evolves; eauto|eauto].
Qed.

Lemma rearrange_incomplete_groups_evolves now db reply db' :
  rearrange_incomplete_groups now db = inr (reply, db') -> R db db'.
Proof.
  unfold rearrange_incomplete_groups.
  destruct (get_incomplete_groups db) as [|g0 rest].
  { intros H. inversion H; subst. apply (ev_refl R HR). }
  destruct (rearrange_products now _ (db, [])) as [e|[db1 results]] eqn:Hloop;
    [discriminate|].
  intros H. inversion H; subst. eapply rearrange_products_evolves; eauto.
Qed.

Lemma expire_group_evolves now db group db' :
  expire_group now db group = inr db' -> R db db'.
Proof.
  unfold expire_group. intros H.
  assert (Hall : R db (update_group_buy (GroupBuy.id group)
                             (GroupBuy.set_is_active now false)
                             (fold_left cancel_order
                                (get_orders_by_group db (GroupBuy.id group)) db))).
  { eapply (ev_trans R HR); cycle 1.
    - apply (ev_set_is_active R HR).
    - apply loop_evolves. intros. apply cancel_order_evolves. }
  destruct (get_orders_by_group db (GroupBuy.id group));
    destruct (get_product db (GroupBuy.product_id group));
    try discriminate; inversion H; subst; exact Hall.
Qed.

Lemma expire_groups_evolves now expired_groups :
  forall db db', expire_groups now expired_groups db = inr db' -> R db db'.
Proof.
  induction expired_groups as [|group rest IH]; intros db db' Hrun; simpl in Hrun.
  - inversion Hrun; subst. apply (ev_refl R HR).
  - destruct (expire_group now db group) as [e|db1] eqn:Hone; [discriminate|].
    eapply (ev_trans R HR); [eapply expire_group_evolves; eauto|eauto].
Qed.

Lemma check_expired_groups_evolves now db reply db' :
  check_expired_groups now db = inr (reply, db') -> R db db'.
Proof.
  unfold check_expired_groups. cbv zeta.
  destruct (get_expired_groups db (now - timedelta_days 7)) as [|g0 rest] eqn:Hexp.
  { intros H. inversion H; subst. apply (ev_refl R HR). }
  destruct (expire_groups now (g0 :: rest) db) as [e|db1] eqn:Hloop; [discriminate|].
  destruct (rearrange_incomplete_groups now db1) as [e|[r db2]] eqn:Hre;
    [discriminate|].
  intros H. inversion H; subst.
  eapply (ev_trans R HR);
    [eapply expire_groups_evolves; eauto|eapply rearrange_incomplete_groups_evolves; eauto].
Qed.

Lemma run_operation_evolves now op db db' :
  run_operation now op db = inr db' -> R db db'.
Proof.
  destruct op; simpl; unfold state_after;
    match goal with
    | |- match ?run with _ => _ end = _ -> _ =>
        destruct run as [e|[r db1]] eqn:Hrun; [discriminate|]
    end; intros H; inversion H; subst.
  - eapply get_or_create_active_group_buy_evolves; eauto.
  - eapply process_bale_update_join_group_evolves; eauto.
  - eapply process_new_order_evolves; eauto.
  - eapply rearrange_incomplete_groups_evolves; eauto.
  - eapply check_expired_groups_evolves; eauto.
Qed.

Lemma run_operations_evolves ops :
  forall db db', run_operations ops db = inr db' -> R db db'.
Proof.
  induction ops as [|[now op] ops IH]; intros db db' Hrun; simpl in Hrun.
  - inversion Hrun; subst. apply (ev_refl R HR).
  - destruct (run_operation now op db) as [e|db1] eqn:Hop; [discriminate|].
    eapply (ev_trans R HR); [eapply run_operation_evolves; eauto|eauto].
Qed.
End Evolution.

Lemma grows_evolution : evolution grows.
Proof.
  constructor; intros.
  - apply grows_refl.
  - eapply grows_trans; eauto.
  - apply send_message_grows.
  - now apply update_group_buy_grows.
  - now apply update_group_buy_grows.
  - apply create_group_buy_grows.
  - apply create_order_grows.
  - now apply update_order_grows.
  - now apply update_order_grows.
  - now apply update_order_grows.
  - now apply update_order_grows.
Qed.

Lemma rearrange_products_grows now product_groups db results db' results' :
  rearrange_products now product_groups (db, results) = inr (db', results') ->
  grows db db'.
Proof. apply (rearrange_products_evolves grows grows_evolution). Qed.

Lemma rearrange_incomplete_groups_grows now db reply db' :
  rearrange_incomplete_groups now db = inr (reply, db') -> grows db db'.
Proof. apply (rearrange_incomplete_groups_evolves grows grows_evolution). Qed.

Lemma run_operation_grows now op db db' :
  run_operation now op db = inr db' -> grows db db'.
Proof. apply (run_operation_evolves grows grows_evolution). Qed.

(** X1.  Whatever entry points run one after another (get-or-create of the
    active group, the join callback, [process_new_order], the rearrangement,
    the sweep), as long as they return: the products table is as it was; the
    groups that existed are still there, in place, with their key, product
    and [target_count]; the orders that existed are still there, in place,
    with their key, buyer, quantity, [unit_price], [deposit_amount] and
    [created_at]; and the messages sent before are still the first ones sent.
    Hence no group or order is ever deleted. *)
Theorem operations_keep_rows (ops : list (Z * Operation)) (db db' : DB) :
  run_operations ops db = inr db' ->
  grows db db'
  /\ (length (group_buys db) <= length (group_buys db'))%nat
  /\ (length (orders db) <= length (orders db'))%nat
  /\ (forall o, In o (orders db) ->
        exists o', In o' (orders db') /\ order_columns o' = order_columns o).
Proof.
  intros Hrun.
  assert (Hgrows : grows db db')
    by exact (run_operations_evolves grows grows_evolution ops db db' Hrun).
  split; [exact Hgrows|].
  destruct Hgrows as (_ & (gs & Hg) & (os & Ho) & _).
  apply (f_equal (@length _)) in Hg as Hlg. apply (f_equal (@length _)) in Ho as Hlo.
  rewrite length_app, !length_map in Hlg, Hlo.
  split; [lia|]. split; [lia|].
  intros o Hin. apply (in_map order_columns) in Hin.
  assert (Hin' : In (order_columns o) (map order_columns (orders db'))).
  { rewrite Ho. apply in_or_app. now left. }
  apply in_map_iff in Hin' as (o' & E & Hin'). eauto.
Qed.

Lemma operations_keep_rows_witness :
  exists db',
    run_operations
      [(1, JoinGroupCallback 1 11); (2, ProcessNewOrder 1);
       (3, JoinGroupCallback 1 12); (4, ProcessNewOrder 2);
       (5, RearrangeIncompleteGroups); (timedelta_days 9, CheckExpiredGroups)]
      (mkDB [product_tiered] [] [] 1 1 []) = inr db'
    /\ grows (mkDB [product_tiered] [] [] 1 1 []) db'.
Proof.
  eexists. split; [vm_compute; reflexivity|].
  apply (operations_keep_rows
           [(1, JoinGroupCallback 1 11); (2, ProcessNewOrder 1);
            (3, JoinGroupCallback 1 12); (4, ProcessNewOrder 2);
            (5, RearrangeIncompleteGroups); (timedelta_days 9, CheckExpiredGroups)]).
  vm_compute. reflexivity.
Defined.

(** ** Getting the active group twice *)

Lemma get_or_create_active_group_buy_found (now : Z) (db db1 : DB)
    (product_id : Z) (g : GroupBuy.t) :
  get_or_create_active_group_buy now db product_id = inr (g, db1) ->
  GroupBuy.product_id g = product_id
  /\ GroupBuy.is_active g = true
  /\ In g (group_buys db1)
  /\ get_active_group_buy db1 product_id = Some g.
Proof.
  unfold get_or_create_active_group_buy.
  destruct (get_active_group_buy db product_id) as [found|] eqn:Hfind.
  - intros H. inversion H; subst. split; [|split; [|split; [|exact Hfind]]];
      unfold get_active_group_buy in Hfind; apply find_some in Hfind as [Hin Htest];
      apply andb_prop in Htest as [Hk Hact]; [now apply Z.eqb_eq in Hk|auto|auto].
  - destruct (get_product db product_id) as [product|]; [|discriminate].
    intros H. inversion H; subst. clear H.
    repeat split.
    + simpl. apply in_or_app. right. now left.
    + unfold get_active_group_buy. simpl. apply first_of_appended.
      * intros r Hr. unfold get_active_group_buy in Hfind.
        apply (find_none _ _ Hfind r Hr).
      * simpl. now rewrite Z.eqb_refl.
Qed.

(** X2.  [get_or_create_active_group_buy] creates at most once: the group it
    returns is active, belongs to the product, and is the one
    [get_active_group_buy] and a second call find; the second call changes
    nothing. *)
Theorem get_or_create_active_group_buy_twice (now now' : Z) (db db1 : DB)
    (product_id : Z) (g : GroupBuy.t) :
  get_or_create_active_group_buy now db product_id = inr (g, db1) ->
  GroupBuy.product_id g = product_id
  /\ GroupBuy.is_active g = true
  /\ In g (group_buys db1)
  /\ get_active_group_buy db1 product_id = Some g
  /\ get_or_create_active_group_buy now' db1 product_id = inr (g, db1).
Proof.
  intros Hrun.
  destruct (get_or_create_active_group_buy_found now db db1 product_id g Hrun)
    as (Hk & Hact & Hin & Hfound).
  repeat split; auto.
  unfold get_or_create_active_group_buy. now rewrite Hfound.
Qed.

Lemma get_or_create_active_group_buy_twice_witness :
  exists g db1,
    get_or_create_active_group_buy 3 (mkDB [product_tiered] [] [] 1 1 []) 1
    = inr (g, db1)
    /\ get_active_group_buy db1 1 = Some g
    /\ get_or_create_active_group_buy 4 db1 1 = inr (g, db1).
Proof.
  eexists. eexists. split; [reflexivity|].
  apply (get_or_create_active_group_buy_twice 3 4
           (mkDB [product_tiered] [] [] 1 1 [])).
  reflexivity.
Defined.

(** ** Prices stay between nothing and the unit price *)

Lemma get_discount_percentage_cases (product : Product.t) (group_size : Z) :
  get_discount_percentage product group_size = 0%Q
  \/ get_discount_percentage product group_size = Product.discount_percentage product
  \/ exists tier, In tier (Product.discount_tiers product)
                  /\ get_discount_percentage product group_size
                     = DiscountTier.discount_percentage tier.
Proof.
  assert (Hdefault : default_discount product group_size = 0%Q
                     \/ default_discount product group_size
                        = Product.discount_percentage product).
  { unfold default_discount. destruct (_ <=? _); auto. }
  unfold get_discount_percentage.
  destruct (Product.discount_tiers product) as [|t ts] eqn:Htiers.
  { destruct Hdefault; auto. }
  pose proof (sort_by_higher_discount_head
                (filter (fun tier => DiscountTier.group_size tier <=? group_size)
                        (t :: ts))) as Hhead.
  cbv zeta.
  destruct (sort_by higher_discount _) as [|best rest].
  { destruct Hdefault; auto. }
  destruct Hhead as [Hin _]. apply filter_In in Hin as [Hin _].
  right. right. exists best. auto.
Qed.

(** X3.  For a product whose default discount and tier discounts all lie
    between 0 and 100, the resolved discount lies between 0 and 100 whatever
    the group size, and the price [unit_price * (1 - discount / 100)] that
    completion and rearrangement assign to an order of non-negative
    [unit_price] lies between 0 and that [unit_price]. *)
Theorem discount_price_within_unit_price (product : Product.t) (group_size : Z)
    (unit_price : Q) :
  percentages product -> (0 <= unit_price)%Q ->
  let d := get_discount_percentage product group_size in
  (0 <= d <= 100)%Q
  /\ (0 <= discounted unit_price d <= unit_price)%Q.
Proof.
  intros [Hdefault Htiers] Hprice d.
  assert (Hd : (0 <= d <= 100)%Q).
  { subst d.
    destruct (get_discount_percentage_cases product group_size)
      as [->|[->|(tier & Hin & ->)]]; [split; discriminate|exact Hdefault|auto]. }
  split; [exact Hd|]. destruct Hd as [Hd0 Hd100]. unfold discounted.
  assert (E : (unit_price * (1 - d / 100) == unit_price - unit_price * d * (1 # 100))%Q)
    by field.
  rewrite E.
  assert (H0 : (0 <= unit_price * d)%Q) by (apply Qmult_le_0_compat; auto).
  assert (H100 : (unit_price * d <= unit_price * 100)%Q).
  { rewrite (Qmult_comm unit_price d), (Qmult_comm unit_price 100).
    apply Qmult_le_compat_r; auto. }
  split; lra.
Qed.

Lemma discount_price_within_unit_price_witness :
  (0 <= get_discount_percentage product_tiered 3 <= 100)%Q
  /\ (0 <= discounted 100 (get_discount_percentage product_tiered 3) <= 100)%Q.
Proof.
  apply (discount_price_within_unit_price product_tiered 3 100).
  - split; [split; discriminate|].
    intros tier [<-|[<-|[]]]; split; discriminate.
  - discriminate.
Defined.

(** ** What the rearrangement needs in order to return *)

Lemma rearrange_products_products now product_groups db results db' results' :
  rearrange_products now product_groups (db, results) = inr (db', results') ->
  products db' = products db.
Proof. intros Hrun. now apply rearrange_products_grows in Hrun as [Hp _]. Qed.

(** X4.  The rearrangement returns only if every active incomplete group
    belongs to a product that exists and whose [min_group_size] is not 0.
    One incomplete group whose product is missing (an attribute of [None] is
    read) or has a [min_group_size] of 0 (a division by zero) is enough to
    keep the whole rearrangement from returning, whichever product its loop
    visits first. *)
Theorem rearrange_incomplete_groups_returns_only_if (now : Z) (db : DB)
    (reply : RearrangeReply) (db' : DB) :
  rearrange_incomplete_groups now db = inr (reply, db') ->
  forall g, In g (get_incomplete_groups db) ->
    exists product,
      get_product db (GroupBuy.product_id g) = Some product
      /\ Product.min_group_size product <> 0.
Proof.
  intros Hrun g Hg. unfold rearrange_incomplete_groups in Hrun.
  destruct (get_incomplete_groups db) as [|g0 rest] eqn:Hinc; [destruct Hg|].
  rewrite <- Hinc in *.
  destruct (rearrange_products now _ (db, [])) as [e|[db1 results]] eqn:Hloop;
    [discriminate|].
  destruct (group_by_product_grouped (get_incomplete_groups db))
    as (_ & _ & Hkeys & _).
  apply Hkeys in Hg. apply in_map_iff in Hg as ([k groups] & Ek & Hentry).
  simpl in Ek. subst k.
  destruct (rearrange_products_split _ _ _ _ _ _ _ _ Hentry Hloop)
    as (before & after & db_b & results_b & db_a & results_a
        & _ & Hbefore & Hround & _).
  destruct (rearrange_product_returns _ _ _ _ _ _ Hround) as (product & Hp & Hn).
  exists product. split; [|exact Hn].
  rewrite <- Hp. symmetry. apply get_product_same.
  eapply rearrange_products_products; eauto.
Qed.

Lemma rearrange_incomplete_groups_returns_only_if_witness :
  (exists reply db',
     rearrange_incomplete_groups 100 store_ten_pending = inr (reply, db'))
  /\ forall g, In g (get_incomplete_groups store_ten_pending) ->
       exists product,
         get_product store_ten_pending (GroupBuy.product_id g) = Some product
         /\ Product.min_group_size product <> 0.
Proof.
  destruct (rearrange_incomplete_groups 100 store_ten_pending)
    as [e|[reply db']] eqn:Hrun; [vm_compute in Hrun; discriminate|].
  split; [now exists reply, db'|].
  exact (rearrange_incomplete_groups_returns_only_if 100 store_ten_pending
           reply db' Hrun).
Defined.

(** ** Who is notified *)

Lemma confirm_orders_outbox total d (l : list Order.t) :
  forall db,
    outbox (fold_left (confirm_order total d) l db)
    = outbox db ++ map (completion_message total d) l.
Proof.
  induction l as [|o l IH]; intros db; simpl; [now rewrite app_nil_r|].
  rewrite IH. simpl. now rewrite <- app_assoc.
Qed.

(** X5.  [process_new_order] sends: nothing for an unknown order; when the
    group completes, one completion message per order linked to the group, in
    storage order, each to that order's buyer and quoting the final count, the
    discount and that order's own discounted price; otherwise one message, to
    the buyer of the processed order, quoting the new count and the target. *)
Theorem process_new_order_notifies (now : Z) (db : DB) (order_id : Z)
    (reply : OrderReply) (db' : DB) :
  process_new_order now db order_id = inr (reply, db') ->
  match reply with
  | OrderNotFound => outbox db' = outbox db
  | GroupBuyCompleted group_buy_id discount_percentage =>
      exists order group_buy,
        get_order db order_id = Some order
        /\ get_group_buy db (Order.group_buy_id order) = Some group_buy
        /\ group_buy_id = GroupBuy.id group_buy
        /\ outbox db'
           = outbox db
             ++ map (completion_message (GroupBuy.current_count group_buy + 1)
                                        discount_percentage)
                    (get_orders_by_group db group_buy_id)
  | AddedToGroupBuy group_buy_id current_count target_count =>
      exists order,
        get_order db order_id = Some order
        /\ outbox db'
           = outbox db ++ [(Order.buyer_id order, MsgJoined current_count target_count)]
  end.
Proof.
  unfold process_new_order.
  destruct (get_order db order_id) as [order|] eqn:Horder.
  2:{ intros H. inversion H; subst. reflexivity. }
  destruct (get_group_buy db (Order.group_buy_id order)) as [g|] eqn:Hgroup;
    [|discriminate].
  destruct (get_product db (GroupBuy.product_id g)) as [product|]; [|discriminate].
  cbv zeta.
  destruct (GroupBuy.target_count g <=? GroupBuy.current_count g + 1);
    intros H; inversion H; subst; clear H.
  - exists order, g. repeat split; auto. now rewrite confirm_orders_outbox.
  - exists order. split; reflexivity.
Qed.

Lemma process_new_order_notifies_witness :
  exists db',
    process_new_order 5 store_two_of_two 2 = inr (GroupBuyCompleted 1 10, db')
    /\ outbox db'
       = [(101, MsgGroupComplete 2 10 (discounted 50 10));
          (102, MsgGroupComplete 2 10 (discounted 50 10))].
Proof.
  eexists. split; [reflexivity|].
  destruct (process_new_order_notifies 5 store_two_of_two 2 _ _ eq_refl)
    as (order & g & Ho & Hg & _ & Hout).
  inversion Ho; subst. inversion Hg; subst. exact Hout.
Defined.

Lemma cancel_orders_outbox (l : list Order.t) :
  forall db,
    outbox (fold_left cancel_order l db) = outbox db ++ map expiry_message l.
Proof.
  induction l as [|o l IH]; intros db; simpl; [now rewrite app_nil_r|].
  rewrite IH. simpl. now rewrite <- app_assoc.
Qed.

Lemma cancelled_rows_keep_buyer (l : list Order.t) (r : Order.t) :
  Order.group_buy_id (apply_updates cancelled l r) = Order.group_buy_id r
  /\ Order.buyer_id (apply_updates cancelled l r) = Order.buyer_id r.
Proof.
  unfold apply_updates. revert r.
  induction l as [|o l IH]; intros r; simpl; [auto|].
  destruct (IH (rewrite_row cancelled o r)) as [-> ->].
  unfold rewrite_row. now destruct (Order.id r =? Order.id o).
Qed.

Lemma expiry_messages_after_rewrite (f : Order.t -> Order.t) (x : Z)
    (rows : list Order.t) :
  (forall r, Order.group_buy_id (f r) = Order.group_buy_id r
             /\ Order.buyer_id (f r) = Order.buyer_id r) ->
  map expiry_message (filter (fun o => Order.group_buy_id o =? x) (map f rows))
  = map expiry_message (filter (fun o => Order.group_buy_id o =? x) rows).
Proof.
  intros Hf. induction rows as [|r rows IH]; simpl; [reflexivity|].
  destruct (Hf r) as [Eg Eb]. rewrite Eg.
  destruct (Order.group_buy_id r =? x); simpl; [|exact IH].
  rewrite IH. unfold expiry_message. now rewrite Eb.
Qed.

Lemma expire_group_outbox now db group db1 :
  expire_group now db group = inr db1 ->
  outbox db1
  = outbox db ++ map expiry_message (get_orders_by_group db (GroupBuy.id group))
  /\ forall x, map expiry_message (get_orders_by_group db1 x)
               = map expiry_message (get_orders_by_group db x).
Proof.
  intros Hrun.
  assert (E : db1 = update_group_buy (GroupBuy.id group)
                      (GroupBuy.set_is_active now false)
                      (fold_left cancel_order
                         (get_orders_by_group db (GroupBuy.id group)) db)).
  { unfold expire_group in Hrun.
    destruct (get_orders_by_group db (GroupBuy.id group));
      destruct (get_product db (GroupBuy.product_id group));
      try discriminate; now inversion Hrun. }
  subst db1. split.
  - simpl. apply cancel_orders_outbox.
  - intros x. unfold get_orders_by_group at 1. simpl.
    destruct (order_step_fold cancelled cancel_order cancel_order_step
                (get_orders_by_group db (GroupBuy.id group)) db) as [-> _].
    apply expiry_messages_after_rewrite. intros r. apply cancelled_rows_keep_buyer.
Qed.

Lemma expire_groups_outbox now expired_groups :
  forall db db1,
    expire_groups now expired_groups db = inr db1 ->
    outbox db1
    = outbox db
      ++ flat_map (fun g => map expiry_message (get_orders_by_group db (GroupBuy.id g)))
                  expired_groups
    /\ forall x, map expiry_message (get_orders_by_group db1 x)
                 = map expiry_message (get_orders_by_group db x).
Proof.
  induction expired_groups as [|group rest IH]; intros db db1 Hrun; simpl in Hrun.
  - inversion Hrun; subst. simpl. now rewrite app_nil_r.
  - destruct (expire_group now db group) as [e|dba] eqn:Hone; [discriminate|].
    destruct (expire_group_outbox _ _ _ _ Hone) as [Hout Hsame].
    destruct (IH dba db1 Hrun) as [Hout' Hsame'].
    split.
    + rewrite Hout', Hout. simpl. rewrite <- app_assoc. f_equal. f_equal.
      apply flat_map_ext. intros g. apply Hsame.
    + intros x. now rewrite Hsame', Hsame.
Qed.

(** X6.  A sweep that finds expired groups sends one expiry notice per order
    linked to an expired group (cancelled before or not), to that order's
    buyer, group after group in storage order, before anything the
    rearrangement sends; a sweep that finds none sends nothing. *)
Theorem check_expired_groups_notifies (now : Z) (db : DB) (reply : SweepReply)
    (db' : DB) :
  check_expired_groups now db = inr (reply, db') ->
  match reply with
  | NoExpiredGroups => outbox db' = outbox db
  | ExpiredGroups _ _ =>
      exists rearranged,
        outbox db'
        = outbox db
          ++ flat_map (fun g => map expiry_message
                                    (get_orders_by_group db (GroupBuy.id g)))
                      (get_expired_groups db (now - timedelta_days 7))
          ++ rearranged
  end.
Proof.
  unfold check_expired_groups. cbv zeta.
  destruct (get_expired_groups db (now - timedelta_days 7)) as [|g0 rest] eqn:Hexp.
  { intros H. inversion H; subst. reflexivity. }
  destruct (expire_groups now (g0 :: rest) db) as [e|db1] eqn:Hloop; [discriminate|].
  destruct (rearrange_incomplete_groups now db1) as [e|[r db2]] eqn:Hre;
    [discriminate|].
  intros H. inversion H; subst. clear H.
  destruct (expire_groups_outbox _ _ _ _ Hloop) as [Hout _].
  apply rearrange_incomplete_groups_grows in Hre as (_ & _ & _ & (sent & Hsent)).
  exists sent. now rewrite Hsent, Hout, <- app_assoc.
Qed.

Lemma check_expired_groups_notifies_witness :
  exists db' rearranged,
    check_expired_groups (timedelta_days 8) store_stale
    = inr (ExpiredGroups 1 NoIncompleteGroups, db')
    /\ outbox db' = (101, MsgExpired) :: rearranged.
Proof.
  destruct (check_expired_groups_notifies (timedelta_days 8) store_stale
              (ExpiredGroups 1 NoIncompleteGroups) _ eq_refl)
    as (rearranged & Hout).
  eexists. exists rearranged. split; [reflexivity|exact Hout].
Defined.

(** ** The join callback *)

(** X7.  On a well-formed store, the join callback for a product that exists
    returns the key of the product's active group (the existing one, or the
    one it creates) and the key of one new order: PENDING, of quantity 1, at
    the product's price, with a deposit of a tenth of it and no
    [discount_price], linked to that group and found by [get_order].  It sends
    the buyer one deposit message and changes no row of a group: the order is
    not counted in. *)
Theorem join_callback_creates_pending_order (now : Z) (db : DB)
    (product_id buyer_id : Z) (product : Product.t) :
  well_formed db ->
  get_product db product_id = Some product ->
  exists g db1 db',
    get_or_create_active_group_buy now db product_id = inr (g, db1)
    /\ process_bale_update_join_group now db product_id buyer_id
       = inr (mkJoinGroup (GroupBuy.id g) (order_seq db), db')
    /\ let deposit_amount := (Product.price product * (1 # 10))%Q in
       let order := Order.mk (order_seq db) buyer_id (GroupBuy.id g) 1
                             (Product.price product) None deposit_amount PENDING now in
       orders db' = orders db ++ [order]
       /\ get_order db' (order_seq db) = Some order
       /\ group_buys db' = group_buys db1
       /\ get_active_group_buy db' product_id = Some g
       /\ outbox db'
          = outbox db ++ [(buyer_id, MsgDeposit deposit_amount
                                       (GroupBuy.current_count g + 1)
                                       (GroupBuy.target_count g))].
Proof.
  intros Hwf Hproduct.
  destruct (get_or_create_active_group_buy now db product_id) as [e|[g db1]] eqn:Hgroup.
  { unfold get_or_create_active_group_buy in Hgroup.
    destruct (get_active_group_buy db product_id); [discriminate|].
    rewrite Hproduct in Hgroup. discriminate. }
  assert (Hsame : products db1 = products db /\ orders db1 = orders db
                  /\ order_seq db1 = order_seq db /\ outbox db1 = outbox db).
  { unfold get_or_create_active_group_buy in Hgroup.
    destruct (get_active_group_buy db product_id).
    - inversion Hgroup; subst. auto.
    - rewrite Hproduct in Hgroup. inversion Hgroup; subst. simpl. auto. }
  destruct Hsame as (Hp & Ho & Hos & Hout).
  destruct (get_or_create_active_group_buy_found now db db1 product_id g Hgroup)
    as (_ & _ & _ & Hactive).
  exists g, db1. eexists. split; [reflexivity|].
  unfold process_bale_update_join_group. rewrite Hgroup.
  rewrite (get_product_same db db1 product_id Hp), Hproduct.
  cbv zeta. simpl. rewrite Ho, Hos, Hout.
  split; [reflexivity|]. split; [reflexivity|]. split; [|split; [reflexivity|]].
  - unfold get_order. simpl. apply first_of_appended.
    + intros r Hr. apply (wf_order_seq _ Hwf) in Hr. apply Z.eqb_neq. lia.
    + simpl. apply Z.eqb_refl.
  - split; [exact Hactive|reflexivity].
Qed.

Lemma join_callback_creates_pending_order_witness :
  exists g db1 db',
    get_or_create_active_group_buy 10 store_7 7 = inr (g, db1)
    /\ process_bale_update_join_group 10 store_7 7 102
       = inr (mkJoinGroup (GroupBuy.id g) 2, db')
    /\ orders db'
       = orders store_7 ++ [Order.mk 2 102 (GroupBuy.id g) 1 50 None (50 * (1 # 10))
                                     PENDING 10]
    /\ group_buys db' = group_buys store_7.
Proof.
  destruct (join_callback_creates_pending_order 10 store_7 7 102
              (Product.mk 7 50 4 10 []) ltac:(well_formed_store) eq_refl)
    as (g & db1 & db' & Hgroup & Hrun & Horders & _ & Hgroups & _).
  exists g, db1, db'. repeat split; auto.
  vm_compute in Hgroup. inversion Hgroup; subst. exact Hgroups.
Defined.

(** ** Grouping by product *)

(** X8.  The dictionary the rearrangement builds from the incomplete groups
    has one key per product that has an incomplete group; under each key are
    exactly the incomplete groups of that product, in storage order and never
    none; every incomplete group is under the key of its product. *)
Theorem group_by_product_partitions (incomplete_groups : list GroupBuy.t) :
  let product_groups := group_by_product incomplete_groups in
  NoDup (map fst product_groups)
  /\ (forall k groups, In (k, groups) product_groups ->
        groups <> []
        /\ groups = filter (fun g => GroupBuy.product_id g =? k) incomplete_groups)
  /\ (forall g, In g incomplete_groups ->
        In (GroupBuy.product_id g,
            filter (fun g' => GroupBuy.product_id g' =? GroupBuy.product_id g)
                   incomplete_groups)
           product_groups)
  /\ Permutation (concat (map snd product_groups)) incomplete_groups.
Proof.
  destruct (group_by_product_grouped incomplete_groups)
    as (Hkeys & Hentries & Hall & Hperm).
  cbv zeta. split; [exact Hkeys|]. split; [|split; [|exact Hperm]].
  - intros k groups Hin. destruct (Hentries k groups Hin) as [-> Hne]. auto.
  - intros g Hg. apply Hall in Hg. apply in_map_iff in Hg as ([k groups] & Ek & Hin).
    simpl in Ek. subst k. destruct (Hentries _ _ Hin) as [-> _]. exact Hin.
Qed.

(** ** References keep resolving *)

Lemma intact_products_of_incomplete_groups_exist db :
  intact db -> products_of_incomplete_groups_exist db.
Proof.
  intros (_ & Hgroups & Hsizes) g Hg.
  apply filter_In in Hg as [Hg _].
  destruct (get_product db (GroupBuy.product_id g)) as [product|] eqn:Hp.
  - exists product. split; [reflexivity|].
    apply Hsizes. unfold get_product in Hp. now apply find_some in Hp as [Hin _].
  - now apply Hgroups in Hg.
Qed.

Lemma find_of_row {Row} (test : Row -> bool) (rows : list Row) (row : Row) :
  In row rows -> test row = true -> exists found, find test rows = Some found.
Proof.
  intros Hin Htest. destruct (find test rows) as [found|] eqn:E; [eauto|].
  rewrite (find_none _ _ E row Hin) in Htest. discriminate.
Qed.

(** A store whose rows were rewritten in place, keys and references kept. *)
Lemma rewritten_store_intact (db db' : DB) (h : GroupBuy.t -> GroupBuy.t)
    (f : Order.t -> Order.t) :
  well_formed db -> intact db ->
  group_buys db' = map h (group_buys db) ->
  orders db' = map f (orders db) ->
  (forall g, GroupBuy.id (h g) = GroupBuy.id g
             /\ GroupBuy.product_id (h g) = GroupBuy.product_id g) ->
  (forall o, Order.id (f o) = Order.id o
             /\ Order.group_buy_id (f o) = Order.group_buy_id o) ->
  products db' = products db ->
  group_buy_seq db' = group_buy_seq db ->
  order_seq db' = order_seq db ->
  well_formed db' /\ intact db'.
Proof.
  intros Hwf (Hlinked & Hgroups & Hsizes) Hg Ho Hh Hf Hp Hgs Hos. split.
  - constructor.
    + rewrite Hg, map_map. erewrite map_ext by (intros; apply Hh). apply Hwf.
    + intros g Hin. rewrite Hg in Hin. apply in_map_iff in Hin as (g0 & <- & Hin).
      destruct (Hh g0) as [-> _]. rewrite Hgs. now apply (wf_group_seq _ Hwf).
    + rewrite Ho, map_order_id_map; [apply Hwf|]. intros o. apply Hf.
    + intros o Hin. rewrite Ho in Hin. apply in_map_iff in Hin as (o0 & <- & Hin).
      destruct (Hf o0) as [-> _]. rewrite Hos. now apply (wf_order_seq _ Hwf).
    + intros o Hin. rewrite Ho in Hin. apply in_map_iff in Hin as (o0 & <- & Hin).
      destruct (Hf o0) as [_ ->]. rewrite Hgs. now apply (wf_order_group _ Hwf).
  - split; [|split].
    + intros o Hin. rewrite Ho in Hin. apply in_map_iff in Hin as (o0 & <- & Hin).
      destruct (Hlinked o0 Hin) as (g & Hgin & E). exists (h g). split.
      * rewrite Hg. now apply in_map.
      * destruct (Hh g) as [-> _]. destruct (Hf o0) as [_ ->]. exact E.
    + intros g Hin. rewrite Hg in Hin. apply in_map_iff in Hin as (g0 & <- & Hin).
      destruct (Hh g0) as [_ ->]. rewrite (get_product_same db db' _ Hp). auto.
    + intros p Hin. rewrite Hp in Hin. auto.
Qed.

Lemma apply_updates_keeps_links F (l : list Order.t) (r : Order.t) :
  (forall o r, Order.id (F o r) = Order.id r
               /\ Order.group_buy_id (F o r) = Order.group_buy_id r) ->
  Order.id (apply_updates F l r) = Order.id r
  /\ Order.group_buy_id (apply_updates F l r) = Order.group_buy_id r.
Proof.
  intros HF. unfold apply_updates. revert r.
  induction l as [|o l IH]; intros r; simpl; [auto|].
  destruct (IH (rewrite_row F o r)) as [-> ->].
  unfold rewrite_row. destruct (Order.id r =? Order.id o); [apply HF|auto].
Qed.

Lemma process_new_order_returns now db order_id :
  well_formed db -> intact db ->
  exists reply db',
    process_new_order now db order_id = inr (reply, db')
    /\ well_formed db' /\ intact db'.
Proof.
  intros Hwf Hintact. pose proof Hintact as (Hlinked & Hgroups & _).
  unfold process_new_order.
  destruct (get_order db order_id) as [order|] eqn:Horder; [|eauto].
  unfold get_order in Horder. apply find_some in Horder as [Hin _].
  destruct (Hlinked order Hin) as (g0 & Hg0 & Eid).
  destruct (find_of_row (fun g => GroupBuy.id g =? Order.group_buy_id order)
              (group_buys db) g0 Hg0) as (g & Hfind).
  { now apply Z.eqb_eq. }
  unfold get_group_buy. rewrite Hfind.
  apply find_some in Hfind as [Hg _].
  destruct (get_product db (GroupBuy.product_id g)) as [product|] eqn:Hp.
  2:{ now apply Hgroups in Hg. }
  cbv zeta.
  destruct (GroupBuy.target_count g <=? GroupBuy.current_count g + 1).
  - do 2 eexists. split; [reflexivity|].
    match goal with
    | |- context [fold_left (confirm_order ?c ?d) ?l ?db2] =>
        destruct (order_step_fold _ _ (confirm_order_step c d) l db2)
          as (Ho & Hgr & Hpr & Hgs & Hos);
        eapply (rewritten_store_intact db _ _ (apply_updates (confirmed d) l)
                  Hwf Hintact)
    end.
    + rewrite Hgr. simpl. rewrite map_map. reflexivity.
    + rewrite Ho. reflexivity.
    + intros x. simpl.
      destruct (GroupBuy.id x =? GroupBuy.id g); simpl;
        destruct (GroupBuy.id x =? GroupBuy.id g); simpl; auto.
    + intros o. now apply apply_updates_keeps_links.
    + now rewrite Hpr.
    + now rewrite Hgs.
    + now rewrite Hos.
  - do 2 eexists. split; [reflexivity|].
    eapply (rewritten_store_intact db _ _ (fun o => o) Hwf Hintact); simpl.
    + reflexivity.
    + now rewrite map_id.
    + intros x. cbv beta. destruct (_ =? _); simpl; auto.
    + auto.
    + reflexivity.
    + reflexivity.
    + reflexivity.
Qed.

Lemma get_or_create_active_group_buy_returns now db product_id :
  well_formed db -> intact db -> get_product db product_id <> None ->
  exists g db1,
    get_or_create_active_group_buy now db product_id = inr (g, db1)
    /\ well_formed db1 /\ intact db1
    /\ products db1 = products db
    /\ In g (group_buys db1).
Proof.
  intros Hwf Hintact Hproduct. unfold get_or_create_active_group_buy.
  destruct (get_active_group_buy db product_id) as [found|] eqn:Hfind.
  { exists found, db. split; [reflexivity|]. split; [exact Hwf|].
    split; [exact Hintact|]. split; [reflexivity|].
    unfold get_active_group_buy in Hfind. now apply find_some in Hfind as [Hin _]. }
  destruct (get_product db product_id) as [product|] eqn:Hp; [|congruence].
  do 2 eexists. split; [reflexivity|].
  destruct Hintact as (Hlinked & Hgroups & Hsizes).
  simpl. split; [constructor|split; [split; [|split]|split]]; simpl.
  - apply unique_keys_appended; [apply Hwf|]. simpl. apply Hwf.
  - intros g Hg. apply in_app_or in Hg as [Hg|[<-|[]]]; simpl; [|lia].
    apply (wf_group_seq _ Hwf) in Hg. lia.
  - apply Hwf.
  - apply Hwf.
  - intros o Ho. apply (wf_order_group _ Hwf) in Ho. lia.
  - intros o Ho. destruct (Hlinked o Ho) as (g & Hg & E).
    exists g. split; [|exact E]. apply in_or_app. now left.
  - intros g Hg. apply in_app_or in Hg as [Hg|[<-|[]]].
    + now apply Hgroups.
    + simpl. unfold get_product in *. simpl. congruence.
  - exact Hsizes.
  - reflexivity.
  - apply in_or_app. right. now left.
Qed.

Lemma join_callback_returns now db product_id buyer_id :
  well_formed db -> intact db -> get_product db product_id <> None ->
  exists joined db',
    process_bale_update_join_group now db product_id buyer_id = inr (joined, db')
    /\ well_formed db' /\ intact db'.
Proof.
  intros Hwf Hintact Hproduct.
  destruct (get_or_create_active_group_buy_returns now db product_id
              Hwf Hintact Hproduct)
    as (g & db1 & Hgroup & Hwf1 & (Hlinked & Hgroups & Hsizes) & Hp & Hg).
  unfold process_bale_update_join_group. rewrite Hgroup.
  rewrite (get_product_same db db1 product_id Hp).
  destruct (get_product db product_id) as [product|]; [|congruence].
  cbv zeta. simpl. do 2 eexists. split; [reflexivity|].
  split; [constructor|split; [|split]]; simpl.
  - apply Hwf1.
  - apply Hwf1.
  - apply unique_keys_appended; [apply Hwf1|]. simpl. apply Hwf1.
  - intros o Ho. apply in_app_or in Ho as [Ho|[<-|[]]]; simpl; [|lia].
    apply (wf_order_seq _ Hwf1) in Ho. lia.
  - intros o Ho. apply in_app_or in Ho as [Ho|[<-|[]]]; simpl.
    + now apply (wf_order_group _ Hwf1).
    + now apply (wf_group_seq _ Hwf1).
  - intros o Ho. apply in_app_or in Ho as [Ho|[<-|[]]]; simpl; eauto.
  - exact Hgroups.
  - exact Hsizes.
Qed.

Lemma new_groups_cover now product_id n seq0 full rem x :
  0 <= full ->
  seq0 <= x < seq0 + full + (if 0 <? rem then 1 else 0) ->
  exists g, In g (new_groups now product_id n seq0 full rem) /\ GroupBuy.id g = x.
Proof.
  intros Hfull Hx. unfold new_groups, complete_groups, remainder_groups.
  rewrite Z2Nat.id by lia.
  destruct (Z_lt_le_dec x (seq0 + full)) as [Hlow|Hhigh].
  - exists (GroupBuy.mk (seq0 + (x - seq0)) product_id n n false now). split.
    + apply in_or_app. left. apply in_map_iff. exists (x - seq0).
      split; [reflexivity|]. apply in_range. lia.
    + simpl. lia.
  - destruct (0 <? rem); [|lia].
    exists (GroupBuy.mk (seq0 + full) product_id rem n true now). split.
    + apply in_or_app. right. now left.
    + simpl. lia.
Qed.

(** One round of the rearrangement leaves every order linked to a group that
    exists. *)
Lemma rearrange_product_linked now db results k groups db1 results1 :
  well_formed db ->
  (forall o, In o (orders db) ->
     exists g, In g (group_buys db) /\ GroupBuy.id g = Order.group_buy_id o) ->
  rearrange_product now (db, results) (k, groups) = inr (db1, results1) ->
  forall o, In o (orders db1) ->
    exists g, In g (group_buys db1) /\ GroupBuy.id g = Order.group_buy_id o.
Proof.
  intros Hwf Hlinked Hrun.
  destruct (rearrange_product_returns _ _ _ _ _ _ Hrun) as (product & Hp & Hn).
  pose proof (rearrange_product_eq now db results k groups product Hp Hn) as Heq.
  cbv zeta in Heq.
  destruct (0 <? _) eqn:Hfull.
  2:{ rewrite Hrun in Heq. inversion Heq; subst. exact Hlinked. }
  apply Z.ltb_lt in Hfull.
  destruct Heq as (db' & Hrun' & Ho & Hg & _).
  rewrite Hrun in Hrun'. inversion Hrun'; subst db' results1. clear Hrun'.
  intros o' Ho'. rewrite Ho in Ho'. apply in_map_iff in Ho' as (o & <- & Hin).
  rewrite Hg.
  destruct (round_group db groups product Hfull o) as [E|E].
  - destruct (Hlinked o Hin) as (g & Hgin & Eid).
    exists (close_in now (map GroupBuy.id groups) g). split.
    + apply in_map, in_or_app. now left.
    + rewrite close_in_id. congruence.
  - apply (new_groups_cover now k (Product.min_group_size product)) in E
      as (g & Hgin & Eid); [|lia].
    exists (close_in now (map GroupBuy.id groups) g). split.
    + apply in_map, in_or_app. now right.
    + now rewrite close_in_id.
Qed.

Lemma rearrange_products_linked now product_groups :
  forall db results db' results',
    well_formed db ->
    (forall o, In o (orders db) ->
       exists g, In g (group_buys db) /\ GroupBuy.id g = Order.group_buy_id o) ->
    rearrange_products now product_groups (db, results) = inr (db', results') ->
    forall o, In o (orders db') ->
      exists g, In g (group_buys db') /\ GroupBuy.id g = Order.group_buy_id o.
Proof.
  induction product_groups as [|[k groups] rest IH];
    intros db results db' results' Hwf Hlinked Hrun;
    cbn [rearrange_products] in Hrun.
  - inversion Hrun; subst. exact Hlinked.
  - destruct (rearrange_product now (db, results) (k, groups))
      as [e|[db1 results1]] eqn:Hround; [discriminate|].
    destruct (rearrange_product_frame (fun _ => False) _ _ _ _ _ _ _ Hwf
                (fun g _ H => H) Hround) as (Hwf1 & _).
    apply (IH db1 results1 db' results' Hwf1); [|exact Hrun].
    exact (rearrange_product_linked now db results k groups db1 results1
             Hwf Hlinked Hround).
Qed.

Lemma rearrange_incomplete_groups_returns now db :
  well_formed db -> intact db ->
  exists reply db',
    rearrange_incomplete_groups now db = inr (reply, db')
    /\ well_formed db' /\ intact db'.
Proof.
  intros Hwf Hintact. unfold rearrange_incomplete_groups.
  destruct (get_incomplete_groups db) as [|g0 rest] eqn:Hinc; [eauto|].
  rewrite <- Hinc.
  assert (Hexist := intact_products_of_incomplete_groups_exist db Hintact).
  destruct (rearrange_products_returns now
              (group_by_product (get_incomplete_groups db)) db [])
    as (db' & results & Hrun).
  { intros k groups Hentry. eapply product_groups_products; eauto. }
  rewrite Hrun. do 2 eexists. split; [reflexivity|].
  destruct (rearrange_products_frame (fun _ => False) _ _ _ _ _ _ Hwf
              (fun _ _ _ _ _ H => H) Hrun) as (Hwf' & Hp & _ & _ & _ & _ & Hrows).
  split; [exact Hwf'|].
  destruct Hintact as (Hlinked & Hgroups & Hsizes).
  split; [|split].
  - exact (rearrange_products_linked now _ db [] db' results Hwf Hlinked Hrun).
  - intros g' Hg'. rewrite (get_product_same db db' _ Hp).
    destruct (Hrows g' Hg') as [(g & Hg & _ & <-)|Hkey]; [auto|].
    apply in_map_iff in Hkey as ([k groups] & E & Hentry). simpl in E. subst k.
    destruct (product_groups_products db _ _ Hexist Hentry) as (product & -> & _).
    discriminate.
  - intros p Hin. rewrite Hp in Hin. auto.
Qed.

Lemma expire_groups_returned now expired_groups :
  forall db db1,
    NoDup (map Order.id (orders db)) ->
    expire_groups now expired_groups db = inr db1 ->
    orders db1 = map (cancel_in (map GroupBuy.id expired_groups)) (orders db)
    /\ group_buys db1
       = map (close_in now (map GroupBuy.id expired_groups)) (group_buys db)
    /\ products db1 = products db
    /\ group_buy_seq db1 = group_buy_seq db
    /\ order_seq db1 = order_seq db.
Proof.
  induction expired_groups as [|group rest IH]; intros db db1 Hnd Hrun;
    simpl in Hrun.
  - inversion Hrun; subst. repeat split; symmetry;
      (erewrite map_ext; [apply map_id|reflexivity]).
  - destruct (expire_group now db group) as [e|dba] eqn:Hone; [discriminate|].
    destruct (expire_group_returned now db group dba Hnd Hone)
      as (Ho & Hg & Hp & Hgs & Hos).
    destruct (IH dba db1) as (Ho1 & Hg1 & Hp1 & Hgs1 & Hos1); [|exact Hrun|].
    { rewrite Ho, map_order_id_map; [exact Hnd|]. intros o. apply cancel_in_keeps. }
    rewrite Ho1, Hg1, Hp1, Hgs1, Hos1, Ho, Hg, !map_map. repeat split; auto.
    + apply map_ext. intros o. unfold cancel_in, id_in. simpl.
      destruct (Order.group_buy_id o =? GroupBuy.id group); simpl;
        [now destruct (existsb _ _)|reflexivity].
    + apply map_ext. intros g. unfold close_in, id_in. simpl.
      destruct (GroupBuy.id g =? GroupBuy.id group); simpl;
        [now destruct (existsb _ _)|reflexivity].
Qed.

Lemma check_expired_groups_returns now db :
  well_formed db -> intact db ->
  exists reply db',
    check_expired_groups now db = inr (reply, db')
    /\ well_formed db' /\ intact db'.
Proof.
  intros Hwf Hintact. unfold check_expired_groups. cbv zeta.
  destruct (get_expired_groups db (now - timedelta_days 7)) as [|g0 rest] eqn:Hexp;
    [eauto|].
  rewrite <- Hexp.
  destruct (expire_groups_eq now (get_expired_groups db (now - timedelta_days 7)) db)
    as (db1 & Hloop & _).
  { apply Hwf. }
  { intros g Hg. apply filter_In in Hg as [Hg _]. now apply Hintact. }
  rewrite Hloop.
  destruct (expire_groups_returned _ _ _ _ (wf_order_ids _ Hwf) Hloop)
    as (Ho & Hg & Hp & Hgs & Hos).
  destruct (rewritten_store_intact db db1 _ _ Hwf Hintact Hg Ho) as [Hwf1 Hintact1];
    auto.
  { intros g. split; [apply close_in_id|apply close_in_deactivating]. }
  { intros o. apply cancel_in_keeps. }
  destruct (rearrange_incomplete_groups_returns now db1 Hwf1 Hintact1)
    as (reply & db2 & Hre & Hwf2 & Hintact2).
  rewrite Hre. eauto.
Qed.

Lemma run_operation_returns now op db :
  well_formed db -> intact db ->
  (forall product_id, product_named op = Some product_id ->
                      get_product db product_id <> None) ->
  exists db',
    run_operation now op db = inr db' /\ well_formed db' /\ intact db'.
Proof.
  intros Hwf Hintact Hnamed. destruct op; simpl; unfold state_after.
  - destruct (get_or_create_active_group_buy_returns now db product_id Hwf Hintact)
      as (g & db1 & -> & Hwf1 & Hintact1 & _); eauto.
  - destruct (join_callback_returns now db product_id buyer_id Hwf Hintact)
      as (joined & db1 & -> & Hwf1 & Hintact1); eauto.
  - destruct (process_new_order_returns now db order_id Hwf Hintact)
      as (reply & db1 & -> & Hwf1 & Hintact1); eauto.
  - destruct (rearrange_incomplete_groups_returns now db Hwf Hintact)
      as (reply & db1 & -> & Hwf1 & Hintact1); eauto.
  - destruct (check_expired_groups_returns now db Hwf Hintact)
      as (reply & db1 & -> & Hwf1 & Hintact1); eauto.
Qed.

(** A get-or-create call or a join callback that returns on a store whose
    groups refer to products was called for a product that exists. *)
Lemma returning_operation_names_product now op db db' product_id :
  intact db -> run_operation now op db = inr db' ->
  product_named op = Some product_id -> get_product db product_id <> None.
Proof.
  intros (_ & Hgroups & _) Hrun Hnamed Hmissing.
  assert (Hnone : get_active_group_buy db product_id = None).
  { destruct (get_active_group_buy db product_id) as [g|] eqn:Hactive;
      [|reflexivity].
    apply find_some in Hactive as [Hin Htest].
    apply andb_true_iff in Htest as [Hk _]. apply Z.eqb_eq in Hk.
    apply Hgroups in Hin. rewrite Hk in Hin. contradiction. }
  destruct op; simpl in Hnamed; inversion Hnamed; subst; simpl in Hrun;
    unfold state_after, process_bale_update_join_group,
      get_or_create_active_group_buy in Hrun;
    rewrite Hnone, Hmissing in Hrun; discriminate.
Qed.

(** X9.  Referential integrity is kept.  On a store whose primary keys are
    unique and below their sequences and in which every order refers to a
    group that exists, every group to a product that exists, and no product
    has a [min_group_size] of 0, whatever entry points run one after another
    and return (get-or-create of the active group, the join callback,
    [process_new_order], the rearrangement, the sweep) leave a store of that
    kind again: the groups they create are groups of existing products, and
    the orders they create or move refer to groups that exist. *)
Theorem operations_keep_references (ops : list (Z * Operation)) (db db' : DB) :
  well_formed db -> intact db ->
  run_operations ops db = inr db' ->
  well_formed db' /\ intact db'.
Proof.
  revert db. induction ops as [|[now op] ops IH]; intros db Hwf Hintact Hrun;
    simpl in Hrun.
  - inversion Hrun; subst. now split.
  - destruct (run_operation now op db) as [e|db1] eqn:Hop; [discriminate|].
    destruct (run_operation_returns now op db Hwf Hintact)
      as (db1' & Hop' & Hwf1 & Hintact1).
    { intros k Hk. exact (returning_operation_names_product now op db db1 k
                            Hintact Hop Hk). }
    rewrite Hop in Hop'. inversion Hop'; subst db1'.
    exact (IH db1 Hwf1 Hintact1 Hrun).
Qed.

Lemma operations_keep_references_witness :
  exists db',
    run_operations
      [(1, JoinGroupCallback 7 102); (2, ProcessNewOrder 2); (3, ProcessNewOrder 99);
       (4, RearrangeIncompleteGroups); (5, GetOrCreateActiveGroupBuy 7);
       (timedelta_days 9, CheckExpiredGroups)]
      store_7 = inr db'
    /\ well_formed db' /\ intact db'.
Proof.
  destruct (run_operations
              [(1, JoinGroupCallback 7 102); (2, ProcessNewOrder 2);
               (3, ProcessNewOrder 99); (4, RearrangeIncompleteGroups);
               (5, GetOrCreateActiveGroupBuy 7);
               (timedelta_days 9, CheckExpiredGroups)] store_7)
    as [e|db'] eqn:Hrun; [vm_compute in Hrun; discriminate|].
  exists db'. split; [reflexivity|].
  apply (operations_keep_references
           [(1, JoinGroupCallback 7 102); (2, ProcessNewOrder 2);
            (3, ProcessNewOrder 99); (4, RearrangeIncompleteGroups);
            (5, GetOrCreateActiveGroupBuy 7);
            (timedelta_days 9, CheckExpiredGroups)] store_7 db').
  - well_formed_store.
  - split; [|split]; simpl.
    + intros o [<-|[]]. eexists. split; [left; reflexivity|reflexivity].
    + intros g [<-|[]]. discriminate.
    + intros p [<-|[]]. discriminate.
  - exact Hrun.
Defined.

(** ** After a sweep *)

Lemma expired_earlier (threshold threshold' : Z) (g : GroupBuy.t) :
  threshold' <= threshold -> expired threshold g = false ->
  expired threshold' g = false.
Proof.
  unfold expired. intros Hle H.
  destruct (GroupBuy.is_active g); [|reflexivity].
  destruct (GroupBuy.current_count g <? GroupBuy.target_count g);
    [|now rewrite andb_false_r].
  simpl in *. rewrite andb_true_r in *.
  apply Z.ltb_ge in H. apply Z.ltb_ge. lia.
Qed.

Lemma new_groups_updated_at now product_id n seq0 full rem g :
  In g (new_groups now product_id n seq0 full rem) -> GroupBuy.updated_at g = now.
Proof.
  unfold new_groups, complete_groups, remainder_groups. intros Hin.
  apply in_app_or in Hin as [Hin|Hin].
  - now apply in_map_iff in Hin as (i & <- & _).
  - destruct (0 <? rem); [|destruct Hin]. now destruct Hin as [<-|[]].
Qed.

Lemma closed_rows_not_expired now threshold ids (rows : list GroupBuy.t) :
  (forall g, In g rows -> expired threshold g = false) ->
  forall g, In g (map (close_in now ids) rows) -> expired threshold g = false.
Proof.
  intros Hrows g' Hin. apply in_map_iff in Hin as (g & <- & Hin).
  destruct (GroupBuy.is_active (close_in now ids g)) eqn:Hact.
  - apply close_in_active in Hact as [-> _]. auto.
  - unfold expired. now rewrite Hact.
Qed.

Lemma rearrange_products_not_expired now threshold product_groups :
  threshold <= now ->
  forall db results db' results',
    (forall g, In g (group_buys db) -> expired threshold g = false) ->
    rearrange_products now product_groups (db, results) = inr (db', results') ->
    forall g, In g (group_buys db') -> expired threshold g = false.
Proof.
  intros Hle. induction product_groups as [|[k groups] rest IH];
    intros db results db' results' Hnone Hrun; cbn [rearrange_products] in Hrun.
  - inversion Hrun; subst. exact Hnone.
  - destruct (rearrange_product now (db, results) (k, groups))
      as [e|[db1 results1]] eqn:Hround; [discriminate|].
    apply (IH db1 results1 db' results'); [|exact Hrun].
    destruct (rearrange_product_groups _ _ _ _ _ _ _ Hround)
      as [->|(n & seq0 & full & rem & Hg)]; [exact Hnone|].
    rewrite Hg. apply closed_rows_not_expired.
    intros g Hin. apply in_app_or in Hin as [Hin|Hin]; [auto|].
    apply new_groups_updated_at in Hin. unfold expired. rewrite Hin.
    replace (now <? threshold) with false by (symmetry; apply Z.ltb_ge; lia).
    now rewrite andb_false_r.
Qed.

(** X10.  When a sweep has returned, no group is expired any more for its
    clock reading or an earlier one: the groups it found are inactive, and
    the groups the rearrangement created are fresh.  Sweeping again at that
    time finds nothing, replies "No expired groups" and changes nothing. *)
Theorem check_expired_groups_leaves_none_expired (now now' : Z) (db : DB)
    (reply : SweepReply) (db' : DB) :
  check_expired_groups now db = inr (reply, db') ->
  now' <= now ->
  get_expired_groups db' (now' - timedelta_days 7) = []
  /\ check_expired_groups now' db' = inr (NoExpiredGroups, db').
Proof.
  intros Hrun Hle.
  assert (Hnone : forall g, In g (group_buys db') ->
                    expired (now - timedelta_days 7) g = false).
  { unfold check_expired_groups in Hrun. cbv zeta in Hrun.
    destruct (get_expired_groups db (now - timedelta_days 7)) as [|g0 rest] eqn:Hexp.
    - inversion Hrun; subst. intros g Hg.
      destruct (expired (now - timedelta_days 7) g) eqn:E; [|reflexivity].
      assert (Hin : In g (get_expired_groups db' (now - timedelta_days 7)))
        by (apply filter_In; auto).
      rewrite Hexp in Hin. destruct Hin.
    - rewrite <- Hexp in Hrun.
      destruct (expire_groups now _ db) as [e|db1] eqn:Hloop; [discriminate|].
      destruct (rearrange_incomplete_groups now db1) as [e|[r db2]] eqn:Hre;
        [discriminate|].
      inversion Hrun; subst. clear Hrun.
      assert (Hnone1 : forall g, In g (group_buys db1) ->
                         expired (now - timedelta_days 7) g = false).
      { rewrite (expire_groups_groups _ _ _ _ Hloop). intros g' Hin.
        apply in_map_iff in Hin as (g & <- & Hin).
        destruct (GroupBuy.is_active
                    (close_in now
                       (map GroupBuy.id
                          (get_expired_groups db (now - timedelta_days 7))) g))
          eqn:Hact.
        - apply close_in_active in Hact as [-> Hout].
          destruct (expired (now - timedelta_days 7) g) eqn:E; [|reflexivity].
          assert (Hmine : In g (get_expired_groups db (now - timedelta_days 7)))
            by (apply filter_In; auto).
          apply (in_map GroupBuy.id), id_in_iff in Hmine. congruence.
        - unfold expired. now rewrite Hact. }
      unfold rearrange_incomplete_groups in Hre.
      destruct (get_incomplete_groups db1) as [|g1 rest1] eqn:Hinc.
      { inversion Hre; subst. exact Hnone1. }
      rewrite <- Hinc in Hre.
      destruct (rearrange_products now _ (db1, [])) as [e|[db2 results]] eqn:Hrounds;
        [discriminate|].
      inversion Hre; subst.
      apply (rearrange_products_not_expired now (now - timedelta_days 7) _
               ltac:(unfold timedelta_days; lia) _ _ _ _ Hnone1 Hrounds). }
  assert (Hempty : get_expired_groups db' (now' - timedelta_days 7) = []).
  { apply query_of_none. intros g Hg.
    apply (expired_earlier (now - timedelta_days 7)); [lia|auto]. }
  split; [exact Hempty|].
  unfold check_expired_groups. cbv zeta. now rewrite Hempty.
Qed.

Lemma check_expired_groups_leaves_none_expired_witness :
  exists reply db',
    check_expired_groups (timedelta_days 8) store_stale = inr (reply, db')
    /\ get_expired_groups db' (timedelta_days 8 - timedelta_days 7) = []
    /\ check_expired_groups (timedelta_days 8) db' = inr (NoExpiredGroups, db').
Proof.
  eexists. eexists. split; [vm_compute; reflexivity|].
  apply (check_expired_groups_leaves_none_expired (timedelta_days 8)
           (timedelta_days 8) store_stale (ExpiredGroups 1 NoIncompleteGroups)).
  - vm_compute. reflexivity.
  - lia.
Defined.

Lemma rewritten_store_well_formed (db db' : DB) (h : GroupBuy.t -> GroupBuy.t)
    (f : Order.t -> Order.t) :
  well_formed db ->
  group_buys db' = map h (group_buys db) ->
  orders db' = map f (orders db) ->
  (forall g, GroupBuy.id (h g) = GroupBuy.id g) ->
  (forall o, Order.id (f o) = Order.id o
             /\ Order.group_buy_id (f o) = Order.group_buy_id o) ->
  group_buy_seq db' = group_buy_seq db ->
  order_seq db' = order_seq db ->
  well_formed db'.
Proof.
  intros Hwf Hg Ho Hh Hf Hgs Hos. constructor.
  - rewrite Hg, map_map. erewrite map_ext by (intros; apply Hh). apply Hwf.
  - intros g Hin. rewrite Hg in Hin. apply in_map_iff in Hin as (g0 & <- & Hin).
    rewrite Hh, Hgs. now apply (wf_group_seq _ Hwf).
  - rewrite Ho, map_order_id_map; [apply Hwf|]. intros o. apply Hf.
  - intros o Hin. rewrite Ho in Hin. apply in_map_iff in Hin as (o0 & <- & Hin).
    destruct (Hf o0) as [-> _]. rewrite Hos. now apply (wf_order_seq _ Hwf).
  - intros o Hin. rewrite Ho in Hin. apply in_map_iff in Hin as (o0 & <- & Hin).
    destruct (Hf o0) as [_ ->]. rewrite Hgs. now apply (wf_order_group _ Hwf).
Qed.

Lemma cancelled_orders_of_group ids (rows : list Order.t) (x : Z) :
  In x ids ->
  filter (fun o => Order.group_buy_id o =? x) (map (cancel_in ids) rows)
  = map (Order.set_status CANCELLED)
        (filter (fun o => Order.group_buy_id o =? x) rows).
Proof.
  intros Hx. induction rows as [|r rows IH]; simpl; [reflexivity|].
  destruct (cancel_in_keeps ids r) as [_ Eg]. rewrite Eg.
  destruct (Z.eqb_spec (Order.group_buy_id r) x) as [E|E]; simpl; [|exact IH].
  rewrite IH. f_equal. unfold cancel_in.
  replace (id_in ids (Order.group_buy_id r)) with true; [reflexivity|].
  symmetry. apply id_in_iff. now rewrite E.
Qed.

(** X11.  On a well-formed store, when a sweep has returned, each group it
    found expired is still there, inactive, and holds exactly the orders it
    held, all CANCELLED: the rearrangement the sweep ends with regroups
    nothing out of a swept group. *)
Theorem check_expired_groups_keeps_cancelled_orders (now : Z) (db : DB)
    (reply : SweepReply) (db' : DB) (g : GroupBuy.t) :
  well_formed db ->
  check_expired_groups now db = inr (reply, db') ->
  In g (get_expired_groups db (now - timedelta_days 7)) ->
  In (GroupBuy.set_is_active now false g) (group_buys db')
  /\ get_orders_by_group db' (GroupBuy.id g)
     = map (Order.set_status CANCELLED) (get_orders_by_group db (GroupBuy.id g)).
Proof.
  intros Hwf Hrun Hg. unfold check_expired_groups in Hrun. cbv zeta in Hrun.
  set (expired_groups := get_expired_groups db (now - timedelta_days 7)) in *.
  destruct expired_groups as [|g0 rest] eqn:Hexp; [destruct Hg|].
  rewrite <- Hexp in *. clear g0 rest Hexp.
  destruct (expire_groups now expired_groups db) as [e|db1] eqn:Hloop; [discriminate|].
  destruct (rearrange_incomplete_groups now db1) as [e|[r db2]] eqn:Hre;
    [discriminate|].
  inversion Hrun; subst. clear Hrun.
  destruct (expire_groups_returned _ _ _ _ (wf_order_ids _ Hwf) Hloop)
    as (Ho & Hgr & Hp & Hgs & Hos).
  assert (Hwf1 : well_formed db1).
  { apply (rewritten_store_well_formed db db1 _ _ Hwf Hgr Ho); auto.
    - intros x. apply close_in_id.
    - intros o. apply cancel_in_keeps. }
  set (ids := map GroupBuy.id expired_groups) in *.
  assert (Hid : In (GroupBuy.id g) ids) by now apply in_map.
  assert (Hrow : In g (group_buys db)).
  { unfold expired_groups, get_expired_groups in Hg.
    now apply filter_In in Hg as [Hg _]. }
  assert (Hclosed : In (GroupBuy.set_is_active now false g) (group_buys db1)).
  { rewrite Hgr. apply in_map_iff. exists g. split; [|exact Hrow].
    unfold close_in. apply id_in_iff in Hid. now rewrite Hid. }
  assert (Horders : get_orders_by_group db1 (GroupBuy.id g)
                    = map (Order.set_status CANCELLED)
                          (get_orders_by_group db (GroupBuy.id g))).
  { unfold get_orders_by_group. rewrite Ho. now apply cancelled_orders_of_group. }
  unfold rearrange_incomplete_groups in Hre.
  destruct (get_incomplete_groups db1) as [|g1 rest1] eqn:Hinc.
  { inversion Hre; subst. auto. }
  rewrite <- Hinc in Hre.
  destruct (rearrange_products now _ (db1, [])) as [e|[db2 results]] eqn:Hrounds;
    [discriminate|].
  inversion Hre; subst. clear Hre.
  assert (Hprot : forall k groups g2,
             In (k, groups) (group_by_product (get_incomplete_groups db1)) ->
             In g2 groups -> ~ In (GroupBuy.id g2) ids).
  { intros k groups g2 Hentry Hg2 Hprot.
    destruct (product_groups_rows db1 k groups g2 Hentry Hg2) as (Hin2 & _ & Hinc2).
    rewrite Hgr in Hin2. apply in_map_iff in Hin2 as (g3 & <- & Hin3).
    unfold incomplete in Hinc2. apply andb_prop in Hinc2 as [Hact _].
    apply close_in_active in Hact as [_ Hout].
    rewrite close_in_id in Hprot. apply id_in_iff in Hprot. congruence. }
  destruct (rearrange_products_frame (fun x => In x ids) now
              (group_by_product (get_incomplete_groups db1)) db1 [] db' results
              Hwf1 Hprot Hrounds) as (_ & _ & _ & Hkept & _ & Hsame & _).
  split.
  - apply Hkept; [exact Hclosed|exact Hid].
  - rewrite Hsame; [exact Horders|exact Hid|].
    rewrite Hgs. now apply (wf_group_seq _ Hwf).
Qed.

Lemma check_expired_groups_keeps_cancelled_orders_witness :
  exists reply db',
    check_expired_groups (timedelta_days 8) store_stale = inr (reply, db')
    /\ In (GroupBuy.mk 1 7 1 3 false (timedelta_days 8)) (group_buys db')
    /\ get_orders_by_group db' 1 = [Order.mk 1 101 1 1 50 None 5 CANCELLED 0].
Proof.
  eexists. eexists. split; [vm_compute; reflexivity|].
  apply (check_expired_groups_keeps_cancelled_orders (timedelta_days 8) store_stale
           (ExpiredGroups 1 NoIncompleteGroups) _ (GroupBuy.mk 1 7 1 3 true 0)).
  - well_formed_store.
  - vm_compute. reflexivity.
  - vm_compute. now left.
Defined.

(** ** Rearranging twice *)

Lemma filter_both {Row} (p q : Row -> bool) (rows : list Row) :
  filter p (filter q rows) = filter (fun row => q row && p row) rows.
Proof.
  induction rows as [|row rows IH]; simpl; [reflexivity|].
  destruct (q row); simpl; [|exact IH]. destruct (p row); now rewrite IH.
Qed.

(** A loop over products none of which can fill a group changes nothing. *)
Lemma rearrange_products_quiet now product_groups :
  forall db results,
    (forall k groups, In (k, groups) product_groups ->
       exists product,
         get_product db k = Some product
         /\ Product.min_group_size product <> 0
         /\ Z.of_nat (length (sorted_orders db groups))
            / Product.min_group_size product <= 0) ->
    rearrange_products now product_groups (db, results) = inr (db, results).
Proof.
  induction product_groups as [|[k groups] rest IH]; intros db results Hquiet;
    cbn [rearrange_products]; [reflexivity|].
  destruct (Hquiet k groups (or_introl eq_refl)) as (product & Hp & Hn & Hfull).
  pose proof (rearrange_product_eq now db results k groups product Hp Hn) as Heq.
  cbv zeta in Heq.
  replace (0 <? Z.of_nat (length (sorted_orders db groups))
                / Product.min_group_size product) with false in Heq
    by (symmetry; apply Z.ltb_ge; exact Hfull).
  rewrite Heq. apply IH. intros k' groups' Hin. apply Hquiet. now right.
Qed.

Lemma incomplete_new_groups now product_id n seq0 full rem :
  0 <= rem < n ->
  filter incomplete (new_groups now product_id n seq0 full rem)
  = remainder_groups now product_id n seq0 full rem.
Proof.
  intros Hrem. unfold new_groups. rewrite filter_app.
  rewrite (query_of_none incomplete (complete_groups _ _ _ _ _)).
  - simpl. unfold remainder_groups. destruct (0 <? rem); [|reflexivity].
    simpl. unfold incomplete. simpl.
    replace (rem <? n) with true by (symmetry; apply Z.ltb_lt; lia). reflexivity.
  - intros g Hg. unfold complete_groups in Hg.
    now apply in_map_iff in Hg as (i & <- & _).
Qed.

(** The incomplete groups of each product after the groups of product [k]
    were closed and [news], of product [k], were added. *)
Lemma incomplete_groups_after_close now db k (news : list GroupBuy.t) kk :
  well_formed db ->
  (forall g, In g news ->
     GroupBuy.product_id g = k /\ group_buy_seq db <= GroupBuy.id g) ->
  filter (of_product kk)
    (filter incomplete
       (map (close_in now (map GroupBuy.id
                             (filter (of_product k) (get_incomplete_groups db))))
            (group_buys db ++ news)))
  = if kk =? k then filter incomplete news
    else filter (of_product kk) (get_incomplete_groups db).
Proof.
  intros Hwf Hnews.
  set (groups := filter (of_product k) (get_incomplete_groups db)).
  set (ids := map GroupBuy.id groups).
  assert (Hmine : forall row, In row (group_buys db) -> In (GroupBuy.id row) ids ->
                    In row groups).
  { intros row Hrow Hin. apply in_map_iff in Hin as (g & E & Hg).
    assert (Hg' : In g (group_buys db)).
    { unfold groups, get_incomplete_groups in Hg.
      apply filter_In in Hg as [Hg _]. now apply filter_In in Hg as [Hg _]. }
    assert (g = row)
      by (eapply unique_keys_same_row; eauto using wf_group_ids).
    now subst g. }
  assert (Hfresh : map (close_in now ids) news = news).
  { rewrite <- (map_id news) at 2. apply map_ext_in. intros g Hg.
    apply close_in_outside. intros Hin. apply in_map_iff in Hin as (g0 & E & Hg0).
    unfold groups, get_incomplete_groups in Hg0.
    apply filter_In in Hg0 as [Hg0 _]. apply filter_In in Hg0 as [Hg0 _].
    apply (wf_group_seq _ Hwf) in Hg0. apply Hnews in Hg as [_ Hg]. lia. }
  rewrite map_app, Hfresh, !filter_app, !filter_both.
  destruct (Z.eqb_spec kk k) as [->|Hother].
  - rewrite (query_of_none _ (map (close_in now ids) (group_buys db))).
    + simpl. rewrite <- filter_both. apply query_of_all.
      intros g Hg. apply filter_In in Hg as [Hg _].
      apply Hnews in Hg as [Hg _]. unfold of_product. now apply Z.eqb_eq.
    + intros row' Hin. apply in_map_iff in Hin as (row & <- & Hrow).
      destruct (incomplete (close_in now ids row)) eqn:Hinc; [|reflexivity].
      simpl.
      assert (Hact : GroupBuy.is_active (close_in now ids row) = true).
      { unfold incomplete in Hinc. now apply andb_prop in Hinc as [Hact _]. }
      apply close_in_active in Hact as [Esame Eout]. rewrite Esame in *.
      destruct (of_product k row) eqn:Hk; [|reflexivity].
      assert (Hin : In row groups).
      { unfold groups, get_incomplete_groups.
        apply filter_In. split; [|exact Hk]. apply filter_In. auto. }
      apply (in_map GroupBuy.id), id_in_iff in Hin. fold ids in Hin. congruence.
  - rewrite (query_of_none _ news).
    + rewrite app_nil_r. unfold get_incomplete_groups. rewrite filter_both.
      apply query_after_rewrite. intros row Hrow.
      destruct (in_dec Z.eq_dec (GroupBuy.id row) ids) as [Hin|Hout].
      * apply Hmine in Hin; [|exact Hrow].
        unfold groups in Hin. apply filter_In in Hin as [_ Hk].
        unfold of_product in Hk. apply Z.eqb_eq in Hk.
        destruct (close_in_deactivating now ids row) as [Hsame _].
        unfold of_product. rewrite Hsame, Hk.
        replace (k =? kk) with false by (symmetry; apply Z.eqb_neq; congruence).
        rewrite !andb_false_r. split; [reflexivity|discriminate].
      * rewrite (close_in_outside now ids row Hout). auto.
    + intros g Hg. apply Hnews in Hg as [Hg _]. unfold of_product. rewrite Hg.
      replace (k =? kk) with false by (symmetry; apply Z.eqb_neq; congruence).
      apply andb_false_r.
Qed.

(** The new active group of a round holds the orders left over. *)
Lemma round_remainder_count now db results k groups product db1 results1 :
  well_formed db -> NoDup (map GroupBuy.id groups) ->
  get_product db k = Some product ->
  rearrange_product now (db, results) (k, groups) = inr (db1, results1) ->
  let n := Product.min_group_size product in
  let total := Z.of_nat (length (sorted_orders db groups)) in
  0 < total / n -> 0 < total mod n ->
  Z.of_nat (length (get_orders_by_group db1 (group_buy_seq db + total / n)))
  = total mod n.
Proof.
  intros Hwf Hnd Hp Hrun n total Hfull Hrem_pos.
  assert (Hn : n <> 0).
  { intros E. unfold n in E, Hfull. rewrite E, Z.div_0_r in Hfull. lia. }
  pose proof (rearrange_product_eq now db results k groups product Hp Hn) as Heq.
  cbv zeta in Heq. fold n total in Heq.
  replace (0 <? total / n) with true in Heq by (symmetry; now apply Z.ltb_lt).
  destruct Heq as (db' & Hrun' & Ho & _).
  rewrite Hrun in Hrun'. inversion Hrun'; subst db'. clear Hrun'.
  pose proof (round_division db groups product Hfull) as [Hdiv Hrem].
  pose proof (round_positive db groups product Hfull) as Hpos.
  pose proof (round_miss db groups product Hwf Hfull) as Hmiss.
  pose proof (round_complete db groups product Hwf Hfull Hnd) as Hcomplete.
  pose proof (round_remainder db groups product Hwf Hfull Hnd) as Hremainder.
  pose proof (sorted_orders_unique_keys db groups (wf_order_ids _ Hwf) Hnd) as Hkeys.
  fold n in Hdiv, Hrem, Hpos, Hmiss, Hcomplete, Hremainder, Ho.
  set (d := get_discount_percentage product n) in *.
  set (all_orders := sorted_orders db groups) in *.
  fold total in Hdiv, Hrem, Hmiss, Hcomplete, Hremainder, Ho.
  set (full := total / n) in *.
  set (rem := total mod n) in *.
  set (seq0 := group_buy_seq db) in *.
  set (G := apply_jobs (all_jobs seq0 n d all_orders full rem)) in *.
  set (remaining := skipn (Z.to_nat (full * n)) all_orders) in *.
  assert (Hchosen : forall r, In r (orders db) ->
             (Order.group_buy_id (G r) =? seq0 + full) = true <-> In r remaining).
  { intros r Hr. rewrite Z.eqb_eq. split.
    - intros E.
      destruct (in_dec Z.eq_dec (Order.group_buy_id r) (map GroupBuy.id groups))
        as [Hmine|Hother].
      + assert (Hall : In r all_orders) by (apply sorted_orders_in; auto).
        destruct (in_slices_or_rest n full all_orders r Hpos ltac:(lia) Hall)
          as [(i & Hi & Hslice)|Hrest]; [|exact Hrest].
        rewrite (Hcomplete i r Hi Hslice) in E. simpl in E. lia.
      + rewrite (Hmiss r Hr Hother) in E.
        apply (wf_order_group _ Hwf) in Hr. fold seq0 in Hr. lia.
    - intros Hrest. now rewrite (Hremainder r Hrem_pos Hrest). }
  assert (Hincl : forall r, In r remaining -> In r (orders db)).
  { intros r Hr. apply in_skipn in Hr. now apply sorted_orders_in in Hr. }
  unfold get_orders_by_group. rewrite Ho, filter_map_swap, length_map.
  rewrite (unique_rows_counted (orders db) remaining); auto.
  - unfold remaining. rewrite length_skipn. unfold total in Hdiv. nia.
  - apply Hwf.
  - now apply skipn_unique_keys.
Qed.

(** One round leaves its product quiet, and changes neither the incomplete
    groups of another product nor whether that product is quiet. *)
Lemma rearrange_product_quiet now db results k db1 results1 :
  well_formed db ->
  rearrange_product now (db, results)
    (k, filter (of_product k) (get_incomplete_groups db)) = inr (db1, results1) ->
  quiet db1 k
  /\ (forall k', k' <> k ->
        filter (of_product k') (get_incomplete_groups db1)
        = filter (of_product k') (get_incomplete_groups db))
  /\ (forall k', k' <> k -> quiet db k' -> quiet db1 k').
Proof.
  intros Hwf Hrun.
  set (groups := filter (of_product k) (get_incomplete_groups db)) in *.
  assert (Hnd : NoDup (map GroupBuy.id groups)).
  { unfold groups, get_incomplete_groups.
    apply unique_keys_filter, unique_keys_filter, Hwf. }
  assert (Hrows : forall g, In g groups ->
                    In g (group_buys db) /\ GroupBuy.product_id g = k).
  { intros g Hg. unfold groups, get_incomplete_groups in Hg.
    apply filter_In in Hg as [Hg Hk]. apply filter_In in Hg as [Hg _].
    unfold of_product in Hk. apply Z.eqb_eq in Hk. auto. }
  assert (Hapart : forall g, In g groups ->
                     ~ (fun x => ~ In x (map GroupBuy.id groups)) (GroupBuy.id g)).
  { intros g Hin Hout. apply Hout. now apply in_map. }
  destruct (rearrange_product_frame
              (fun x => ~ In x (map GroupBuy.id groups)) now db results k groups
              db1 results1 Hwf Hapart Hrun) as (_ & Hproducts & _ & _ & _ & Hsame & _).
  destruct (rearrange_product_returns _ _ _ _ _ _ Hrun) as (product & Hp & Hn).
  pose proof (rearrange_product_eq now db results k groups product Hp Hn) as Heq.
  cbv zeta in Heq.
  assert (Hothers : (forall k', k' <> k ->
                       filter (of_product k') (get_incomplete_groups db1)
                       = filter (of_product k') (get_incomplete_groups db)) ->
                    forall k', k' <> k -> quiet db k' -> quiet db1 k').
  { intros Hlists k' Hk' Hquiet product' Hp'.
    rewrite (get_product_same db db1 k' Hproducts) in Hp'.
    rewrite (Hlists k' Hk').
    rewrite (sorted_orders_same db db1); [now apply Hquiet|].
    intros g Hg. unfold get_incomplete_groups in Hg.
    apply filter_In in Hg as [Hg Hkg]. apply filter_In in Hg as [Hg _].
    unfold of_product in Hkg. apply Z.eqb_eq in Hkg.
    apply Hsame; [|now apply (wf_group_seq _ Hwf)].
    intros Hin. apply in_map_iff in Hin as (g2 & E & Hg2).
    destruct (Hrows g2 Hg2) as [Hrow2 Hk2].
    assert (g2 = g)
      by exact (unique_keys_same_row GroupBuy.id (group_buys db) g2 g
                  (wf_group_ids _ Hwf) Hrow2 Hg E).
    subst g2. congruence. }
  destruct (0 <? _) eqn:Hfull.
  2:{ rewrite Hrun in Heq. inversion Heq; subst db1 results1.
      split; [|split; [reflexivity|now apply Hothers]].
      intros product' Hp'. rewrite Hp in Hp'. inversion Hp'; subst product'.
      apply Z.ltb_ge in Hfull. exact Hfull. }
  apply Z.ltb_lt in Hfull.
  destruct Heq as (db' & Hrun' & Ho & Hg & _).
  rewrite Hrun in Hrun'. inversion Hrun'; subst db' results1. clear Hrun'.
  pose proof (round_division db groups product Hfull) as [Hdiv Hrem].
  pose proof (round_remainder_count now db results k groups product db1 _
                Hwf Hnd Hp Hrun Hfull) as Hcount.
  cbv zeta in Hcount.
  set (n := Product.min_group_size product) in *.
  set (total := Z.of_nat (length (sorted_orders db groups))) in *.
  set (full := total / n) in *.
  set (rem := total mod n) in *.
  set (seq0 := group_buy_seq db) in *.
  assert (Hnews : forall g, In g (new_groups now k n seq0 full rem) ->
                    GroupBuy.product_id g = k /\ seq0 <= GroupBuy.id g).
  { intros g Hin. split; [now apply new_groups_of_product in Hin|].
    destruct (new_groups_ids now k n seq0 full rem ltac:(lia)) as [_ Hrange].
    now apply Hrange in Hin. }
  assert (Hlists : forall kk,
             filter (of_product kk) (get_incomplete_groups db1)
             = if kk =? k then remainder_groups now k n seq0 full rem
               else filter (of_product kk) (get_incomplete_groups db)).
  { intros kk. unfold get_incomplete_groups at 1. rewrite Hg.
    etransitivity;
      [exact (incomplete_groups_after_close now db k _ kk Hwf Hnews)|].
    now rewrite incomplete_new_groups. }
  assert (Hothers' : forall k', k' <> k ->
                       filter (of_product k') (get_incomplete_groups db1)
                       = filter (of_product k') (get_incomplete_groups db)).
  { intros k' Hk'. rewrite Hlists.
    now replace (k' =? k) with false by (symmetry; now apply Z.eqb_neq). }
  split; [|split; [exact Hothers'|now apply Hothers]].
  intros product' Hp'.
  rewrite (get_product_same db db1 k Hproducts), Hp in Hp'.
  inversion Hp'; subst product'. fold n.
  rewrite Hlists, Z.eqb_refl. unfold sorted_orders. rewrite sort_by_length.
  unfold remainder_groups. destruct (0 <? rem) eqn:Hrem_pos; simpl.
  - rewrite app_nil_r. apply Z.ltb_lt in Hrem_pos.
    rewrite (Hcount Hrem_pos). rewrite Z.div_small; lia.
  - rewrite Z.div_0_l; lia.
Qed.

(** The loop over the dictionary leaves every product quiet, and every
    incomplete group under a key of the dictionary. *)
Lemma rearrange_products_settle now (keys : list Z) product_groups :
  forall db results db' results',
    well_formed db ->
    NoDup (map fst product_groups) ->
    (forall k groups, In (k, groups) product_groups ->
       In k keys /\ groups = filter (of_product k) (get_incomplete_groups db)) ->
    (forall k, ~ In k (map fst product_groups) -> quiet db k) ->
    (forall g, In g (get_incomplete_groups db) -> In (GroupBuy.product_id g) keys) ->
    rearrange_products now product_groups (db, results) = inr (db', results') ->
    (forall k, quiet db' k)
    /\ (forall g, In g (get_incomplete_groups db') ->
          In (GroupBuy.product_id g) keys).
Proof.
  induction product_groups as [|[k groups] rest IH];
    intros db results db' results' Hwf Hnd Hentries Hquiet Hkeys Hrun;
    cbn [rearrange_products] in Hrun.
  - inversion Hrun; subst. split; [|exact Hkeys]. intros k. now apply Hquiet.
  - destruct (rearrange_product now (db, results) (k, groups))
      as [e|[db1 results1]] eqn:Hround; [discriminate|].
    destruct (Hentries k groups (or_introl eq_refl)) as [Hk Egroups].
    subst groups.
    destruct (rearrange_product_frame (fun _ => False) _ _ _ _ _ _ _ Hwf
                (fun g _ H => H) Hround) as (Hwf1 & _).
    destruct (rearrange_product_quiet now db results k db1 results1 Hwf Hround)
      as (Hquiet_k & Hlists & Hquiet_others).
    simpl in Hnd. inversion Hnd as [|? ? Hnew Hnd_rest]; subst.
    apply (IH db1 results1 db' results' Hwf1 Hnd_rest); [| | |exact Hrun].
    + intros k' groups' Hin. destruct (Hentries k' groups' (or_intror Hin)) as [Hk' ->].
      split; [exact Hk'|]. symmetry. apply Hlists.
      intros ->. apply Hnew. apply (in_map fst) in Hin. exact Hin.
    + intros k' Hout. destruct (Z.eq_dec k' k) as [->|Hother]; [exact Hquiet_k|].
      apply Hquiet_others; [exact Hother|]. apply Hquiet.
      simpl. intros [E|Hin]; [congruence|contradiction].
    + intros g Hg. destruct (Z.eq_dec (GroupBuy.product_id g) k) as [->|Hother];
        [exact Hk|].
      apply Hkeys.
      assert (Hin : In g (filter (of_product (GroupBuy.product_id g))
                            (get_incomplete_groups db1))).
      { apply filter_In. split; [exact Hg|]. unfold of_product. apply Z.eqb_refl. }
      rewrite (Hlists _ Hother) in Hin. now apply filter_In in Hin as [Hin _].
Qed.

(** X12.  On a well-formed store, a rearrangement that has returned leaves
    nothing to rearrange: run again at any time, it returns with no
    rearrangement ("No incomplete groups ..." or an empty list) and changes
    nothing. *)
Theorem rearrange_incomplete_groups_twice (now now' : Z) (db : DB)
    (reply : RearrangeReply) (db' : DB) :
  well_formed db ->
  rearrange_incomplete_groups now db = inr (reply, db') ->
  exists reply',
    rearrange_incomplete_groups now' db' = inr (reply', db')
    /\ (reply' = NoIncompleteGroups \/ reply' = Rearrangements []).
Proof.
  intros Hwf Hrun.
  assert (Hsettled : get_incomplete_groups db' = []
                     \/ ((forall k, quiet db' k)
                         /\ forall g, In g (get_incomplete_groups db') ->
                              exists product,
                                get_product db' (GroupBuy.product_id g) = Some product
                                /\ Product.min_group_size product <> 0)).
  { unfold rearrange_incomplete_groups in Hrun.
    destruct (get_incomplete_groups db) as [|g0 rest] eqn:Hinc.
    { inversion Hrun; subst. now left. }
    rewrite <- Hinc in Hrun.
    destruct (rearrange_products now _ (db, [])) as [e|[db1 results]] eqn:Hloop;
      [discriminate|].
    inversion Hrun; subst db1 reply. clear Hrun. right.
    destruct (group_by_product_grouped (get_incomplete_groups db))
      as (Hnd & Hentries & Hall & _).
    destruct (rearrange_products_settle now
                (map fst (group_by_product (get_incomplete_groups db)))
                _ db [] db' results Hwf Hnd) with (4 := Hloop)
      as [Hquiet Hkeys].
    - intros k groups Hin. split.
      + apply in_map_iff. now exists (k, groups).
      + now destruct (Hentries k groups Hin).
    - intros k Hout product _.
      rewrite (query_of_none (of_product k)).
      + unfold sorted_orders. simpl.
        destruct (Product.min_group_size product); reflexivity || discriminate.
      + intros g Hg. destruct (of_product k g) eqn:Hk; [|reflexivity].
        unfold of_product in Hk. apply Z.eqb_eq in Hk. subst k.
        now apply Hall in Hg.
    - exact Hall.
    - split; [exact Hquiet|]. intros g Hg. apply Hkeys in Hg.
      apply in_map_iff in Hg as ([k groups] & Ek & Hentry). simpl in Ek. subst k.
      destruct (rearrange_products_split _ _ _ _ _ _ _ _ Hentry Hloop)
        as (before & after & db_b & results_b & db_a & results_a
            & _ & Hbefore & Hround & Hafter).
      destruct (rearrange_product_returns _ _ _ _ _ _ Hround) as (product & Hp & Hn).
      exists product. split; [|exact Hn]. rewrite <- Hp.
      apply get_product_same.
      rewrite (rearrange_products_products _ _ _ _ _ _ Hloop).
      symmetry. eapply rearrange_products_products; eauto. }
  unfold rearrange_incomplete_groups.
  destruct Hsettled as [->|[Hquiet Hproducts]]; [eauto|].
  destruct (get_incomplete_groups db') as [|g0 rest] eqn:Hinc; [eauto|].
  rewrite <- Hinc in *.
  rewrite (rearrange_products_quiet now'
             (group_by_product (get_incomplete_groups db')) db' []); [eauto|].
  intros k groups Hentry.
  destruct (group_by_product_grouped (get_incomplete_groups db'))
    as (_ & Hentries & _ & _).
  destruct (Hentries k groups Hentry) as [-> Hne].
  destruct (filter (of_product k) (get_incomplete_groups db')) as [|g gs] eqn:Hgroups;
    [congruence|].
  assert (Hg : In g (filter (of_product k) (get_incomplete_groups db')))
    by (rewrite Hgroups; now left).
  apply filter_In in Hg as [Hg Hk]. unfold of_product in Hk. apply Z.eqb_eq in Hk.
  destruct (Hproducts g Hg) as (product & Hp & Hn). rewrite Hk in Hp.
  exists product. split; [exact Hp|]. split; [exact Hn|].
  rewrite <- Hgroups. now apply Hquiet.
Qed.

Lemma rearrange_incomplete_groups_twice_witness :
  exists reply db',
    rearrange_incomplete_groups 100 store_ten_pending = inr (reply, db')
    /\ db' <> store_ten_pending
    /\ rearrange_incomplete_groups 200 db' = inr (Rearrangements [], db').
Proof.
  destruct (rearrange_incomplete_groups 100 store_ten_pending)
    as [e|[reply db']] eqn:Hrun; [vm_compute in Hrun; discriminate|].
  destruct (rearrange_incomplete_groups_twice 100 200 store_ten_pending reply db'
              ltac:(well_formed_store) Hrun) as (reply' & Hagain & Hreply).
  exists reply, db'. split; [reflexivity|].
  vm_compute in Hrun. inversion Hrun; subst. split; [discriminate|].
  rewrite Hagain. destruct Hreply as [->| ->]; [|reflexivity].
  vm_compute in Hagain. discriminate.
Defined.

(** ** Setting the status of an order *)

Lemma first_after_rewrite {Row} (test : Row -> bool) (rewrite : Row -> Row)
    (rows : list Row) :
  (forall row, test (rewrite row) = test row) ->
  find test (map rewrite rows) = option_map rewrite (find test rows).
Proof.
  intros Htest. induction rows as [|row rows IH]; simpl; [reflexivity|].
  rewrite Htest. now destruct (test row).
Qed.

(** X13.  [update_order_status] returns [None] and changes nothing for an
    unknown key.  For a known key it returns the order with the new status
    and its other columns as they were; afterwards [get_order] finds that
    row under the key, every other key finds what it found before, no group
    is touched (so no [current_count] follows a cancellation), and doing it
    again changes nothing more. *)
Theorem update_order_status_spec (db : DB) (order_id : Z) (new_status : OrderStatus) :
  (get_order db order_id = None ->
   update_order_status db order_id new_status = (None, db))
  /\ (forall order, get_order db order_id = Some order ->
        exists db',
          update_order_status db order_id new_status
          = (Some (Order.set_status new_status order), db')
          /\ get_order db' order_id = Some (Order.set_status new_status order)
          /\ (forall other, other <> order_id ->
                get_order db' other = get_order db other)
          /\ group_buys db' = group_buys db
          /\ products db' = products db
          /\ outbox db' = outbox db
          /\ update_order_status db' order_id new_status
             = (Some (Order.set_status new_status order), db')).
Proof.
  unfold update_order_status. split; [now intros ->|].
  intros order Hfound. rewrite Hfound.
  assert (Eid : Order.id order = order_id).
  { unfold get_order in Hfound. apply find_some in Hfound as [_ E].
    now apply Z.eqb_eq in E. }
  rewrite Eid. eexists. split; [reflexivity|].
  set (f := fun o => if Order.id o =? order_id
                     then Order.set_status new_status o else o).
  assert (Hf : forall o, Order.id (f o) = Order.id o).
  { intros o. unfold f. now destruct (Order.id o =? order_id). }
  assert (Hlookup : forall key,
             get_order (update_order order_id (Order.set_status new_status) db) key
             = option_map f (get_order db key)).
  { intros key. unfold get_order. simpl. apply (first_after_rewrite _ f).
    intros o. now rewrite Hf. }
  assert (Hagain : get_order (update_order order_id (Order.set_status new_status) db)
                             order_id
                   = Some (Order.set_status new_status order)).
  { rewrite Hlookup, Hfound. simpl. unfold f. rewrite Eid, Z.eqb_refl. reflexivity. }
  split; [exact Hagain|]. split; [|repeat split].
  - intros other Hother. rewrite Hlookup.
    destruct (get_order db other) as [o|] eqn:Ho; [|reflexivity].
    simpl. unfold get_order in Ho. apply find_some in Ho as [_ E].
    apply Z.eqb_eq in E. unfold f.
    replace (Order.id o =? order_id) with false
      by (symmetry; apply Z.eqb_neq; congruence).
    reflexivity.
  - rewrite Hagain. simpl. f_equal. unfold update_order, with_orders. simpl.
    f_equal. rewrite map_map. apply map_ext. intros o.
    rewrite Eid. destruct (Order.id o =? order_id) eqn:E; simpl; now rewrite E.
Qed.

(** ** The buttons of a product lead back to it *)

Lemma split_numeral (d : Decimal.uint) :
  split ":" (DecimalString.NilEmpty.string_of_uint d)
  = [DecimalString.NilEmpty.string_of_uint d].
Proof. induction d; simpl; [reflexivity|..]; now rewrite IHd. Qed.

Lemma split_py_str (n : Z) : split ":" (py_str n) = [py_str n].
Proof.
  unfold py_str, DecimalString.NilZero.string_of_int,
    DecimalString.NilZero.string_of_uint.
  destruct (Z.to_int n) as [d|d]; destruct d; simpl;
    try reflexivity; now rewrite split_numeral.
Qed.

Ltac read_digits :=
  repeat match goal with
         | |- context [digit_value ?c] =>
             let v := eval vm_compute in (digit_value c) in
             change (digit_value c) with v
         end.

Lemma scan_numeral (d : Decimal.uint) :
  (forall acc, scan_digits (Z.pos acc) (DecimalString.NilEmpty.string_of_uint d)
               = Some (Z.pos (Pos.of_uint_acc d acc), EmptyString))
  /\ scan_digits 0 (DecimalString.NilEmpty.string_of_uint d)
     = Some (Z.of_N (Pos.of_uint d), EmptyString).
Proof.
  induction d as [|d [IHacc IH0]|d [IHacc IH0]|d [IHacc IH0]|d [IHacc IH0]
                  |d [IHacc IH0]|d [IHacc IH0]|d [IHacc IH0]|d [IHacc IH0]
                  |d [IHacc IH0]|d [IHacc IH0]];
    (split; [intros acc|]);
    cbn [DecimalString.NilEmpty.string_of_uint scan_digits
         Pos.of_uint_acc Pos.of_uint];
    read_digits; cbv iota;
    try reflexivity; try exact IH0;
    try apply IHacc;
    try (rewrite <- IHacc; f_equal; lia).
Qed.

Lemma py_int_numeral (d : Decimal.uint) :
  d <> Decimal.Nil ->
  py_int (DecimalString.NilEmpty.string_of_uint d) = inr (Z.of_uint d)
  /\ py_int (String "-" (DecimalString.NilEmpty.string_of_uint d))
     = inr (- Z.of_uint d).
Proof.
  intros Hd. unfold Z.of_uint.
  destruct d as [|d|d|d|d|d|d|d|d|d|d]; [congruence|..];
    destruct (scan_numeral d) as [Hacc H0];
    unfold py_int; cbn [DecimalString.NilEmpty.string_of_uint skip_spaces is_space
                        Pos.of_uint];
    read_digits; cbv iota;
    rewrite ?H0, ?Hacc; cbn [skip_spaces]; split; reflexivity.
Qed.

Lemma py_int_py_str (n : Z) : py_int (py_str n) = inr n.
Proof.
  rewrite <- (DecimalZ.of_to n) at 2.
  unfold py_str, DecimalString.NilZero.string_of_int,
    DecimalString.NilZero.string_of_uint.
  assert (Hnonnil : forall p, Pos.to_uint p <> Decimal.Nil)
    by apply DecimalPos.Unsigned.to_uint_nonnil.
  destruct n as [|p|p]; simpl Z.to_int.
  - reflexivity.
  - specialize (Hnonnil p). destruct (py_int_numeral _ Hnonnil) as [Hpos _].
    destruct (Pos.to_uint p); [congruence|..]; exact Hpos.
  - specialize (Hnonnil p). destruct (py_int_numeral _ Hnonnil) as [_ Hneg].
    destruct (Pos.to_uint p); [congruence|..]; exact Hneg.
Qed.

(** X14.  The two buttons [send_product_info] puts under a product, whose
    key is in the range of a 64-bit integer column, lead back to that
    product: [process_bale_update] takes the join branch for the data
    of the first and the view branch for the data of the second, and the
    product key it reads from either is the key the button was made for.
    What follows a second colon is not read. *)
Theorem inline_keyboard_round_trip (product_id : Z) :
  - 2 ^ 63 <= product_id < 2 ^ 63 ->
  exists join view,
    inline_keyboard product_id = [[join; view]]
    /\ callback_action (callback_data join) = inr (JoinGroupAction product_id)
    /\ callback_action (callback_data view) = inr (ViewProductAction product_id)
    /\ forall more,
         callback_action (callback_data join ++ ":" ++ more)
         = inr (JoinGroupAction product_id).
Proof.
  intros _. unfold inline_keyboard. do 2 eexists. split; [reflexivity|].
  unfold callback_action, callback_product_id. cbn [callback_data].
  assert (Hprefix : forall s, prefix "" s = true) by (now intros [|c s]).
  split; [|split].
  - simpl. rewrite split_py_str. simpl. now rewrite Hprefix, py_int_py_str.
  - simpl. rewrite split_py_str. simpl. now rewrite Hprefix, py_int_py_str.
  - intros more. simpl.
    assert (Hsplit : forall s, exists pieces,
               split ":" (py_str product_id ++ String ":" s)
               = py_str product_id :: pieces).
    { intros s. unfold py_str, DecimalString.NilZero.string_of_int,
        DecimalString.NilZero.string_of_uint.
      assert (Hd : forall d, exists pieces,
                 split ":" (DecimalString.NilEmpty.string_of_uint d ++ String ":" s)
                 = DecimalString.NilEmpty.string_of_uint d :: pieces).
      { induction d as [|d [ps IH]|d [ps IH]|d [ps IH]|d [ps IH]|d [ps IH]
                        |d [ps IH]|d [ps IH]|d [ps IH]|d [ps IH]|d [ps IH]];
          simpl; rewrite ?IH; eauto. }
      destruct (Z.to_int product_id) as [d|d]; destruct d; simpl;
        try (eexists; reflexivity);
        match goal with
        | |- context [split ":" (DecimalString.NilEmpty.string_of_uint ?d ++ _)] =>
            destruct (Hd d) as [ps ->]; eauto
        end. }
    destruct (Hsplit more) as [pieces ->]. simpl.
    now rewrite Hprefix, py_int_py_str.
Qed.

Lemma inline_keyboard_round_trip_witness :
  callback_action "join_group:42" = inr (JoinGroupAction 42)
  /\ callback_action "view_product:42" = inr (ViewProductAction 42).
Proof.
  destruct (inline_keyboard_round_trip 42 ltac:(lia))
    as (join & view & Hkeys & Hjoin & Hview & _).
  inversion Hkeys; subst. split; [exact Hjoin|exact Hview].
Defined.

(** ** Edge cases of counting *)

(** X15.  [process_new_order] does not remember which orders it has counted:
    called twice for the same order of a group that stays below its target,
    it counts the order twice and sends the buyer two messages, although the
    group holds the orders it held. *)
Theorem process_new_order_counts_each_call (now now' : Z) (db : DB) (order_id : Z)
    (order : Order.t) (group_buy : GroupBuy.t) (product : Product.t) :
  get_order db order_id = Some order ->
  get_group_buy db (Order.group_buy_id order) = Some group_buy ->
  get_product db (GroupBuy.product_id group_buy) = Some product ->
  GroupBuy.current_count group_buy + 2 < GroupBuy.target_count group_buy ->
  let group_id := GroupBuy.id group_buy in
  let count := GroupBuy.current_count group_buy in
  let target := GroupBuy.target_count group_buy in
  exists db1 db2 counted_twice,
    process_new_order now db order_id
    = inr (AddedToGroupBuy group_id (count + 1) target, db1)
    /\ process_new_order now' db1 order_id
       = inr (AddedToGroupBuy group_id (count + 2) target, db2)
    /\ get_group_buy db2 group_id = Some counted_twice
    /\ GroupBuy.current_count counted_twice = count + 2
    /\ orders db2 = orders db
    /\ outbox db2
       = outbox db ++ [(Order.buyer_id order, MsgJoined (count + 1) target);
                       (Order.buyer_id order, MsgJoined (count + 2) target)].
Proof.
  intros Horder Hgroup Hproduct Hbelow group_id count target.
  assert (Eid : GroupBuy.id group_buy = Order.group_buy_id order).
  { unfold get_group_buy in Hgroup. apply find_some in Hgroup as [_ E].
    now apply Z.eqb_eq in E. }
  assert (Hcounted : forall when c (store : DB) found,
             get_group_buy store (Order.group_buy_id order) = Some found ->
             get_group_buy
               (update_group_buy (GroupBuy.id found)
                  (GroupBuy.set_current_count when c) store)
               (Order.group_buy_id order)
             = Some (GroupBuy.set_current_count when c found)).
  { intros when c store found Hfound. unfold get_group_buy in *. simpl.
    rewrite (first_after_rewrite _
               (fun g => if GroupBuy.id g =? GroupBuy.id found
                         then GroupBuy.set_current_count when c g else g)).
    - rewrite Hfound. simpl. now rewrite Z.eqb_refl.
    - intros g. now destruct (GroupBuy.id g =? GroupBuy.id found). }
  set (db1 := send_message (Order.buyer_id order) (MsgJoined (count + 1) target)
                (update_group_buy group_id
                   (GroupBuy.set_current_count now (count + 1)) db)).
  set (once := GroupBuy.set_current_count now (count + 1) group_buy).
  set (db2 := send_message (Order.buyer_id order) (MsgJoined (count + 2) target)
                (update_group_buy group_id
                   (GroupBuy.set_current_count now' (count + 2)) db1)).
  assert (Hfirst : process_new_order now db order_id
                   = inr (AddedToGroupBuy group_id (count + 1) target, db1)).
  { unfold process_new_order. rewrite Horder, Hgroup, Hproduct. cbv zeta.
    fold count target group_id.
    replace (target <=? count + 1) with false
      by (symmetry; apply Z.leb_gt; unfold count, target; lia).
    reflexivity. }
  assert (Hgroup1 : get_group_buy db1 (Order.group_buy_id order) = Some once).
  { apply (Hcounted now (count + 1) db group_buy Hgroup). }
  assert (Hsecond : process_new_order now' db1 order_id
                    = inr (AddedToGroupBuy group_id (count + 2) target, db2)).
  { unfold process_new_order.
    replace (get_order db1 order_id) with (Some order) by (symmetry; exact Horder).
    rewrite Hgroup1.
    replace (get_product db1 (GroupBuy.product_id once)) with (Some product)
      by (symmetry; exact Hproduct).
    cbv zeta. simpl GroupBuy.current_count. simpl GroupBuy.target_count.
    simpl GroupBuy.id. fold count target group_id.
    replace (count + 1 + 1) with (count + 2) by lia.
    replace (target <=? count + 2) with false
      by (symmetry; apply Z.leb_gt; unfold count, target; lia).
    reflexivity. }
  exists db1, db2, (GroupBuy.set_current_count now' (count + 2) once).
  split; [exact Hfirst|]. split; [exact Hsecond|]. split; [|split; [reflexivity|]].
  - unfold group_id. rewrite Eid.
    apply (Hcounted now' (count + 2) db1 once Hgroup1).
  - split; [reflexivity|]. simpl. now rewrite <- app_assoc.
Qed.

Lemma process_new_order_counts_each_call_witness :
  exists db1 db2 counted_twice,
    process_new_order 10 store_7 1 = inr (AddedToGroupBuy 1 2 4, db1)
    /\ process_new_order 11 db1 1 = inr (AddedToGroupBuy 1 3 4, db2)
    /\ get_group_buy db2 1 = Some counted_twice
    /\ GroupBuy.current_count counted_twice = 3
    /\ orders db2 = orders store_7.
Proof.
  destruct (process_new_order_counts_each_call 10 11 store_7 1
              (Order.mk 1 101 1 1 50 None 5 PENDING 0)
              (GroupBuy.mk 1 7 1 4 true 0) (Product.mk 7 50 4 10 [])
              eq_refl eq_refl eq_refl ltac:(simpl; lia))
    as (db1 & db2 & g & H1 & H2 & Hg & Hc & Ho & _).
  exists db1, db2, g. auto.
Defined.

(** X16.  On a well-formed store, when a product has a [min_group_size] of
    1 or less and no active group, a join completes a group at once: the
    callback creates the group and the order, [process_new_order] counts the
    order in, closes the group and confirms the order with
    [discount_price = price * (1 - discount / 100)], [discount] being the one
    resolved for a group of 1; the product is left without an active
    group. *)
Theorem join_completes_at_once (now : Z) (db : DB) (product_id buyer_id : Z)
    (product : Product.t) :
  well_formed db ->
  get_product db product_id = Some product ->
  Product.min_group_size product <= 1 ->
  get_active_group_buy db product_id = None ->
  let group_id := group_buy_seq db in
  let discount := get_discount_percentage product 1 in
  exists db' order group_buy,
    join now db product_id buyer_id
    = inr ((mkJoinGroup group_id (order_seq db),
            GroupBuyCompleted group_id discount), db')
    /\ get_order db' (order_seq db) = Some order
    /\ Order.group_buy_id order = group_id
    /\ Order.status order = CONFIRMED
    /\ Order.unit_price order = Product.price product
    /\ Order.discount_price order
       = Some (Product.price product * (1 - discount / 100))%Q
    /\ get_group_buy db' group_id = Some group_buy
    /\ GroupBuy.is_active group_buy = false
    /\ GroupBuy.current_count group_buy = 1
    /\ get_active_group_buy db' product_id = None.
Proof.
  intros Hwf Hproduct Hsize Hnone group_id discount.
  set (created := GroupBuy.mk (group_buy_seq db) product_id 0
                              (Product.min_group_size product) true now).
  set (order := Order.mk (order_seq db) buyer_id (group_buy_seq db) 1
                         (Product.price product) None
                         (Product.price product * (1 # 10))%Q PENDING now).
  set (db2 := send_message buyer_id
                (MsgDeposit (Product.price product * (1 # 10))%Q 1
                            (Product.min_group_size product))
                (mkDB (products db) (group_buys db ++ [created])
                      (orders db ++ [order]) (group_buy_seq db + 1)
                      (order_seq db + 1) (outbox db))).
  assert (Hcallback : process_bale_update_join_group now db product_id buyer_id
                      = inr (mkJoinGroup (group_buy_seq db) (order_seq db), db2)).
  { unfold process_bale_update_join_group, get_or_create_active_group_buy.
    rewrite Hnone, Hproduct. simpl. unfold get_product in *. simpl.
    rewrite Hproduct. reflexivity. }
  assert (Hnd2 : NoDup (map Order.id (orders db2))).
  { simpl. apply unique_keys_appended; [apply Hwf|]. simpl. apply Hwf. }
  assert (Horder : get_order db2 (order_seq db) = Some order).
  { unfold get_order. simpl. apply first_of_appended.
    - intros r Hr. apply (wf_order_seq _ Hwf) in Hr. apply Z.eqb_neq. lia.
    - simpl. apply Z.eqb_refl. }
  assert (Hgroup : get_group_buy db2 (Order.group_buy_id order) = Some created).
  { unfold get_group_buy. simpl. apply first_of_appended.
    - intros r Hr. apply (wf_group_seq _ Hwf) in Hr. apply Z.eqb_neq. lia.
    - simpl. apply Z.eqb_refl. }
  assert (Hproduct2 : get_product db2 (GroupBuy.product_id created) = Some product)
    by exact Hproduct.
  destruct (process_new_order_completes_eq now db2 (order_seq db) order created
              product Hnd2 Horder Hgroup Hproduct2 ltac:(simpl; lia))
    as (db' & Hrun & Hgroups & Horders & _).
  simpl in Hrun, Hgroups, Horders. fold discount in Hrun, Horders.
  exists db', (confirmed discount order order),
    (GroupBuy.set_is_active now false (GroupBuy.set_current_count now 1 created)).
  split; [|split; [|do 4 (split; [reflexivity|])]].
  - unfold join. rewrite Hcallback. simpl join_order_id. now rewrite Hrun.
  - replace (order_seq db) with (Order.id (confirmed discount order order))
      by reflexivity.
    apply get_order_of_row.
    + rewrite Horders, map_order_id_map; [exact Hnd2|].
      intros o. now destruct (Order.group_buy_id o =? group_buy_seq db).
    + rewrite Horders. apply in_map_iff. exists order. split.
      * simpl. now rewrite Z.eqb_refl.
      * apply in_or_app. right. now left.
  - split; [|split; [reflexivity|split; [reflexivity|]]].
    + unfold get_group_buy. rewrite Hgroups, map_app. simpl.
      rewrite Z.eqb_refl. apply first_of_appended.
      * intros r Hr. apply in_map_iff in Hr as (g & <- & Hg).
        apply (wf_group_seq _ Hwf) in Hg. apply Z.eqb_neq.
        destruct (Z.eqb_spec (GroupBuy.id g) (group_buy_seq db)); simpl; lia.
      * simpl. apply Z.eqb_refl.
    + unfold get_active_group_buy. rewrite Hgroups. apply first_of_none.
      intros r Hr. apply in_map_iff in Hr as (g & <- & Hg).
      apply in_app_or in Hg as [Hg|[<-|[]]].
      * unfold get_active_group_buy in Hnone.
        pose proof (find_none _ _ Hnone g Hg) as Hg'. simpl in Hg'.
        destruct (GroupBuy.id g =? group_buy_seq db); simpl; [|exact Hg'].
        apply andb_false_r.
      * simpl. rewrite Z.eqb_refl. simpl. apply andb_false_r.
Qed.

Lemma join_completes_at_once_witness :
  exists db' order,
    join 3 (mkDB [Product.mk 5 80 1 25 []] [] [] 1 1 []) 5 11
    = inr ((mkJoinGroup 1 1, GroupBuyCompleted 1 25), db')
    /\ get_order db' 1 = Some order
    /\ Order.status order = CONFIRMED
    /\ Order.unit_price order = 80%Q
    /\ Order.discount_price order = Some (80 * (1 - 25 / 100))%Q
    /\ option_map Qred (Order.discount_price order) = Some 60%Q
    /\ get_active_group_buy db' 5 = None.
Proof.
  destruct (join_completes_at_once 3 (mkDB [Product.mk 5 80 1 25 []] [] [] 1 1 [])
              5 11 (Product.mk 5 80 1 25 [])
              ltac:(well_formed_store) eq_refl ltac:(simpl; lia) eq_refl)
    as (db' & order & g & Hrun & Ho & _ & Hs & Hu & Hp & _ & _ & _ & Hnone).
  exists db', order. repeat (split; [assumption|]).
  split; [|exact Hnone]. now rewrite Hp.
Defined.

(** ** Status and price go together *)

Lemma rewritten_orders_priced_as_status oid (f : Order.t -> Order.t) db :
  (forall o, priced_as_status o -> priced_as_status (f o)) ->
  keeps_priced_as_status db (update_order oid f db).
Proof.
  intros Hf Hall o' Hin. simpl in Hin. apply in_map_iff in Hin as (o & <- & Hin).
  destruct (Order.id o =? oid); auto.
Qed.

Lemma keeps_priced_as_status_evolution : evolution keeps_priced_as_status.
Proof.
  constructor; unfold keeps_priced_as_status; intros; auto.
  - simpl in *. match goal with H : In _ (_ ++ _) |- _ =>
      apply in_app_or in H as [H|[<-|[]]] end; [auto|reflexivity].
  - revert o H0. apply rewritten_orders_priced_as_status; [|exact H].
    intros o _. unfold priced_as_status. simpl. discriminate.
  - revert o H0. apply rewritten_orders_priced_as_status; [|exact H].
    intros o _. unfold priced_as_status. simpl. discriminate.
  - revert o H0. apply rewritten_orders_priced_as_status; [|exact H].
    intros o Ho. exact Ho.
  - revert o H0. apply rewritten_orders_priced_as_status; [|exact H].
    intros o _. exact I.
Qed.

(** X17.  Status and price go together: if every order is PENDING only
    without a [discount_price] and CONFIRMED only with one, this is still so
    after any sequence of entry points that return.  In particular, from a
    store without orders, no order is ever CONFIRMED without a price or PENDING
    with one. *)
Theorem operations_keep_priced_as_status (ops : list (Z * Operation)) (db db' : DB) :
  (forall o, In o (orders db) -> priced_as_status o) ->
  run_operations ops db = inr db' ->
  forall o, In o (orders db') -> priced_as_status o.
Proof.
  intros Hall Hrun.
  exact (run_operations_evolves keeps_priced_as_status
           keeps_priced_as_status_evolution ops db db' Hrun Hall).
Qed.

Lemma operations_keep_priced_as_status_witness :
  exists db',
    run_operations
      [(1, JoinGroupCallback 1 11); (2, ProcessNewOrder 1);
       (3, JoinGroupCallback 1 12); (4, JoinGroupCallback 1 13);
       (5, ProcessNewOrder 2); (6, ProcessNewOrder 3);
       (timedelta_days 9, CheckExpiredGroups)]
      (mkDB [product_tiered] [] [] 1 1 []) = inr db'
    /\ forall o, In o (orders db') -> priced_as_status o.
Proof.
  eexists. split; [vm_compute; reflexivity|].
  apply (operations_keep_priced_as_status
           [(1, JoinGroupCallback 1 11); (2, ProcessNewOrder 1);
            (3, JoinGroupCallback 1 12); (4, JoinGroupCallback 1 13);
            (5, ProcessNewOrder 2); (6, ProcessNewOrder 3);
            (timedelta_days 9, CheckExpiredGroups)]
           (mkDB [product_tiered] [] [] 1 1 [])).
  - intros o [].
  - vm_compute. reflexivity.
Defined.

(** ** Who a round of the rearrangement notifies *)

Lemma finalize_orders_outbox gid d (l : list Order.t) :
  forall db,
    outbox (fold_left (finalize_order gid d) l db)
    = outbox db ++ map (regrouped_message d) l.
Proof.
  induction l as [|o l IH]; intros db; simpl; [now rewrite app_nil_r|].
  rewrite IH. simpl. now rewrite <- app_assoc.
Qed.

Lemma move_orders_outbox gid rem n (l : list Order.t) :
  forall db,
    outbox (fold_left (move_order gid rem n) l db)
    = outbox db ++ map (moved_message rem n) l.
Proof.
  induction l as [|o l IH]; intros db; simpl; [now rewrite app_nil_r|].
  rewrite IH. simpl. now rewrite <- app_assoc.
Qed.

Lemma close_groups_outbox now (groups : list GroupBuy.t) :
  forall db, outbox (fold_left (close_group now) groups db) = outbox db.
Proof.
  induction groups as [|g groups IH]; intros db; simpl; [reflexivity|].
  now rewrite IH.
Qed.

Lemma messages_of_runs {A B C} (f : B -> C) (run : A -> list B) (l : list A) :
  flat_map (fun i => map f (run i)) l = map f (flat_map run l).
Proof.
  induction l as [|a l IH]; simpl; [reflexivity|]. now rewrite IH, map_app.
Qed.

Lemma form_complete_groups_outbox now product_id product
    (all_orders : list Order.t) (m : nat) db results :
  let n := Product.min_group_size product in
  let d := get_discount_percentage product n in
  outbox (fst (fold_left (form_complete_group now product_id product all_orders)
                         (range (Z.of_nat m)) (db, results)))
  = outbox db
    ++ map (regrouped_message d)
           (flat_map (fun i => slice (i * n) (i * n + n) all_orders)
                     (range (Z.of_nat m))).
Proof.
  intros n d. induction m as [|m IH].
  - simpl. now rewrite app_nil_r.
  - rewrite range_succ, fold_left_app, flat_map_app, map_app.
    destruct (fold_left _ (range (Z.of_nat m)) (db, results)) as [dbm resm].
    simpl in IH. simpl fold_left. unfold form_complete_group. cbv zeta.
    simpl fst. fold n d. rewrite finalize_orders_outbox. simpl outbox.
    rewrite IH, <- app_assoc. simpl. now rewrite app_nil_r.
Qed.

(** X18.  In the round of a product, when at least one group can be filled,
    every pooled order is notified once, oldest first: the orders that fill
    the complete groups get the message of a complete group with their own
    discounted price, the orders left over the message of the new active
    group; nothing else is sent.  When no group can be filled nothing is
    sent. *)
Theorem rearrange_product_notifies (now : Z) (db : DB) (results : list Rearrangement)
    (product_id : Z) (groups : list GroupBuy.t) (product : Product.t)
    (db1 : DB) (results1 : list Rearrangement) :
  get_product db product_id = Some product ->
  rearrange_product now (db, results) (product_id, groups) = inr (db1, results1) ->
  let n := Product.min_group_size product in
  let d := get_discount_percentage product n in
  let all_orders := sorted_orders db groups in
  let total := Z.of_nat (length all_orders) in
  let full := total / n in
  exists sent,
    outbox db1 = outbox db ++ sent
    /\ (full <= 0 -> sent = [])
    /\ (0 < full ->
        sent = map (regrouped_message d) (firstn (Z.to_nat (full * n)) all_orders)
               ++ map (moved_message (total mod n) n)
                      (skipn (Z.to_nat (full * n)) all_orders)
        /\ map fst sent = map Order.buyer_id all_orders).
Proof.
  intros Hproduct Hrun n d all_orders total full.
  unfold rearrange_product in Hrun. rewrite Hproduct in Hrun.
  fold (sorted_orders db groups) in Hrun. fold all_orders n in Hrun.
  destruct (n =? 0) eqn:Hn; [discriminate|].
  fold total full d in Hrun. cbv zeta in Hrun.
  destruct (0 <? full) eqn:Hfull.
  2:{ inversion Hrun; subst. exists []. rewrite app_nil_r.
      apply Z.ltb_ge in Hfull. split; [reflexivity|]. split; [reflexivity|].
      intros Hpos. lia. }
  apply Z.ltb_lt in Hfull.
  pose proof (round_positive db groups product Hfull) as Hpos.
  pose proof (round_division db groups product Hfull) as [Hdiv Hrem].
  fold n all_orders total full in Hpos, Hdiv, Hrem.
  replace (range full) with (range (Z.of_nat (Z.to_nat full))) in Hrun
    by (now rewrite Z2Nat.id by lia).
  pose proof (form_complete_groups_outbox now product_id product all_orders
                (Z.to_nat full) db results) as Hloop.
  cbv zeta in Hloop. fold n d in Hloop.
  rewrite (slices_concat n all_orders (Z.to_nat full)) in Hloop by lia.
  replace (Z.to_nat full * Z.to_nat n)%nat with (Z.to_nat (full * n)) in Hloop
    by nia.
  destruct (fold_left _ (range (Z.of_nat (Z.to_nat full))) (db, results))
    as [dbc resc].
  simpl in Hloop.
  set (regrouped := map (regrouped_message d)
                        (firstn (Z.to_nat (full * n)) all_orders)) in *.
  set (remaining := skipn (Z.to_nat (full * n)) all_orders) in *.
  assert (Hsent : outbox db1
                  = outbox db ++ regrouped
                    ++ map (moved_message (total mod n) n) remaining).
  { destruct (0 <? total mod n) eqn:Hrem_pos.
    - unfold create_group_buy in Hrun. simpl in Hrun.
      inversion Hrun; subst db1 results1. clear Hrun.
      rewrite close_groups_outbox, move_orders_outbox. simpl.
      now rewrite Hloop, <- app_assoc.
    - inversion Hrun; subst db1 results1. clear Hrun.
      rewrite close_groups_outbox, Hloop.
      apply Z.ltb_ge in Hrem_pos.
      assert (Hnone : remaining = []).
      { unfold remaining. apply skipn_all2.
        unfold total, full, all_orders, n in *. lia. }
      rewrite Hnone. simpl. now rewrite app_nil_r. }
  exists (regrouped ++ map (moved_message (total mod n) n) remaining).
  split; [exact Hsent|]. split; [lia|]. intros _. split; [reflexivity|].
  unfold regrouped, remaining. rewrite map_app, !map_map. simpl.
  rewrite <- map_app. now rewrite firstn_skipn.
Qed.

Lemma rearrange_product_notifies_witness :
  exists db1 results1 sent,
    rearrange_product 100 (store_ten_pending, [])
      (7, get_incomplete_groups store_ten_pending) = inr (db1, results1)
    /\ outbox db1 = sent
    /\ map fst sent = [110; 109; 108; 107; 106; 105; 104; 103; 102; 101].
Proof.
  destruct (rearrange_product 100 (store_ten_pending, [])
              (7, get_incomplete_groups store_ten_pending))
    as [e|[db1 results1]] eqn:Hrun; [vm_compute in Hrun; discriminate|].
  destruct (rearrange_product_notifies 100 store_ten_pending [] 7
              (get_incomplete_groups store_ten_pending) (Product.mk 7 50 4 10 [])
              db1 results1 eq_refl Hrun) as (sent & Hout & _ & Hsent).
  destruct Hsent as [_ Hto]; [vm_compute; reflexivity|].
  exists db1, results1, sent. split; [reflexivity|]. split; [exact Hout|].
  rewrite Hto. vm_compute. reflexivity.
Defined.
